(** * Claude PMS: persistence, redaction and pattern extraction

    A shallow embedding of the Python modules [json_handler.py],
    [config.py], [redaction.py] and [extract.py] of the claude-pms plugin,
    and the properties of its specification proved (or refuted) on it.

    Conventions of the embedding:
    - Python values that travel through JSON are the inductive [value];
      a [dict] is an insertion-ordered association list with unique keys.
    - Text is a [string] whose characters are read as code points below
      256; the character classes of [re] are given for that range.
    - Code that performs I/O, prints, or raises runs in the monad [M]: a
      state monad over [world] whose results are [outcome]s ([Ret] or
      [Raise]); [catch] is [try ... except].
    - What the Python standard library computes ([json.loads],
      [json.dump], [hash], the clock) is the interface [PyRuntime]; the
      general theorems hold for every implementation of it, and
      [reference_runtime] is a concrete one used to run the code on
      concrete inputs. *)

From Stdlib Require Import ZArith Ascii String List Bool Lia.
From stdpp Require Import base strings list gmap pretty.

Local Open Scope nat_scope.

(** ** Python values *)

Unset Elimination Schemes.
Inductive value : Type :=
| VNone
| VBool (b : bool)
| VInt (z : Z)
| VStr (s : string)
| VList (items : list value)
| VDict (items : list (string * value)).
Set Elimination Schemes.

(** Induction over [value] with the hypotheses for the elements of a list
    and for the values bound in a dict. *)
Fixpoint value_ind (P : value -> Prop)
  (HNone : P VNone) (HBool : forall b, P (VBool b))
  (HInt : forall z, P (VInt z)) (HStr : forall s, P (VStr s))
  (HList : forall l, Forall P l -> P (VList l))
  (HDict : forall d, Forall (fun kv => P (snd kv)) d -> P (VDict d))
  (v : value) {struct v} : P v :=
  let rec := value_ind P HNone HBool HInt HStr HList HDict in
  match v with
  | VNone => HNone
  | VBool b => HBool b
  | VInt z => HInt z
  | VStr s => HStr s
  | VList l =>
      HList l ((fix go (l : list value) : Forall P l :=
                  match l with
                  | [] => List.Forall_nil P
                  | x :: l' => @List.Forall_cons _ P x l' (rec x) (go l')
                  end) l)
  | VDict d =>
      HDict d ((fix go (d : list (string * value))
                  : Forall (fun kv => P (snd kv)) d :=
                  match d with
                  | [] => List.Forall_nil _
                  | kv :: d' =>
                      @List.Forall_cons _ (fun kv => P (snd kv)) kv d'
                        (rec (snd kv)) (go d')
                  end) d)
  end.

(** [d.get(k)] / [k in d] / [d[k] = v] on the items of a dict. *)
Fixpoint dict_get (k : string) (d : list (string * value)) : option value :=
  match d with
  | [] => None
  | (k', v) :: d' => if String.eqb k k' then Some v else dict_get k d'
  end.

Definition dict_has (k : string) (d : list (string * value)) : bool :=
  match dict_get k d with Some _ => true | None => false end.

(** Assignment keeps the position of an existing key and appends a new
    one, as Python's insertion-ordered dicts do. *)
Fixpoint dict_set (k : string) (v : value) (d : list (string * value))
  : list (string * value) :=
  match d with
  | [] => [(k, v)]
  | (k', v') :: d' =>
      if String.eqb k k' then (k', v) :: d' else (k', v') :: dict_set k v d'
  end.

Definition is_dict (v : value) : bool :=
  match v with VDict _ => true | _ => false end.

Definition is_list (v : value) : bool :=
  match v with VList _ => true | _ => false end.

(** The keys of every dict inside a value are pairwise distinct. *)
Fixpoint wf_value (v : value) : Prop :=
  match v with
  | VList l => (fix all (l : list value) : Prop :=
                  match l with [] => True | x :: l' => wf_value x /\ all l' end) l
  | VDict d =>
      NoDup (map fst d) /\
      (fix all (d : list (string * value)) : Prop :=
         match d with [] => True | kv :: d' => wf_value (snd kv) /\ all d' end) d
  | _ => True
  end.

(** ** Exceptions, the world, and the monad of effectful code *)

Inductive exn : Type :=
| FileNotFoundError
| OSError
| JSONDecodeError
| AttributeError
| TypeError
| KeyError
| RecursionError
| PyException (msg : string).

Inductive outcome (A : Type) : Type :=
| Ret (a : A)
| Raise (e : exn).
Arguments Ret {A} a.
Arguments Raise {A} e.

(** Lines printed to stdout or stderr; the text of the exception that a
    message interpolates is left out. *)
Inductive event : Type :=
| WarnCorruptedJSON (filepath : string)
| WarnErrorLoading (filepath : string)
| WarnSaveRetry (attempt : nat)
| ErrorSaving (filepath : string) (max_retries : nat)
| ErrorMerging
| WarnCorruptedFile (filepath : string)
| WarnMissingSessionsKey (filepath : string)
| WarnSessionsNotList (filepath : string)
| WarnErrorLoadingFile (filepath : string)
| WarnConfigDefaults.

(** A path holds text, or something that cannot be opened and decoded
    (a directory, no permission, bytes that are not UTF-8); absent paths are
    not in the map. *)
Inductive file : Type :=
| Text (content : string)
| Unreadable.

(** [w_faults] says, for each coming attempt of [safe_save], whether its
    I/O fails before the rename; [w_ticks] counts the readings of the clock. *)
Record world : Type := World {
  w_files : gmap string file;
  w_out : list event;
  w_faults : list bool;
  w_ticks : nat
}.

Definition set_files (f : gmap string file) (w : world) : world :=
  World f (w_out w) (w_faults w) (w_ticks w).

Definition M (A : Type) : Type := world -> outcome A * world.

Definition ret {A} (a : A) : M A := fun w => (Ret a, w).

Definition raise {A} (e : exn) : M A := fun w => (Raise e, w).

Definition bind {A B} (m : M A) (k : A -> M B) : M B :=
  fun w => match m w with
           | (Ret a, w') => k a w'
           | (Raise e, w') => (Raise e, w')
           end.

(** [try: m except Exception as e: h e] *)
Definition catch {A} (m : M A) (h : exn -> M A) : M A :=
  fun w => match m w with
           | (Ret a, w') => (Ret a, w')
           | (Raise e, w') => h e w'
           end.

Definition lift {A} (o : outcome A) : M A := fun w => (o, w).

Definition print (e : event) : M unit :=
  fun w => (Ret tt, World (w_files w) (w_out w ++ [e]) (w_faults w) (w_ticks w)).

Declare Scope py_scope.
Delimit Scope py_scope with py.
Notation "x <- m ;; k" := (bind m (fun x => k))
  (at level 100, m at next level, right associativity) : py_scope.
Notation "m ;; k" := (bind m (fun _ => k))
  (at level 100, right associativity) : py_scope.
Local Open Scope py_scope.

(** ** The Python runtime the code relies on *)

Class PyRuntime : Type := {
  (** [json.loads]: the parsed value, [Raise JSONDecodeError] on malformed
      text, or another exception (such as [RecursionError]). *)
  json_loads : string -> outcome value;
  (** [json.dumps(data, indent=2, ensure_ascii=False)] *)
  json_dumps : value -> string;
  (** the builtin [hash] *)
  py_hash : value -> Z;
  (** the text [get_timestamp] returns at the n-th reading of the clock *)
  clock_reading : nat -> string
}.

(** ** json_handler.py *)

Section JsonHandler.
Context `{PyRuntime}.

(** [with open(filepath, 'r', encoding='utf-8') as f: f.read()] *)
Definition open_read (filepath : string) : M string :=
  fun w => match w_files w !! filepath with
           | None => (Raise FileNotFoundError, w)
           | Some Unreadable => (Raise OSError, w)
           | Some (Text content) => (Ret content, w)
           end.

(** [json.load(f)] on the opened file *)
Definition json_load (filepath : string) : M value :=
  content <- open_read filepath ;; lift (json_loads content).

(** [default if default is not None else {}] *)
Definition default_or_empty (default : value) : value :=
  match default with VNone => VDict [] | _ => default end.

Definition is_closer (c : ascii) : bool :=
  Ascii.eqb c "}" || Ascii.eqb c "]".

(** The loop [for i in range(len(content) - 1, -1, -1)] of
    [_attempt_repair], entered with [n = i + 1]. *)
Fixpoint repair_scan (content : string) (n : nat) : outcome value :=
  match n with
  | 0 => Raise (PyException "Unable to repair JSON")
  | S i =>
      match String.get i content with
      | Some c =>
          if is_closer c then
            match json_loads (String.substring 0 (i + 1) content) with
            | Raise JSONDecodeError => repair_scan content i
            | r => r
            end
          else repair_scan content i
      | None => repair_scan content i
      end
  end.

Definition _attempt_repair (filepath : string) : M value :=
  content <- open_read filepath ;;
  lift (repair_scan content (String.length content)).

Definition safe_load (filepath : string) (default : value) : M value :=
  catch (json_load filepath)
    (fun e =>
       match e with
       | FileNotFoundError => ret (default_or_empty default)
       | JSONDecodeError =>
           print (WarnCorruptedJSON filepath) ;;
           catch (_attempt_repair filepath)
             (fun _ => ret (default_or_empty default))
       | _ =>
           print (WarnErrorLoading filepath) ;;
           ret (default_or_empty default)
       end).

(** One pass through the body of the retry loop of [safe_save]. The I/O
    before the rename (mkdir, open, write, flush, fsync) either fails as a
    whole, as [w_faults] says, or leaves the temporary file written. *)
Definition io_step : M unit :=
  fun w => match w_faults w with
           | [] => (Ret tt, w)
           | fault :: rest =>
               let w' := World (w_files w) (w_out w) rest (w_ticks w) in
               if fault then (Raise OSError, w') else (Ret tt, w')
           end.

Definition write_file (filepath content : string) : M unit :=
  fun w => (Ret tt, set_files (<[filepath := Text content]> (w_files w)) w).

Definition remove_file (filepath : string) : M unit :=
  fun w => (Ret tt, set_files (delete filepath (w_files w)) w).

(** [shutil.move(src, dst)] *)
Definition move_file (src dst : string) : M unit :=
  fun w => match w_files w !! src with
           | Some f => (Ret tt, set_files (<[dst := f]> (delete src (w_files w))) w)
           | None => (Raise FileNotFoundError, w)
           end.

Definition save_attempt (filepath : string) (data : value) : M unit :=
  let temp_filepath := filepath +:+ ".tmp" in
  io_step ;;
  write_file temp_filepath (json_dumps data) ;;
  catch (_ <- json_load temp_filepath ;; ret tt)
    (fun e => match e with
              | JSONDecodeError => raise (PyException "Generated invalid JSON")
              | _ => raise e
              end) ;;
  move_file temp_filepath filepath.

(** [for attempt in range(max_retries)], with [remaining] iterations left. *)
Fixpoint save_loop (filepath : string) (data : value) (max_retries : nat)
  (attempt remaining : nat) : M bool :=
  match remaining with
  | 0 => ret false
  | S remaining' =>
      catch (save_attempt filepath data ;; ret true)
        (fun _ =>
           if attempt <? max_retries - 1 then
             print (WarnSaveRetry (attempt + 1)) ;;
             remove_file (filepath +:+ ".tmp") ;;
             save_loop filepath data max_retries (S attempt) remaining'
           else
             print (ErrorSaving filepath max_retries) ;;
             remove_file (filepath +:+ ".tmp") ;;
             ret false)
  end.

Definition safe_save (filepath : string) (data : value) (max_retries : nat)
  : M bool :=
  save_loop filepath data max_retries 0 max_retries.

(** [obj.get(key)] on a record; only a dict has the method. *)
Definition py_get (obj : value) (key : string) (default : value)
  : outcome value :=
  match obj with
  | VDict d => Ret (match dict_get key d with Some v => v | None => default end)
  | _ => Raise AttributeError
  end.

(** [lst.append(x)]; only a list has the method. *)
Definition py_append (lst x : value) : outcome value :=
  match lst with
  | VList l => Ret (VList (l ++ [x]))
  | _ => Raise AttributeError
  end.

(** [len(x)] *)
Definition py_len (x : value) : outcome Z :=
  match x with
  | VList l => Ret (Z.of_nat (length l))
  | VDict d => Ret (Z.of_nat (length d))
  | VStr s => Ret (Z.of_nat (String.length s))
  | _ => Raise TypeError
  end.

Definition empty_partition : value := VDict [("sessions", VList [])].

(** The body of the [try] of [merge_monthly]. [existing_data] is a dict from
    the second line on; appending to [existing_data["sessions"]] in place is
    the rebinding of that key. *)
Definition merge_monthly_body (session_record : value)
  (monthly_filepath : string) : M bool :=
  loaded <- safe_load monthly_filepath empty_partition ;;
  let existing_data :=
    match loaded with VDict d => d | _ => [("sessions", VList [])] end in
  let existing_data :=
    if dict_has "sessions" existing_data then existing_data
    else dict_set "sessions" (VList []) existing_data in
  let sessions :=
    match dict_get "sessions" existing_data with
    | Some s => s | None => VList [] end in
  sessions <- lift (py_append sessions session_record) ;;
  let existing_data := dict_set "sessions" sessions existing_data in
  count <- lift (py_len sessions) ;;
  let existing_data := dict_set "count" (VInt count) existing_data in
  last_updated <- lift (py_get session_record "timestamp" VNone) ;;
  let existing_data := dict_set "last_updated" last_updated existing_data in
  safe_save monthly_filepath (VDict existing_data) 3.

Definition merge_monthly (session_record : value) (monthly_filepath : string)
  : M bool :=
  catch (merge_monthly_body session_record monthly_filepath)
    (fun _ => print ErrorMerging ;; ret false).

End JsonHandler.

(** ** Regular expressions, matched the way [re] matches them

    A backtracking matcher in continuation-passing style: alternatives are
    tried in the order [re] tries them (a greedy repetition takes one more
    iteration first, a lazy one stops first), so the match found is the one
    [re] finds. Characters are code points below 256. *)

Inductive regex : Type :=
| Eps
| Chr (p : ascii -> bool)
| Seq (r1 r2 : regex)
| Alt (r1 r2 : regex)
| Rep (greedy : bool) (lo : nat) (hi : option nat) (r : regex)
| WordBoundary
| LineStart
| Group (r : regex).

(** The position of the matcher: the character before it, the text from it
    on, and the text of the capturing group once it has matched. *)
Record mstate : Type := MState {
  m_prev : option ascii;
  m_rest : list ascii;
  m_group : option (list ascii)
}.

Definition code (c : ascii) : N := N_of_ascii c.

Definition in_range (lo hi : N) (c : ascii) : bool :=
  (lo <=? code c)%N && (code c <=? hi)%N.

(** [\d], [\s] and [\w] of a [str] pattern, on code points below 256. *)
Definition is_digit (c : ascii) : bool := in_range 48 57 c.

Definition is_space (c : ascii) : bool :=
  in_range 9 13 c || in_range 28 32 c || (code c =? 133)%N || (code c =? 160)%N.

Definition is_word (c : ascii) : bool :=
  is_digit c || in_range 65 90 c || in_range 97 122 c || (code c =? 95)%N
  || (code c =? 170)%N || in_range 178 179 c || (code c =? 181)%N
  || in_range 185 186 c || in_range 188 190 c || in_range 192 214 c
  || in_range 216 246 c || in_range 248 255 c.

Definition ascii_lower (c : ascii) : ascii :=
  if in_range 65 90 c then ascii_of_N (code c + 32) else c.

Definition newline : ascii := "010"%char.
Definition dquote : ascii := "034"%char.
Definition squote : ascii := "039"%char.

Definition chars (s : string) : list ascii := String.list_ascii_of_string s.
Definition text (l : list ascii) : string := String.string_of_list_ascii l.

Definition prev_is_word (st : mstate) : bool :=
  match m_prev st with Some c => is_word c | None => false end.

Definition next_is_word (st : mstate) : bool :=
  match m_rest st with c :: _ => is_word c | [] => false end.

Definition below (hi : option nat) (n : nat) : bool :=
  match hi with Some h => n <? h | None => true end.

(** The repetition of a pattern, given the matcher [step] of its body:
    [n] iterations are done; one more is tried while [n] is below [hi], and
    the rest of the pattern [k] once [n] has reached [lo]. Beyond [lo] an
    iteration has to consume text. *)
Fixpoint iterate (step : mstate -> (mstate -> option mstate) -> option mstate)
  (greedy : bool) (lo : nat) (hi : option nat) (k : mstate -> option mstate)
  (fuel n : nat) (st : mstate) {struct fuel} : option mstate :=
  let more (_ : unit) :=
    match fuel with
    | 0 => None
    | S fuel' =>
        if below hi n then
          step st (fun st' =>
            if (length (m_rest st') <? length (m_rest st)) || (n <? lo)
            then iterate step greedy lo hi k fuel' (S n) st' else None)
        else None
    end in
  let stop (_ : unit) := if lo <=? n then k st else None in
  if greedy then
    match more tt with Some st' => Some st' | None => stop tt end
  else
    match stop tt with Some st' => Some st' | None => more tt end.

Fixpoint rmatch (r : regex) (st : mstate) (k : mstate -> option mstate)
  {struct r} : option mstate :=
  match r with
  | Eps => k st
  | Chr p =>
      match m_rest st with
      | c :: rest => if p c then k (MState (Some c) rest (m_group st)) else None
      | [] => None
      end
  | Seq r1 r2 => rmatch r1 st (fun st' => rmatch r2 st' k)
  | Alt r1 r2 =>
      match rmatch r1 st k with
      | Some st' => Some st'
      | None => rmatch r2 st k
      end
  | Rep greedy lo hi body =>
      iterate (rmatch body) greedy lo hi k (length (m_rest st) + lo) 0 st
  | WordBoundary =>
      if xorb (prev_is_word st) (next_is_word st) then k st else None
  | LineStart =>
      match m_prev st with
      | None => k st
      | Some c => if Ascii.eqb c newline then k st else None
      end
  | Group body =>
      rmatch body st (fun st' =>
        k (MState (m_prev st') (m_rest st')
             (Some (firstn (length (m_rest st) - length (m_rest st'))
                      (m_rest st)))))
  end.

(** [pattern.search] from a position: the text skipped before the match,
    the matched text, and the state after the match. With [must_advance] an
    empty match at the first position is refused. *)
Fixpoint search (r : regex) (prev : option ascii) (s : list ascii)
  (must_advance : bool) : option (list ascii * list ascii * mstate) :=
  match rmatch r (MState prev s None)
          (fun st => if must_advance && (length (m_rest st) =? length s)
                     then None else Some st) with
  | Some st => Some ([], firstn (length s - length (m_rest st)) s, st)
  | None =>
      match s with
      | [] => None
      | c :: s' =>
          match search r (Some c) s' false with
          | Some (skipped, matched, st) => Some (c :: skipped, matched, st)
          | None => None
          end
      end
  end.

(** The scan shared by [findall] and [sub]: the successive non-overlapping
    matches, each with the text between it and the previous one, and the
    text after the last match. After an empty match the next one must
    advance. *)
Fixpoint scan (fuel : nat) (r : regex) (prev : option ascii) (s : list ascii)
  (must_advance : bool) : list (list ascii * list ascii) * list ascii :=
  match fuel with
  | 0 => ([], s)
  | S fuel' =>
      match search r prev s must_advance with
      | None => ([], s)
      | Some (skipped, matched, st) =>
          let '(found, rest) :=
            scan fuel' r (m_prev st) (m_rest st)
              (match matched with [] => true | _ => false end) in
          ((skipped, matched) :: found, rest)
      end
  end.

Definition scan_all (r : regex) (s : string)
  : list (list ascii * list ascii) * list ascii :=
  scan (2 * String.length s + 2) r None (chars s) false.

(** [pattern.findall(s)], for a pattern without capturing groups *)
Definition findall (r : regex) (s : string) : list string :=
  map (fun m => text (snd m)) (fst (scan_all r s)).

(** [pattern.sub(replacement, s)], for a replacement without escapes *)
Definition sub (r : regex) (replacement s : string) : string :=
  let '(found, rest) := scan_all r s in
  text (concat (map (fun m => fst m ++ chars replacement) found) ++ rest).

(** [re.search(r, s)] and the text of its group 1 *)
Definition search_group (r : regex) (s : string) : option string :=
  match search r None (chars s) false with
  | Some (_, _, st) =>
      Some (match m_group st with Some g => text g | None => "" end)
  | None => None
  end.

(** Pattern syntax *)
Fixpoint lit_chars (cs : list ascii) : regex :=
  match cs with
  | [] => Eps
  | [c] => Chr (Ascii.eqb c)
  | c :: cs' => Seq (Chr (Ascii.eqb c)) (lit_chars cs')
  end.

Fixpoint liti_chars (cs : list ascii) : regex :=
  match cs with
  | [] => Eps
  | [c] => Chr (fun x => Ascii.eqb (ascii_lower x) (ascii_lower c))
  | c :: cs' =>
      Seq (Chr (fun x => Ascii.eqb (ascii_lower x) (ascii_lower c)))
        (liti_chars cs')
  end.

(** a literal, and a literal under [re.IGNORECASE] *)
Definition lit (s : string) : regex := lit_chars (chars s).
Definition liti (s : string) : regex := liti_chars (chars s).

Definition star (r : regex) : regex := Rep true 0 None r.
Definition plus (r : regex) : regex := Rep true 1 None r.
Definition opt (r : regex) : regex := Rep true 0 (Some 1) r.
Definition lazy_star (r : regex) : regex := Rep false 0 None r.
Definition any_char : regex := Chr (fun _ => true).

Fixpoint seqs (rs : list regex) : regex :=
  match rs with
  | [] => Eps
  | [r] => r
  | r :: rs' => Seq r (seqs rs')
  end.

(** ** redaction.py *)

(** [[A-Za-z0-9_-]] *)
Definition token_char (c : ascii) : bool :=
  in_range 65 90 c || in_range 97 122 c || is_digit c
  || Ascii.eqb c "_" || Ascii.eqb c "-".

(** [[_-]] *)
Definition joiner (c : ascii) : bool := Ascii.eqb c "_" || Ascii.eqb c "-".

(** the class of a quote, a double quote, [\s], a colon or an equals sign *)
Definition separator (c : ascii) : bool :=
  Ascii.eqb c squote || Ascii.eqb c dquote || is_space c
  || Ascii.eqb c ":" || Ascii.eqb c "=".

(** [[\w-]] *)
Definition word_or_dash (c : ascii) : bool := is_word c || Ascii.eqb c "-".

(** the negated class: anything but [\s], a quote, a double quote, a comma
    or a closing brace *)
Definition secret_char (c : ascii) : bool :=
  negb (is_space c || Ascii.eqb c squote || Ascii.eqb c dquote
        || Ascii.eqb c "," || Ascii.eqb c "}").

(** [name1[_-]?name2], one or more separators, then [[\w-]+], under
    [re.IGNORECASE] *)
Definition key_value (name1 name2 : string) : regex :=
  seqs [liti name1; opt (Chr joiner); liti name2;
        plus (Chr separator); plus (Chr word_or_dash)].

(** [-----BEGIN\s+(?:RSA\s+)?PRIVATE\s+KEY-----] and its [END] twin *)
Definition pem_line (word : string) : regex :=
  seqs [lit "-----"; lit word; plus (Chr is_space);
        opt (Seq (lit "RSA") (plus (Chr is_space)));
        lit "PRIVATE"; plus (Chr is_space); lit "KEY-----"].

Definition DEFAULT_PATTERNS : list (regex * string) :=
  [ (seqs [WordBoundary; Rep true 20 None (Chr token_char); WordBoundary],
     "[REDACTED_TOKEN]");
    (key_value "api" "key", "api_key=[REDACTED]");
    (key_value "access" "token", "access_token=[REDACTED]");
    (key_value "secret" "key", "secret_key=[REDACTED]");
    (key_value "auth" "token", "auth_token=[REDACTED]");
    (seqs [liti "password"; plus (Chr separator); plus (Chr secret_char)],
     "password=[REDACTED]");
    (seqs [liti "passwd"; plus (Chr separator); plus (Chr secret_char)],
     "passwd=[REDACTED]");
    (seqs [liti "credential"; opt (liti "s"); plus (Chr separator);
           plus (Chr secret_char)],
     "credentials=[REDACTED]");
    (seqs [liti "Bearer"; plus (Chr is_space); plus (Chr word_or_dash)],
     "Bearer [REDACTED]");
    (seqs [pem_line "BEGIN"; lazy_star any_char; pem_line "END"],
     "[REDACTED_PRIVATE_KEY]") ].

(** One turn of the loop of [redact_sensitive]. *)
Definition redact_step (acc : string * nat) (p : regex * string) : string * nat :=
  let '(redacted_text, redaction_count) := acc in
  let matches := findall (fst p) redacted_text in
  match matches with
  | [] => (redacted_text, redaction_count)
  | _ => (sub (fst p) (snd p) redacted_text, redaction_count + length matches)
  end.

Definition redact_sensitive (text : string)
  (patterns : option (list (regex * string))) : string * nat :=
  let patterns :=
    match patterns with Some ps => ps | None => DEFAULT_PATTERNS end in
  fold_left redact_step patterns (text, 0).

Fixpoint detect_and_redact (data : value)
  (patterns : option (list (regex * string))) {struct data} : value * nat :=
  match data with
  | VStr s =>
      let '(redacted, count) := redact_sensitive s patterns in
      (VStr redacted, count)
  | VDict items =>
      let '(redacted_dict, total_count) :=
        fold_left
          (fun acc kv =>
             let '(redacted_value, count) :=
               detect_and_redact (snd kv) patterns in
             (dict_set (fst kv) redacted_value (fst acc), snd acc + count))
          items ([], 0) in
      (VDict redacted_dict, total_count)
  | VList items =>
      let '(redacted_list, total_count) :=
        fold_left
          (fun acc item =>
             let '(redacted_item, count) := detect_and_redact item patterns in
             (fst acc ++ [redacted_item], snd acc + count))
          items ([], 0) in
      (VList redacted_list, total_count)
  | _ => (data, 0)
  end.

(** ** config.py *)

Record PMSConfig : Type := {
  trigger_precompact : bool;
  trigger_session_end : bool;
  trigger_stop : bool;
  continuous_mode : bool;
  auto_synthesize : bool;
  min_sessions : Z;
  emerging_pattern : Z;
  strong_pattern : Z;
  critical_pattern : Z;
  prefer_context : bool;
  fallback_jsonl : bool;
  redact_sensitive_flag : bool;
  custom_redaction_patterns : list string;
  timeout_encode : Z;
  timeout_extract : Z;
  timeout_synthesize : Z
}.

Definition get_default_config : PMSConfig := {|
  trigger_precompact := true;
  trigger_session_end := true;
  trigger_stop := false;
  continuous_mode := true;
  auto_synthesize := false;
  min_sessions := 10;
  emerging_pattern := 2;
  strong_pattern := 3;
  critical_pattern := 5;
  prefer_context := true;
  fallback_jsonl := true;
  redact_sensitive_flag := true;
  custom_redaction_patterns := [];
  timeout_encode := 30;
  timeout_extract := 60;
  timeout_synthesize := 45
|}.

(** [str.lower] on code points below 256 *)
Definition py_lower_char (c : ascii) : ascii :=
  if in_range 65 90 c || (in_range 192 222 c && negb (code c =? 215)%N)
  then ascii_of_N (code c + 32) else c.

Definition py_lower (s : string) : string := text (map py_lower_char (chars s)).

Definition str_in (s : string) (l : list string) : bool :=
  existsb (String.eqb s) l.

(** [int(s)] on a run of decimal digits *)
Definition int_of_digits (s : string) : Z :=
  fold_left (fun acc c => (10 * acc + Z.of_N (code c - 48))%Z) (chars s) 0%Z.

(** [rf'^\s*{key}:\s*(\w+)'] and [rf'^\s*{key}:\s*(\d+)'] under
    [re.MULTILINE] *)
Definition key_line (key : string) (p : ascii -> bool) : regex :=
  seqs [LineStart; star (Chr is_space); lit key; lit ":";
        star (Chr is_space); Group (plus (Chr p))].

Definition _parse_bool (yaml_content key : string) (default : bool) : bool :=
  match search_group (key_line key is_word) yaml_content with
  | Some g =>
      let value := py_lower g in
      if str_in value ["true"; "yes"; "on"; "1"] then true
      else if str_in value ["false"; "no"; "off"; "0"] then false
      else default
  | None => default
  end.

(** [sys.int_info.default_max_str_digits]: [int] of a longer run of digits
    raises [ValueError], which [_parse_int] answers with the default. *)
Definition int_max_str_digits : nat := 4300.

Definition _parse_int (yaml_content key : string) (default min_val max_val : Z)
  : Z :=
  match search_group (key_line key is_digit) yaml_content with
  | Some g =>
      if int_max_str_digits <? String.length g then default
      else Z.max min_val (Z.min (int_of_digits g) max_val)
  | None => default
  end.

(** [r'^---\s*\n(.*?)\n---'] under [re.DOTALL | re.MULTILINE] *)
Definition frontmatter : regex :=
  seqs [LineStart; lit "---"; star (Chr is_space); Chr (Ascii.eqb newline);
        Group (lazy_star any_char); Chr (Ascii.eqb newline); lit "---"].

Definition config_path (project_path : string) : string :=
  project_path +:+ "/.claude/pms.local.md".

Definition parse_config (yaml_content : string) : PMSConfig := {|
  trigger_precompact := _parse_bool yaml_content "precompact" true;
  trigger_session_end := _parse_bool yaml_content "session_end" true;
  trigger_stop := _parse_bool yaml_content "stop" false;
  continuous_mode := _parse_bool yaml_content "continuous_mode" true;
  auto_synthesize := _parse_bool yaml_content "auto_synthesize" false;
  min_sessions := _parse_int yaml_content "min_sessions" 10 1 1000;
  emerging_pattern := _parse_int yaml_content "emerging_pattern" 2 1 100;
  strong_pattern := _parse_int yaml_content "strong_pattern" 3 1 100;
  critical_pattern := _parse_int yaml_content "critical_pattern" 5 1 100;
  prefer_context := _parse_bool yaml_content "prefer_context" true;
  fallback_jsonl := _parse_bool yaml_content "fallback_jsonl" true;
  redact_sensitive_flag := _parse_bool yaml_content "redact_sensitive" true;
  custom_redaction_patterns := [];
  timeout_encode := _parse_int yaml_content "encode" 30 5 300;
  timeout_extract := _parse_int yaml_content "extract" 60 5 600;
  timeout_synthesize := _parse_int yaml_content "synthesize" 45 5 300
|}.

(** [config_file.exists()] *)
Definition path_exists (filepath : string) : M bool :=
  fun w => (Ret (match w_files w !! filepath with Some _ => true | None => false end), w).

Definition load_config (project_path : string) : M PMSConfig :=
  let config_file := config_path project_path in
  present <- path_exists config_file ;;
  if negb present then ret get_default_config
  else
    catch
      (content <- open_read config_file ;;
       match search_group frontmatter content with
       | None => ret get_default_config
       | Some yaml_content => ret (parse_config yaml_content)
       end)
      (fun _ => print WarnConfigDefaults ;; ret get_default_config).

Definition validate_config (config : PMSConfig) : bool :=
  if negb ((emerging_pattern config <=? strong_pattern config)%Z
           && (strong_pattern config <=? critical_pattern config)%Z)
  then false
  else if (timeout_encode config <? 5)%Z || (300 <? timeout_encode config)%Z
  then false
  else if (timeout_extract config <? 5)%Z || (600 <? timeout_extract config)%Z
  then false
  else if (timeout_synthesize config <? 5)%Z
          || (300 <? timeout_synthesize config)%Z
  then false
  else if (min_sessions config <? 1)%Z || (1000 <? min_sessions config)%Z
  then false
  else true.

(** Text made of lines, each ended by a newline. *)
Definition unlines (ls : list string) : string :=
  text (concat (map (fun l => chars l ++ [newline]) ls)).

(** ** extract.py *)

(** Computations that may raise but touch no state. *)
Definition obind {A B} (o : outcome A) (k : A -> outcome B) : outcome B :=
  match o with
  | Ret a => k a
  | Raise e => Raise e
  end.

Notation "x <~ o ;; k" := (obind o (fun x => k))
  (at level 100, o at next level, right associativity) : py_scope.

Fixpoint is_prefix (p s : list ascii) : bool :=
  match p, s with
  | [], _ => true
  | _ :: _, [] => false
  | a :: p', b :: s' => Ascii.eqb a b && is_prefix p' s'
  end.

Fixpoint is_infix (p s : list ascii) : bool :=
  is_prefix p s || match s with [] => false | _ :: s' => is_infix p s' end.

(** [item in container], for an item that is a str *)
Definition py_contains (item : string) (container : value) : outcome bool :=
  match container with
  | VDict d => Ret (dict_has item d)
  | VList l =>
      Ret (existsb (fun x => match x with
                             | VStr s => String.eqb s item
                             | _ => false
                             end) l)
  | VStr s => Ret (is_infix (chars item) (chars s))
  | _ => Raise TypeError
  end.

(** [container[key]], for a key that is a str *)
Definition py_getitem (container : value) (key : string) : outcome value :=
  match container with
  | VDict d =>
      match dict_get key d with
      | Some v => Ret v
      | None => Raise KeyError
      end
  | _ => Raise TypeError
  end.

(** [for x in v] *)
Definition py_iter (v : value) : outcome (list value) :=
  match v with
  | VList l => Ret l
  | VDict d => Ret (map (fun kv => VStr (fst kv)) d)
  | VStr s => Ret (map (fun c => VStr (String c EmptyString)) (chars s))
  | _ => Raise TypeError
  end.

(** Values that can be the key of a dict, and [==] on them ([True == 1]). *)
Definition hashable (v : value) : bool :=
  match v with
  | VList _ | VDict _ => false
  | _ => true
  end.

Definition key_eqb (a b : value) : bool :=
  match a, b with
  | VNone, VNone => true
  | VStr s, VStr t => String.eqb s t
  | VBool x, VBool y => Bool.eqb x y
  | VInt x, VInt y => Z.eqb x y
  | VBool x, VInt y => Z.eqb (Z.b2z x) y
  | VInt x, VBool y => Z.eqb x (Z.b2z y)
  | _, _ => false
  end.

(** The [defaultdict(list)] from a description to its evidence, in
    insertion order. *)
Definition evidence_map : Type := list (value * list value).

Fixpoint evidence_get (key : value) (m : evidence_map) : option (list value) :=
  match m with
  | [] => None
  | (k, ev) :: m' => if key_eqb key k then Some ev else evidence_get key m'
  end.

(** [m[key].append(session_id)] *)
Fixpoint evidence_add (key session_id : value) (m : evidence_map)
  : evidence_map :=
  match m with
  | [] => [(key, [session_id])]
  | (k, ev) :: m' =>
      if key_eqb key k then (k, ev ++ [session_id]) :: m'
      else (k, ev) :: evidence_add key session_id m'
  end.

(** The body of the inner loop: a str is its own description, a dict
    contributes its [description], anything else is skipped. *)
Definition note_annotation (session_id : value) (m : evidence_map)
  (annotation : value) : outcome evidence_map :=
  match annotation with
  | VStr _ => Ret (evidence_add annotation session_id m)
  | VDict d =>
      match dict_get "description" d with
      | Some description =>
          if hashable description
          then Ret (evidence_add description session_id m)
          else Raise TypeError
      | None => Ret m
      end
  | _ => Ret m
  end.

Fixpoint note_annotations (session_id : value) (m : evidence_map)
  (annotations : list value) : outcome evidence_map :=
  match annotations with
  | [] => Ret m
  | a :: rest =>
      m' <~ note_annotation session_id m a ;;
      note_annotations session_id m' rest
  end.

(** The loop over the sessions that [extract_user_preferences],
    [extract_code_patterns] and [extract_anti_patterns] each spell out for
    their own field. *)
Fixpoint extract_field (field : string) (sessions : list value)
  (m : evidence_map) : outcome evidence_map :=
  match sessions with
  | [] => Ret m
  | session :: rest =>
      session_id <~ py_get session "session_id" (VStr "unknown") ;;
      present <~ py_contains field session ;;
      if present then
        annotations <~ py_getitem session field ;;
        items <~ py_iter annotations ;;
        m' <~ note_annotations session_id m items ;;
        extract_field field rest m'
      else extract_field field rest m
  end.

Definition extract_user_preferences (sessions : list value)
  : outcome evidence_map :=
  extract_field "user_preferences" sessions [].

Definition extract_code_patterns (sessions : list value)
  : outcome evidence_map :=
  extract_field "code_patterns" sessions [].

Definition extract_anti_patterns (sessions : list value)
  : outcome evidence_map :=
  extract_field "anti_patterns" sessions [].

Definition categorize_strength (occurrences emerging strong critical : Z)
  : string :=
  if (critical <=? occurrences)%Z then "critical"
  else if (strong <=? occurrences)%Z then "strong"
  else if (emerging <=? occurrences)%Z then "emerging"
  else "weak".

(** The order weak < emerging < strong < critical. *)
Definition strength_rank (s : string) : nat :=
  if String.eqb s "critical" then 3
  else if String.eqb s "strong" then 2
  else if String.eqb s "emerging" then 1
  else 0.

Record pattern : Type := {
  pattern_id : string;
  description : value;
  category : string;
  strength : string;
  occurrences : Z;
  evidence : list value;
  detected_at : string
}.

Section Extract.
Context `{PyRuntime}.

Definition get_timestamp : M string :=
  fun w => (Ret (clock_reading (w_ticks w)),
            World (w_files w) (w_out w) (w_faults w) (S (w_ticks w))).

(** [f"{prefix}_{hash(description) % 1000000}"] *)
Definition make_pattern_id (prefix : string) (description : value) : string :=
  prefix +:+ "_" +:+ pretty (py_hash description mod 1000000)%Z.

(** One of the three loops of [detect_frequency_patterns] over the items of
    an evidence map; they differ in the prefix of the id and the category. *)
Fixpoint emit_patterns (prefix category : string) (items : evidence_map)
  (emerging_threshold strong_threshold critical_threshold : Z)
  (patterns : list pattern) : M (list pattern) :=
  match items with
  | [] => ret patterns
  | (description, evidence) :: rest =>
      let occurrences := Z.of_nat (length evidence) in
      if (emerging_threshold <=? occurrences)%Z then
        let strength :=
          categorize_strength occurrences emerging_threshold strong_threshold
            critical_threshold in
        timestamp <- get_timestamp ;;
        emit_patterns prefix category rest emerging_threshold strong_threshold
          critical_threshold
          (patterns ++ [ {| pattern_id := make_pattern_id prefix description;
                            description := description;
                            category := category;
                            strength := strength;
                            occurrences := occurrences;
                            evidence := firstn 10 evidence;
                            detected_at := timestamp |} ])
      else
        emit_patterns prefix category rest emerging_threshold strong_threshold
          critical_threshold patterns
  end.

Definition detect_frequency_patterns (sessions : list value)
  (emerging_threshold strong_threshold critical_threshold : Z)
  : M (list pattern) :=
  preferences <- lift (extract_user_preferences sessions) ;;
  patterns <- emit_patterns "pref" "preference" preferences
                emerging_threshold strong_threshold critical_threshold [] ;;
  code_patterns_data <- lift (extract_code_patterns sessions) ;;
  patterns <- emit_patterns "code" "code_pattern" code_patterns_data
                emerging_threshold strong_threshold critical_threshold
                patterns ;;
  anti_patterns_data <- lift (extract_anti_patterns sessions) ;;
  emit_patterns "anti" "anti_pattern" anti_patterns_data
    emerging_threshold strong_threshold critical_threshold patterns.

(** The try block of one turn of the loop of [load_all_sessions]. *)
Definition load_partition (monthly_file : string) (all_sessions : list value)
  (corrupted_files : list string) : M (list value * list string) :=
  catch
    (data <- safe_load monthly_file VNone ;;
     match data with
     | VNone =>
         print (WarnCorruptedFile monthly_file) ;;
         ret (all_sessions, corrupted_files ++ [monthly_file])
     | _ =>
         present <- lift (py_contains "sessions" data) ;;
         if negb present then
           print (WarnMissingSessionsKey monthly_file) ;;
           ret (all_sessions, corrupted_files ++ [monthly_file])
         else
           sessions <- lift (py_getitem data "sessions") ;;
           match sessions with
           | VList l => ret (all_sessions ++ l, corrupted_files)
           | _ =>
               print (WarnSessionsNotList monthly_file) ;;
               ret (all_sessions, corrupted_files ++ [monthly_file])
           end
     end)
    (fun _ =>
       print (WarnErrorLoadingFile monthly_file) ;;
       ret (all_sessions, corrupted_files ++ [monthly_file])).

Fixpoint load_all_loop (monthly_files : list string) (all_sessions : list value)
  (corrupted_files : list string) : M (list value * list string) :=
  match monthly_files with
  | [] => ret (all_sessions, corrupted_files)
  | monthly_file :: rest =>
      r <- load_partition monthly_file all_sessions corrupted_files ;;
      load_all_loop rest (fst r) (snd r)
  end.

(** [sorted(episodic_dir.glob("sessions-*.json"))]: the paths
    [episodic_dir/sessions-*.json], in the order of their names. *)
Definition is_partition_path (episodic_dir path : string) : bool :=
  let dir := chars episodic_dir ++ chars "/" in
  let name := drop (length dir) (chars path) in
  is_prefix dir (chars path)
  && is_prefix (chars "sessions-") name
  && is_prefix (rev (chars ".json")) (rev name)
  && (14 <=? length name)
  && negb (existsb (Ascii.eqb "/") name).

Fixpoint insert_sorted (p : string) (l : list string) : list string :=
  match l with
  | [] => [p]
  | q :: l' => if String.leb p q then p :: l else q :: insert_sorted p l'
  end.

Definition sorted_paths (l : list string) : list string :=
  fold_right insert_sorted [] l.

Definition glob_sessions (episodic_dir : string) : M (list string) :=
  fun w =>
    (Ret (sorted_paths
            (filter (fun p => is_partition_path episodic_dir p = true)
               (map fst (map_to_list (w_files w))))), w).

Definition load_all_sessions (episodic_dir : string)
  : M (list value * list string) :=
  monthly_files <- glob_sessions episodic_dir ;;
  load_all_loop monthly_files [] [].

End Extract.

(** ** A reference runtime

    [json.dumps(indent=2, ensure_ascii=False)] in full for [value], and
    [json.loads] for JSON text without fractions, exponents, [NaN],
    [Infinity] and [\u] escapes above 255, on which it answers as
    CPython does; text outside that fragment is refused with a
    [PyException]. The concrete runs below stay inside the fragment. *)

Module Reference.

Definition backslash : ascii := "\"%char.

Definition hex_digit (n : N) : ascii :=
  if (n <? 10)%N then ascii_of_N (48 + n) else ascii_of_N (87 + n).

Definition escape_char (c : ascii) : list ascii :=
  if Ascii.eqb c dquote then [backslash; dquote]
  else if Ascii.eqb c backslash then [backslash; backslash]
  else if (code c =? 10)%N then [backslash; "n"%char]
  else if (code c =? 13)%N then [backslash; "r"%char]
  else if (code c =? 9)%N then [backslash; "t"%char]
  else if (code c =? 8)%N then [backslash; "b"%char]
  else if (code c =? 12)%N then [backslash; "f"%char]
  else if (code c <? 32)%N then
    [backslash; "u"%char; "0"%char; "0"%char;
     hex_digit (code c / 16); hex_digit (code c mod 16)]
  else [c].

Definition quoted (s : string) : list ascii :=
  dquote :: concat (map escape_char (chars s)) ++ [dquote].

Fixpoint join (sep : list ascii) (parts : list (list ascii)) : list ascii :=
  match parts with
  | [] => []
  | [p] => p
  | p :: rest => p ++ sep ++ join sep rest
  end.

Definition indent (level : nat) : list ascii := repeat " "%char (2 * level).

Fixpoint dumps_at (level : nat) (v : value) {struct v} : list ascii :=
  match v with
  | VNone => chars "null"
  | VBool true => chars "true"
  | VBool false => chars "false"
  | VInt z => chars (pretty z)
  | VStr s => quoted s
  | VList [] => chars "[]"
  | VList items =>
      chars "[" ++ newline :: indent (S level)
      ++ join (chars "," ++ newline :: indent (S level))
           (map (dumps_at (S level)) items)
      ++ newline :: indent level ++ chars "]"
  | VDict [] => chars "{}"
  | VDict items =>
      chars "{" ++ newline :: indent (S level)
      ++ join (chars "," ++ newline :: indent (S level))
           (map (fun kv => quoted (fst kv) ++ chars ": "
                           ++ dumps_at (S level) (snd kv)) items)
      ++ newline :: indent level ++ chars "}"
  end.

Definition dumps (v : value) : string := text (dumps_at 0 v).

Inductive presult (A : Type) : Type :=
| POk (a : A) (rest : list ascii)
| PErr
| PUnsupported.
Arguments POk {A} a rest.
Arguments PErr {A}.
Arguments PUnsupported {A}.

Definition is_json_space (c : ascii) : bool :=
  Ascii.eqb c " " || (code c =? 9)%N || (code c =? 10)%N || (code c =? 13)%N.

Fixpoint skip_ws (s : list ascii) : list ascii :=
  match s with
  | c :: s' => if is_json_space c then skip_ws s' else s
  | [] => []
  end.

Definition hex_value (c : ascii) : option N :=
  if is_digit c then Some (code c - 48)%N
  else if in_range 97 102 c then Some (code c - 87)%N
  else if in_range 65 70 c then Some (code c - 55)%N
  else None.

Definition unescape (c : ascii) : option ascii :=
  if Ascii.eqb c dquote then Some dquote
  else if Ascii.eqb c backslash then Some backslash
  else if Ascii.eqb c "/" then Some "/"%char
  else if Ascii.eqb c "b" then Some (ascii_of_N 8)
  else if Ascii.eqb c "f" then Some (ascii_of_N 12)
  else if Ascii.eqb c "n" then Some (ascii_of_N 10)
  else if Ascii.eqb c "r" then Some (ascii_of_N 13)
  else if Ascii.eqb c "t" then Some (ascii_of_N 9)
  else None.

(** The text of a string literal, from the character after its opening
    double quote. *)
Fixpoint scan_string (s : list ascii) (acc : list ascii) : presult string :=
  match s with
  | [] => PErr
  | c :: s' =>
      if Ascii.eqb c dquote then POk (text (rev acc)) s'
      else if Ascii.eqb c backslash then
        match s' with
        | [] => PErr
        | e :: s'' =>
            if Ascii.eqb e "u" then
              match s'' with
              | h1 :: h2 :: h3 :: h4 :: s3 =>
                  match hex_value h1, hex_value h2, hex_value h3, hex_value h4 with
                  | Some a, Some b, Some c3, Some d =>
                      if ((a =? 0) && (b =? 0))%N
                      then scan_string s3 (ascii_of_N (16 * c3 + d) :: acc)
                      else PUnsupported
                  | _, _, _, _ => PErr
                  end
              | _ => PErr
              end
            else
              match unescape e with
              | Some x => scan_string s'' (x :: acc)
              | None => PErr
              end
        end
      else if (code c <? 32)%N then PErr
      else scan_string s' (c :: acc)
  end.

Fixpoint take_digits (s : list ascii) : list ascii * list ascii :=
  match s with
  | c :: s' =>
      if is_digit c then let '(ds, rest) := take_digits s' in (c :: ds, rest)
      else ([], s)
  | [] => ([], [])
  end.

(** The integer part of a number (an optional minus sign, then a zero or a
    run of digits that does not start with zero), refusing what goes on as
    a fraction or an exponent. *)
Definition scan_number (s : list ascii) : presult value :=
  let '(negative, body) :=
    match s with
    | c :: s' => if Ascii.eqb c "-" then (true, s') else (false, s)
    | [] => (false, s)
    end in
  match body with
  | d :: body' =>
      if is_digit d then
        let '(ds, rest) :=
          if Ascii.eqb d "0" then ([d], body') else take_digits body in
        let magnitude := int_of_digits (text ds) in
        let continues :=
          match rest with
          | c1 :: c2 :: _ =>
              (Ascii.eqb c1 "." && is_digit c2)
              || ((Ascii.eqb c1 "e" || Ascii.eqb c1 "E")
                  && (is_digit c2 || Ascii.eqb c2 "+" || Ascii.eqb c2 "-"))
          | _ => false
          end in
        if continues then PUnsupported
        else POk (VInt (if negative then - magnitude else magnitude)%Z) rest
      else if negative && Ascii.eqb d "I" then PUnsupported
      else PErr
  | [] => PErr
  end.

Fixpoint parse_value (fuel : nat) (s : list ascii) {struct fuel}
  : presult value :=
  match fuel with
  | 0 => PUnsupported
  | S fuel' =>
      match s with
      | [] => PErr
      | c :: s' =>
          if Ascii.eqb c dquote then
            match scan_string s' [] with
            | POk str rest => POk (VStr str) rest
            | PErr => PErr
            | PUnsupported => PUnsupported
            end
          else if Ascii.eqb c "{" then
            match skip_ws s' with
            | c1 :: rest =>
                if Ascii.eqb c1 "}" then POk (VDict []) rest
                else parse_members fuel' (c1 :: rest) []
            | [] => PErr
            end
          else if Ascii.eqb c "[" then
            match skip_ws s' with
            | c1 :: rest =>
                if Ascii.eqb c1 "]" then POk (VList []) rest
                else parse_elements fuel' (c1 :: rest) []
            | [] => PErr
            end
          else if is_prefix (chars "null") s then POk VNone (drop 4 s)
          else if is_prefix (chars "true") s then POk (VBool true) (drop 4 s)
          else if is_prefix (chars "false") s then POk (VBool false) (drop 5 s)
          else if is_prefix (chars "NaN") s then PUnsupported
          else if is_prefix (chars "Infinity") s then PUnsupported
          else scan_number s
      end
  end
with parse_elements (fuel : nat) (s : list ascii) (acc : list value)
  {struct fuel} : presult value :=
  match fuel with
  | 0 => PUnsupported
  | S fuel' =>
      match parse_value fuel' s with
      | POk v rest =>
          match skip_ws rest with
          | c :: rest' =>
              if Ascii.eqb c "]" then POk (VList (acc ++ [v])) rest'
              else if Ascii.eqb c "," then
                parse_elements fuel' (skip_ws rest') (acc ++ [v])
              else PErr
          | [] => PErr
          end
      | PErr => PErr
      | PUnsupported => PUnsupported
      end
  end
with parse_members (fuel : nat) (s : list ascii) (acc : list (string * value))
  {struct fuel} : presult value :=
  match fuel with
  | 0 => PUnsupported
  | S fuel' =>
      match s with
      | q :: s' =>
          if Ascii.eqb q dquote then
            match scan_string s' [] with
            | POk key rest =>
                match skip_ws rest with
                | colon :: rest1 =>
                    if Ascii.eqb colon ":" then
                      match parse_value fuel' (skip_ws rest1) with
                      | POk v rest2 =>
                          match skip_ws rest2 with
                          | c :: rest3 =>
                              if Ascii.eqb c "}" then
                                POk (VDict (dict_set key v acc)) rest3
                              else if Ascii.eqb c "," then
                                parse_members fuel' (skip_ws rest3)
                                  (dict_set key v acc)
                              else PErr
                          | [] => PErr
                          end
                      | PErr => PErr
                      | PUnsupported => PUnsupported
                      end
                    else PErr
                | [] => PErr
                end
            | PErr => PErr
            | PUnsupported => PUnsupported
            end
          else PErr
      | [] => PErr
      end
  end.

Definition loads (s : string) : outcome value :=
  match parse_value (2 * String.length s + 2) (skip_ws (chars s)) with
  | POk v rest =>
      match skip_ws rest with
      | [] => Ret v
      | _ :: _ => Raise JSONDecodeError
      end
  | PErr => Raise JSONDecodeError
  | PUnsupported => Raise (PyException "outside the modelled JSON fragment")
  end.

(** [hash] is fixed to a polynomial in the characters for a str and to the
    integer for an int; the clock reads the same instant every time. *)
Definition hash (v : value) : Z :=
  match v with
  | VStr s => fold_left (fun h c => (31 * h + Z.of_N (code c))%Z) (chars s) 7%Z
  | VInt z => z
  | VBool b => Z.b2z b
  | _ => 0%Z
  end.

End Reference.

#[export] Instance reference_runtime : PyRuntime := {|
  json_loads := Reference.loads;
  json_dumps := Reference.dumps;
  py_hash := Reference.hash;
  clock_reading := fun _ => "2025-12-31T10:00:00Z"
|}.

(** ** Vocabulary of the statements *)

(** The length of the text the matcher has still to read. *)
Definition remaining (st : mstate) : nat := length (m_rest st).

Section Vocabulary.
Context `{PyRuntime}.

(** What a load of a path yields: the parsed document, the longest prefix
    ending in a closing brace or bracket that parses when the whole text
    does not, and otherwise the default (an empty dict for [None]). *)
Definition loaded_value (f : option file) (default : value) : value :=
  match f with
  | Some (Text content) =>
      match json_loads content with
      | Ret v => v
      | Raise JSONDecodeError =>
          match repair_scan content (String.length content) with
          | Ret v => v
          | Raise _ => default_or_empty default
          end
      | Raise _ => default_or_empty default
      end
  | _ => default_or_empty default
  end.

(** What a load of a path prints. *)
Definition load_warnings (filepath : string) (f : option file) : list event :=
  match f with
  | None => []
  | Some Unreadable => [WarnErrorLoading filepath]
  | Some (Text content) =>
      match json_loads content with
      | Ret _ | Raise FileNotFoundError => []
      | Raise JSONDecodeError => [WarnCorruptedJSON filepath]
      | Raise _ => [WarnErrorLoading filepath]
      end
  end.

(** The world after a load of a path: only the warnings are added. *)
Definition after_load (filepath : string) (w : world) : world :=
  World (w_files w)
    (w_out w ++ load_warnings filepath (w_files w !! filepath))
    (w_faults w) (w_ticks w).

(** The document [load_all_sessions] gets for a partition path. *)
Definition partition_doc (files : gmap string file) (path : string) : value :=
  loaded_value (files !! path) VNone.

(** The patterns one loop of [detect_frequency_patterns] adds for the items
    of an evidence map, the clock having been read [tick] times before. *)
Fixpoint emitted (prefix category : string) (items : evidence_map)
  (emerging_threshold strong_threshold critical_threshold : Z) (tick : nat)
  : list pattern :=
  match items with
  | [] => []
  | (description, evidence) :: rest =>
      let occurrences := Z.of_nat (length evidence) in
      if (emerging_threshold <=? occurrences)%Z then
        {| pattern_id := make_pattern_id prefix description;
           description := description;
           category := category;
           strength := categorize_strength occurrences emerging_threshold
                         strong_threshold critical_threshold;
           occurrences := occurrences;
           evidence := firstn 10 evidence;
           detected_at := clock_reading tick |}
        :: emitted prefix category rest emerging_threshold strong_threshold
             critical_threshold (S tick)
      else
        emitted prefix category rest emerging_threshold strong_threshold
          critical_threshold tick
  end.

(** A closing brace or bracket stands at index [i] of the text. *)
Definition closer_at (content : string) (i : nat) : Prop :=
  exists c, String.get i content = Some c /\ is_closer c = true.

(** The prefix of the text up to and including index [i]. *)
Definition prefix_to (content : string) (i : nat) : string :=
  String.substring 0 (i + 1) content.

End Vocabulary.

(** The sessions of a partition document: those of a mapping whose
    [sessions] is a sequence. *)
Definition partition_sessions (doc : value) : option (list value) :=
  match doc with
  | VDict d =>
      match dict_get "sessions" d with
      | Some (VList l) => Some l
      | _ => None
      end
  | _ => None
  end.

(** The sessions already in a loaded partition document. *)
Definition prior_sessions (doc : value) : list value :=
  match partition_sessions doc with Some l => l | None => [] end.

(** [session_record.get("timestamp")] of a mapping *)
Definition timestamp_of (session_record : value) : value :=
  match session_record with
  | VDict d =>
      match dict_get "timestamp" d with
      | Some t => t
      | None => VNone
      end
  | _ => VNone
  end.

(** A partition started over: the fields kept from the loaded document,
    with the episode as the only session, the count one and the date of
    the episode. *)
Definition restarted_partition (kept : list (string * value))
  (session_record : value) : value :=
  VDict (dict_set "last_updated" (timestamp_of session_record)
           (dict_set "count" (VInt 1)
              (dict_set "sessions" (VList [session_record]) kept))).

Definition is_valid_partition (doc : value) : bool :=
  match partition_sessions doc with Some _ => true | None => false end.

(** The patterns [redact_sensitive] works with: the given ones, or the
    built-in ones for [None]. *)
Definition active_patterns (patterns : option (list (regex * string)))
  : list (regex * string) :=
  match patterns with Some ps => ps | None => DEFAULT_PATTERNS end.

(** The shape of a value: its type, the keys of a mapping in order, the
    length of a sequence, and the shapes inside. *)
Unset Elimination Schemes.
Inductive shape : Type :=
| SNone | SBool | SInt | SStr
| SList (items : list shape)
| SDict (items : list (string * shape)).
Set Elimination Schemes.

Fixpoint shape_of (v : value) : shape :=
  match v with
  | VNone => SNone
  | VBool _ => SBool
  | VInt _ => SInt
  | VStr _ => SStr
  | VList l => SList (map shape_of l)
  | VDict d => SDict (map (fun kv => (fst kv, shape_of (snd kv))) d)
  end.

(** A path into a value, and the value found at its end. *)
Inductive place : Type :=
| Key (k : string)
| Index (i : nat).

Fixpoint value_at (path : list place) (v : value) : option value :=
  match path with
  | [] => Some v
  | Key k :: path' =>
      match v with
      | VDict d =>
          match dict_get k d with
          | Some x => value_at path' x
          | None => None
          end
      | _ => None
      end
  | Index i :: path' =>
      match v with
      | VList l =>
          match nth_error l i with
          | Some x => value_at path' x
          | None => None
          end
      | _ => None
      end
  end.

(** The fields of a session that the scenario of the twelve episodes
    fixes: it is a mapping whose [user_preferences] is the one-element list
    of the preference. *)
Definition states_preference (pref : string) (session : value) : Prop :=
  exists d, session = VDict d /\
            dict_get "user_preferences" d = Some (VList [VStr pref]).

(** [session.get("session_id", "unknown")] of a mapping *)
Definition session_id_of (session : value) : value :=
  match session with
  | VDict d =>
      match dict_get "session_id" d with
      | Some v => v
      | None => VStr "unknown"
      end
  | _ => VStr "unknown"
  end.

(** ** Concrete inputs *)

Module Examples.

Definition rec1 : value :=
  VDict [("session_id", VStr "s1"); ("timestamp", VStr "2025-11-30T10:00:00Z")].

Definition rec2 : value :=
  VDict [("session_id", VStr "s2"); ("timestamp", VStr "2025-12-31T10:00:00Z")].

Definition empty_world : world := World ∅ [] [] 0.

Definition world_of (files : list (string * file)) : world :=
  World (list_to_map files) [] [] 0.

(** A complete partition document followed by a stray character. *)
Definition trailing_garbage : string :=
  Reference.dumps (VDict [("sessions", VList [rec1])]) +:+ "x".

Definition valid_partition : string :=
  Reference.dumps (VDict [("sessions", VList [rec2]); ("count", VInt 1);
                          ("last_updated", VStr "2025-12-31T10:00:00Z")]).

Definition not_a_list_partition : string :=
  Reference.dumps (VDict [("sessions", VStr "not-a-list")]).

Definition two_partitions : world :=
  world_of [("/e/sessions-2025-11.json", Text trailing_garbage);
            ("/e/sessions-2025-12.json", Text valid_partition)].

Definition three_partitions : world :=
  world_of [("/e/sessions-2025-10.json", Text not_a_list_partition);
            ("/e/sessions-2025-11.json", Text "{");
            ("/e/sessions-2025-12.json", Text valid_partition);
            ("/e/index.json", Text "{}")].

(** A partition whose stored count and date are wrong. *)
Definition stale_partition : string :=
  Reference.dumps (VDict [("sessions", VList [rec1]); ("count", VInt 7);
                          ("last_updated", VStr "1999-01-01T00:00:00Z")]).

Definition stale_world : world :=
  world_of [("/e/sessions-2025-12.json", Text stale_partition)].

Definition list_world : world :=
  world_of [("/e/sessions-2025-12.json", Text "[1, 2]")].

Definition no_sessions_world : world :=
  world_of [("/e/sessions-2025-12.json",
             Text (Reference.dumps (VDict [("owner", VStr "me")])))].

Definition unordered_config : string :=
  unlines ["---"; "thresholds:"; "  emerging_pattern: 50";
           "  strong_pattern: 3"; "---"].

Definition config_world : world :=
  world_of [(config_path "/p", Text unordered_config)].

Definition repair_content : string := "[1]}".

Definition repair_world : world :=
  world_of [("/f.json", Text repair_content)].

Definition fallback : value := VDict [("fallback", VBool true)].

Definition nested_secret : value :=
  VDict [("a", VDict [("b", VList [VStr "password=[REDACTED]"])])].

Definition token : string := "aaaaaaaaaaaaaaaaaaaa".

(** The token alone, and the token right after an e with an acute accent. *)
Definition token_twice : value :=
  VDict [("a", VDict [("b", VList [VStr token;
                                   VStr (String (ascii_of_N 233) token)])])].

Definition nested_record : value :=
  VDict [("user", VStr "alice");
         ("level1", VDict [("level2",
            VList [VStr "api_key=secret123"; VInt 42; VNone])])].

Definition preference : string := "Always run tests before commits".

Definition episode (i : Z) : value :=
  VDict [("session_id", VStr ("session-" +:+ pretty i));
         ("user_preferences", VList [VStr preference]);
         ("code_patterns", VList [VStr "Use TDD workflow"])].

Definition twelve_episodes : list value :=
  map episode [0; 1; 2; 3; 4; 5; 6; 7; 8; 9; 10; 11]%Z.

(** Three sessions: one preference stated twice, one stated once. *)
Definition three_sessions : list value :=
  [VDict [("session_id", VStr "a");
          ("user_preferences", VList [VStr "twice"; VStr "once"])];
   VDict [("session_id", VStr "b");
          ("user_preferences", VList [VDict [("description", VStr "twice")]])];
   VDict [("session_id", VStr "c")]].

End Examples.

(** * More of the code *)

(** ** json_handler.py: the index *)

(** Lines printed by the functions below that [event] has no name for; such
    a function returns what it printed of them next to its result. *)
Inductive notice : Type :=
| ErrorUpdatingIndex
| ErrorSavingKnowledge.

(** [container[key] = v], for a key that is a str *)
Definition py_setitem (container : value) (key : string) (v : value)
  : outcome value :=
  match container with
  | VDict d => Ret (VDict (dict_set key v d))
  | _ => Raise TypeError
  end.

Section JsonHandlerIndex.
Context `{PyRuntime}.

Definition update_index (index_filepath session_id monthly_filename : string)
  : M (bool * list notice) :=
  catch
    (index <- safe_load index_filepath (VDict []) ;;
     index <- lift (py_setitem index session_id (VStr monthly_filename)) ;;
     saved <- safe_save index_filepath index 3 ;;
     ret (saved, []))
    (fun _ => ret (false, [ErrorUpdatingIndex])).

End JsonHandlerIndex.

(** ** redaction.py: custom patterns *)

Section CustomPatterns.

(** [re.compile(pattern_str, re.IGNORECASE)], for patterns within the
    constructs of [regex]: the compiled pattern, or nothing when it raises
    [re.error]. *)
Variable re_compile : string -> option regex.

Fixpoint compile_custom_patterns (pattern_strings : list string)
  : list (regex * string) :=
  match pattern_strings with
  | [] => []
  | pattern_str :: rest =>
      match re_compile pattern_str with
      | Some r => (r, "[REDACTED]") :: compile_custom_patterns rest
      | None => compile_custom_patterns rest
      end
  end.

Definition get_all_patterns (custom_patterns : option (list string))
  : list (regex * string) :=
  match custom_patterns with
  | None | Some [] => DEFAULT_PATTERNS
  | Some custom => DEFAULT_PATTERNS ++ compile_custom_patterns custom
  end.

End CustomPatterns.

(** ** extract.py: saving the semantic knowledge *)

Section SaveKnowledge.
Context `{PyRuntime}.

(** The document saved for one of the four files: the patterns under their
    key, their number and the date. *)
Definition knowledge_doc (key : string) (patterns : list value)
  (last_updated : string) : value :=
  VDict [(key, VList patterns);
         ("count", VInt (Z.of_nat (length patterns)));
         ("last_updated", VStr last_updated)].

Definition save_semantic_knowledge (semantic_dir : string)
  (all_patterns preferences code_patterns anti_patterns : list value)
  : M (bool * list notice) :=
  catch
    (let patterns_file := semantic_dir +:+ "/patterns.json" in
     last_updated <- get_timestamp ;;
     _ <- safe_save patterns_file
            (knowledge_doc "patterns" all_patterns last_updated) 3 ;;
     let preferences_file := semantic_dir +:+ "/preferences.json" in
     last_updated <- get_timestamp ;;
     _ <- safe_save preferences_file
            (knowledge_doc "preferences" preferences last_updated) 3 ;;
     let code_patterns_file := semantic_dir +:+ "/code-patterns.json" in
     last_updated <- get_timestamp ;;
     _ <- safe_save code_patterns_file
            (knowledge_doc "code_patterns" code_patterns last_updated) 3 ;;
     let anti_patterns_file := semantic_dir +:+ "/anti-patterns.json" in
     last_updated <- get_timestamp ;;
     _ <- safe_save anti_patterns_file
            (knowledge_doc "anti_patterns" anti_patterns last_updated) 3 ;;
     ret (true, []))
    (fun _ => ret (false, [ErrorSavingKnowledge])).

End SaveKnowledge.

(** ** utils.py *)






Section ParseJsonl.
Context `{PyRuntime}.



End ParseJsonl.

(** [str.replace(old, new)] for an [old] of one character *)
Fixpoint replace_char (old : ascii) (new : list ascii) (s : list ascii)
  : list ascii :=
  match s with
  | [] => []
  | c :: s' =>
      if Ascii.eqb c old then new ++ replace_char old new s'
      else c :: replace_char old new s'
  end.

(** [f"{z:0{width}d}"]: the decimal digits, padded with zeros after the
    sign up to the width. *)
Definition format_0d (width : nat) (z : Z) : string :=
  let digits := chars (pretty (Z.abs z)) in
  if (z <? 0)%Z
  then text ("-"%char :: repeat "0"%char (width - 1 - length digits) ++ digits)
  else text (repeat "0"%char (width - length digits) ++ digits).

Section MonthlyFilename.

(** The year and the month of [datetime.fromisoformat(s)], or the exception
    it raises. *)
Variable fromisoformat : string -> outcome (Z * Z).

(** The year and the month of [datetime.utcnow()] at the n-th reading of
    the clock. *)
Variable utcnow : nat -> Z * Z.

Definition get_monthly_filename (timestamp : option string) : M string :=
  dt <- match timestamp with
        | Some (String c s as t) =>
            lift (fromisoformat
                    (text (replace_char "Z"%char (chars "+00:00") (chars t))))
        | _ =>
            fun w => (Ret (utcnow (w_ticks w)),
                      World (w_files w) (w_out w) (w_faults w) (S (w_ticks w)))
        end ;;
  ret ("sessions-" +:+ format_0d 4 (fst dt) +:+ "-" +:+ format_0d 2 (snd dt)
       +:+ ".json").

End MonthlyFilename.

(** ** recovery.py and synthesize.py: the checks of stored files *)

(** The entries [validate_memory_structure] puts on its list of errors. *)
Inductive finding : Type :=
| Corrupted (path : string)
| MissingSessionsKey (path : string).

Section Checks.
Context `{PyRuntime}.

(** One turn of the loop of [validate_memory_structure] over the
    partitions. *)
Definition check_partition (monthly_file : string) (errors : list finding)
  : M (list finding) :=
  data <- safe_load monthly_file VNone ;;
  match data with
  | VNone => ret (errors ++ [Corrupted monthly_file])
  | _ =>
      present <- lift (py_contains "sessions" data) ;;
      if negb present then ret (errors ++ [MissingSessionsKey monthly_file])
      else ret errors
  end.

(** The check that [validate_memory_structure] spells out for the index,
    for each file of semantic knowledge and for the rules metadata. *)
Definition check_file (filepath : string) (errors : list finding)
  : M (list finding) :=
  present <- path_exists filepath ;;
  if present then
    data <- safe_load filepath VNone ;;
    match data with
    | VNone => ret (errors ++ [Corrupted filepath])
    | _ => ret errors
    end
  else ret errors.


End Checks.

(** ** Vocabulary of the further statements *)

(** The number of attempts of [safe_save] whose I/O fails before one
    goes through. *)
Fixpoint leading_faults (faults : list bool) : nat :=
  match faults with
  | true :: rest => S (leading_faults rest)
  | _ => 0
  end.

(** The warnings of the retries after attempts [first], [first + 1], ...,
    [n] of them. *)
Definition retry_warnings (first n : nat) : list event :=
  map WarnSaveRetry (seq first n).

(** The document [merge_monthly] saves for an episode, given what the
    partition loaded as: a mapping keeps its fields, anything else is
    started over. *)
Definition merged_partition (loaded session_record : value) : value :=
  let kept := match loaded with VDict d => d | _ => [] end in
  let sessions := prior_sessions loaded ++ [session_record] in
  VDict (dict_set "last_updated" (timestamp_of session_record)
           (dict_set "count" (VInt (Z.of_nat (length sessions)))
              (dict_set "sessions" (VList sessions) kept))).

(** The description an annotation stands for: a str is its own
    description, a mapping gives its [description]. *)
Definition described (annotation : value) : option value :=
  match annotation with
  | VStr _ => Some annotation
  | VDict d => dict_get "description" d
  | _ => None
  end.

(** An annotation mentions a description. *)
Definition mentions_key (key annotation : value) : bool :=
  match described annotation with
  | Some k => key_eqb k key
  | None => false
  end.

(** The annotations a session lists under a field. *)
Definition annotations_of (field : string) (session : value) : list value :=
  match session with
  | VDict d =>
      match dict_get field d with
      | Some annotations =>
          match py_iter annotations with
          | Ret items => items
          | Raise _ => []
          end
      | None => []
      end
  | _ => []
  end.

(** The session id of every mention of a description under a field, in the
    order of the sessions; a session that mentions it twice is listed
    twice. *)
Definition mentions (field : string) (key : value) (sessions : list value)
  : list value :=
  flat_map
    (fun session =>
       map (fun _ => session_id_of session)
         (List.filter (mentions_key key) (annotations_of field session)))
    sessions.

(** The prefix of the pattern ids of a category. *)
Definition id_prefix (category : string) : string :=
  if String.eqb category "preference" then "pref"
  else if String.eqb category "code_pattern" then "code"
  else "anti".

(** The field of a session that feeds a category. *)
Definition field_of (category : string) : string :=
  if String.eqb category "preference" then "user_preferences"
  else if String.eqb category "code_pattern" then "code_patterns"
  else "anti_patterns".

(** The evidence of a description after more session ids have been noted
    for it. *)
Definition evidence_after (before : option (list value)) (added : list value)
  : option (list value) :=
  match added with
  | [] => before
  | _ => Some (match before with Some ev => ev | None => [] end ++ added)
  end.

(** No two keys of an evidence map are equal as keys of a dict, and each
    is hashable. *)
Fixpoint distinct_keys (m : evidence_map) : Prop :=
  match m with
  | [] => True
  | (k, _) :: m' =>
      hashable k = true
      /\ Forall (fun kv => key_eqb (fst kv) k = false) m'
      /\ distinct_keys m'
  end.

(** The evidence maps the extraction builds: keys distinct as keys of a
    dict, and no description without evidence. *)
Definition evidence_ok (m : evidence_map) : Prop :=
  distinct_keys m /\ Forall (fun kv => snd kv <> []) m.



(** A file that exists and cannot be loaded: it cannot be read, or its
    text neither parses nor has a prefix that the repair accepts. *)
Definition unloadable `{PyRuntime} (f : file) : Prop :=
  match f with
  | Unreadable => True
  | Text content =>
      match json_loads content with
      | Ret _ => False
      | Raise JSONDecodeError =>
          match repair_scan content (String.length content) with
          | Ret _ => False
          | Raise _ => True
          end
      | Raise _ => True
      end
  end.

(** The name of the partition of a month. *)
Definition partition_name (year month : Z) : string :=
  "sessions-" +:+ format_0d 4 year +:+ "-" +:+ format_0d 2 month +:+ ".json".

(** What the glob of the partitions asks of a file name. *)
Definition is_partition_name (name : string) : bool :=
  is_prefix (chars "sessions-") (chars name)
  && is_prefix (rev (chars ".json")) (rev (chars name))
  && (14 <=? length (chars name))
  && negb (existsb (Ascii.eqb "/") (chars name)).

(** Each path of the list is at most the next, in the order of str. *)
Fixpoint ascending (paths : list string) : bool :=
  match paths with
  | p :: (q :: _) as rest => String.leb p q && ascending rest
  | _ => true
  end.

(** ** Further concrete inputs *)

Module Cases.

Definition old_index : string :=
  Reference.dumps (VDict [("s0", VStr "sessions-2025-11.json")]).

(** A world in which the I/O of the next [n] save attempts fails. *)
Definition failing (n : nat) (files : list (string * file)) : world :=
  World (list_to_map files) [] (repeat true n) 0.

Definition index_world (n : nat) : world :=
  failing n [("/e/index.json", Text old_index); ("/e/other.json", Text "1")].

Definition list_index_world : world :=
  Examples.world_of [("/e/index.json", Text "[1, 2]")].

Definition failing_partition_world : world :=
  failing 3 [("/e/sessions-2025-12.json", Text Examples.valid_partition)].

Definition bad_sessions_world : world :=
  Examples.world_of
    [("/e/sessions-2025-10.json", Text Examples.not_a_list_partition)].

(** A record in which no built-in pattern matches. *)
Definition clean_record : value :=
  VDict [("user", VStr "alice"); ("turns", VList [VInt 3; VStr "ran the tests"])].

(** [re.compile] on the custom patterns used below: a run of word
    characters is a literal, anything else (such as an unbalanced
    parenthesis) is taken not to compile. *)
Definition compile_words (pattern_str : string) : option regex :=
  if forallb is_word (chars pattern_str) && negb (String.eqb pattern_str EmptyString)
  then Some (liti pattern_str) else None.

(** The pattern that [Examples.three_sessions] give under the thresholds
    2, 3 and 5. *)
Definition twice_pattern : pattern := {|
  pattern_id := make_pattern_id "pref" (VStr "twice");
  description := VStr "twice";
  category := "preference";
  strength := "emerging";
  occurrences := 2;
  evidence := [VStr "a"; VStr "b"];
  detected_at := clock_reading 0
|}.

(** Sessions as a partition may hold them: the second is not a mapping. *)
Definition stray_sessions : list value :=
  [Examples.episode 0; VStr "stray"; Examples.episode 1].

Definition knowledge_world : world :=
  failing 12 [("/s/patterns.json", Text "old patterns");
              ("/s/preferences.json", Text "old preferences")].

(** [datetime.fromisoformat] on text that starts with a four-digit year, a
    dash and a two-digit month; what follows is not looked at, and any other
    text is taken to be rejected. *)
Definition iso_year_month (s : string) : outcome (Z * Z) :=
  match chars s with
  | y1 :: y2 :: y3 :: y4 :: dash :: m1 :: m2 :: _ =>
      let year := int_of_digits (text [y1; y2; y3; y4]) in
      let month := int_of_digits (text [m1; m2]) in
      if forallb is_digit [y1; y2; y3; y4; m1; m2] && Ascii.eqb dash "-"
         && (1 <=? year)%Z && (year <=? 9999)%Z
         && (1 <=? month)%Z && (month <=? 12)%Z
      then Ret (year, month)
      else Raise (PyException "Invalid isoformat string")
  | _ => Raise (PyException "Invalid isoformat string")
  end.

Definition december (n : nat) : Z * Z := (2025%Z, 12%Z).


Definition broken_world : world :=
  Examples.world_of
    [("/e/sessions-2025-11.json", Text "{");
     ("/e/sessions-2025-12.json", Text "7");
     ("/p/.claude/pms/procedural/rules-metadata.json", Unreadable)].

End Cases.

(** Well-formedness of a concrete value: its keys are pairwise distinct. *)
Ltac wf_concrete :=
  vm_compute; repeat split; repeat constructor; intros Hin; inversion Hin;
  subst; repeat match goal with H : _ ∈ _ |- _ => inversion H; clear H; subst end.

(** * Properties *)

(** ** The matcher: its fuel is enough *)

Section Iterate.
Variable step : mstate -> (mstate -> option mstate) -> option mstate.

(** The body of a repetition enters its continuation at a position of the
    text it was given, and looks at its continuation only there. *)
Hypothesis step_suffix :
  forall st k res,
    step st k = Some res ->
    exists st', m_rest st' `suffix_of` m_rest st /\ k st' = Some res.
Hypothesis step_ext :
  forall st k1 k2,
    (forall st', remaining st' <= remaining st -> k1 st' = k2 st') ->
    step st k1 = step st k2.

Lemma iterate_unfold greedy lo hi k fuel n st :
  iterate step greedy lo hi k fuel n st =
    let more :=
      match fuel with
      | 0 => None
      | S fuel' =>
          if below hi n then
            step st (fun st' =>
              if (length (m_rest st') <? length (m_rest st)) || (n <? lo)
              then iterate step greedy lo hi k fuel' (S n) st' else None)
          else None
      end in
    let stop := if lo <=? n then k st else None in
    if greedy then match more with Some st' => Some st' | None => stop end
    else match stop with Some st' => Some st' | None => more end.
Proof. by destruct fuel. Qed.

Lemma step_remaining st k res :
  step st k = Some res ->
  exists st', remaining st' <= remaining st /\ k st' = Some res.
Proof.
  intros Hs. apply step_suffix in Hs as (st' & Hsuf & Hk).
  exists st'. split; [|done]. by apply suffix_length.
Qed.

Lemma iterate_suffix greedy lo hi k res :
  forall fuel n st,
    iterate step greedy lo hi k fuel n st = Some res ->
    exists st', m_rest st' `suffix_of` m_rest st /\ k st' = Some res.
Proof.
  induction fuel as [|fuel IH]; intros n st; rewrite iterate_unfold; cbv zeta.
  - destruct greedy; destruct (lo <=? n); try done; eauto.
    destruct (k st) eqn:Ek; [intros [= <-]; eauto|done].
  - assert (Hmore :
      (if below hi n
       then step st (fun st' =>
              if (length (m_rest st') <? length (m_rest st)) || (n <? lo)
              then iterate step greedy lo hi k fuel (S n) st' else None)
       else None) = Some res ->
      exists st', m_rest st' `suffix_of` m_rest st /\ k st' = Some res).
    { destruct (below hi n); [|done]. intros Hb.
      apply step_suffix in Hb as (st1 & Hle1 & Hb).
      destruct (_ || _); [|done].
      apply IH in Hb as (st2 & Hle2 & Hk). exists st2.
      split; [by etrans|done]. }
    destruct greedy.
    + match goal with
      | |- match ?m with _ => _ end = _ -> _ => destruct m eqn:Em
      end.
      * intros [= <-]. by apply Hmore.
      * destruct (lo <=? n); [eauto|done].
    + destruct (lo <=? n).
      * destruct (k st) eqn:Ek; [intros [= <-]; eauto|apply Hmore].
      * apply Hmore.
Qed.

Lemma iterate_ext greedy lo hi k1 k2 :
  forall fuel n st,
    (forall st', remaining st' <= remaining st -> k1 st' = k2 st') ->
    iterate step greedy lo hi k1 fuel n st
    = iterate step greedy lo hi k2 fuel n st.
Proof.
  induction fuel as [|fuel IH]; intros n st Hk; rewrite !iterate_unfold;
    cbv zeta; rewrite (Hk st) by done; [done|].
  assert (Hmore :
    step st (fun st' =>
      if (length (m_rest st') <? length (m_rest st)) || (n <? lo)
      then iterate step greedy lo hi k1 fuel (S n) st' else None)
    = step st (fun st' =>
        if (length (m_rest st') <? length (m_rest st)) || (n <? lo)
        then iterate step greedy lo hi k2 fuel (S n) st' else None)).
  { apply step_ext. intros st' Hle. destruct (_ || _); [|done].
    apply IH. intros st'' Hle'. apply Hk. lia. }
  by rewrite Hmore.
Qed.

(** With the text left to read and the iterations still owed as fuel, more
    fuel changes nothing. *)
Lemma iterate_fuel_enough greedy lo hi k :
  forall fuel n st,
    remaining st + (lo - n) <= fuel ->
    iterate step greedy lo hi k (S fuel) n st
    = iterate step greedy lo hi k fuel n st.
Proof.
  induction fuel as [|fuel IH]; intros n st Hfuel.
  - rewrite (iterate_unfold _ _ _ _ 1), (iterate_unfold _ _ _ _ 0). cbv zeta.
    assert (Hnone :
      step st (fun st' =>
        if (length (m_rest st') <? length (m_rest st)) || (n <? lo)
        then iterate step greedy lo hi k 0 (S n) st' else None) = None).
    { destruct (step st _) as [res|] eqn:Es; [|done].
      apply step_remaining in Es as (st' & Hle & Hk). unfold remaining in *.
      destruct (Nat.ltb_spec (length (m_rest st')) (length (m_rest st)));
        [lia|].
      destruct (Nat.ltb_spec n lo); [lia|]. done. }
    rewrite Hnone. by destruct (below hi n).
  - rewrite (iterate_unfold _ _ _ _ (S (S fuel))),
      (iterate_unfold _ _ _ _ (S fuel)). cbv zeta.
    assert (Hmore :
      step st (fun st' =>
        if (length (m_rest st') <? length (m_rest st)) || (n <? lo)
        then iterate step greedy lo hi k (S fuel) (S n) st' else None)
      = step st (fun st' =>
          if (length (m_rest st') <? length (m_rest st)) || (n <? lo)
          then iterate step greedy lo hi k fuel (S n) st' else None)).
    { apply step_ext. intros st' Hle. unfold remaining in *.
      destruct (Nat.ltb_spec (length (m_rest st')) (length (m_rest st)));
        simpl.
      - apply IH. unfold remaining. lia.
      - destruct (Nat.ltb_spec n lo); [|done]. apply IH. unfold remaining. lia. }
    by rewrite Hmore.
Qed.

End Iterate.

(** The matcher enters its continuation at a position of the text it was
    given. *)
Lemma rmatch_suffix r :
  forall st k res,
    rmatch r st k = Some res ->
    exists st', m_rest st' `suffix_of` m_rest st /\ k st' = Some res.
Proof.
  induction r as [|p|r1 IH1 r2 IH2|r1 IH1 r2 IH2|greedy lo hi body IH| | |body IH];
    intros st k res; simpl.
  - eauto.
  - destruct (m_rest st) as [|c rest] eqn:E; [done|].
    destruct (p c); [|done]. intros Hk. eexists. split; [|exact Hk]. simpl.
    by apply suffix_cons_r.
  - intros H1. apply IH1 in H1 as (st1 & Hle1 & H2).
    apply IH2 in H2 as (st2 & Hle2 & Hk). exists st2. split; [by etrans|done].
  - destruct (rmatch r1 st k) eqn:E1.
    + intros [= <-]. by apply IH1.
    + apply IH2.
  - by apply iterate_suffix.
  - destruct (xorb _ _); [eauto|done].
  - destruct (m_prev st) as [c|]; [|eauto].
    destruct (Ascii.eqb c newline); [eauto|done].
  - intros Hb. apply IH in Hb as (st1 & Hle & Hk).
    eexists. split; [|exact Hk]. done.
Qed.

Lemma rmatch_remaining r st k res :
  rmatch r st k = Some res ->
  exists st', remaining st' <= remaining st /\ k st' = Some res.
Proof.
  intros Hm. apply rmatch_suffix in Hm as (st' & Hsuf & Hk).
  exists st'. split; [|done]. by apply suffix_length.
Qed.

Lemma rmatch_ext r :
  forall st k1 k2,
    (forall st', remaining st' <= remaining st -> k1 st' = k2 st') ->
    rmatch r st k1 = rmatch r st k2.
Proof.
  induction r as [|p|r1 IH1 r2 IH2|r1 IH1 r2 IH2|greedy lo hi body IH| | |body IH];
    intros st k1 k2 Hk; simpl.
  - by apply Hk.
  - destruct (m_rest st) as [|c rest] eqn:E; [done|].
    destruct (p c); [|done]. apply Hk. unfold remaining. rewrite E. simpl. lia.
  - apply IH1. intros st' Hle. apply IH2. intros st'' Hle'. apply Hk. lia.
  - rewrite (IH1 st k1 k2 Hk). by rewrite (IH2 st k1 k2 Hk).
  - apply iterate_ext; [apply IH|done].
  - by rewrite (Hk st).
  - by rewrite (Hk st).
  - apply IH. intros st' Hle. apply Hk. unfold remaining in *. simpl. lia.
Qed.

(** The fuel [rmatch] gives to a repetition is enough. *)
Lemma rep_fuel_enough body greedy lo hi k st extra :
  iterate (rmatch body) greedy lo hi k (remaining st + lo + extra) 0 st
  = rmatch (Rep greedy lo hi body) st k.
Proof.
  simpl. fold (remaining st). induction extra as [|extra IH].
  - by rewrite Nat.add_0_r.
  - rewrite Nat.add_succ_r, iterate_fuel_enough; [exact IH| | |lia].
    + apply rmatch_suffix.
    + apply rmatch_ext.
Qed.

(** A search splits the text into what it skips, what it matches and what
    is left, and with [must_advance] it does not return an empty match at
    the first position. *)
Lemma search_lengths r :
  forall s prev must_advance skipped matched st,
    search r prev s must_advance = Some (skipped, matched, st) ->
    length skipped + length matched + remaining st = length s
    /\ (must_advance = true -> skipped = [] -> matched <> []).
Proof.
  assert (Hhere : forall s prev must_advance st,
    rmatch r (MState prev s None)
      (fun st => if must_advance && (length (m_rest st) =? length s)
                 then None else Some st) = Some st ->
    length (firstn (length s - length (m_rest st)) s) + remaining st = length s
    /\ (must_advance = true -> firstn (length s - length (m_rest st)) s <> [])).
  { intros s prev must_advance st E.
    apply rmatch_remaining in E as (st1 & Hle & Hk).
    unfold remaining in *. simpl in Hle.
    assert (Hst : st1 = st /\ (must_advance = true ->
                               length (m_rest st1) <> length s)).
    { destruct must_advance; simpl in Hk.
      - destruct (Nat.eqb_spec (length (m_rest st1)) (length s)); [done|].
        by injection Hk as ->.
      - by injection Hk as ->. }
    destruct Hst as [-> Hadv]. rewrite length_firstn, Nat.min_l by lia.
    split; [lia|].
    intros Hma Hnil. apply (f_equal length) in Hnil.
    rewrite length_firstn, Nat.min_l in Hnil by lia. simpl in Hnil.
    specialize (Hadv Hma). lia. }
  induction s as [|c s IH]; intros prev must_advance skipped matched st.
  - cbn [search]. destruct (rmatch r _ _) eqn:E; [|done].
    intros [= <- <- <-]. apply Hhere in E as [Hlen Hadv].
    split; [exact Hlen|auto].
  - cbn [search]. destruct (rmatch r _ _) eqn:E.
    + intros [= <- <- <-]. apply Hhere in E as [Hlen Hadv].
      split; [exact Hlen|auto].
    + destruct (search r (Some c) s false) as [[[sk m] st']|] eqn:Es; [|done].
      intros [= <- <- <-]. apply IH in Es as [Hlen _]. simpl.
      split; [lia|done].
Qed.

(** More fuel than twice the length of the text (and one) changes nothing
    to a scan. *)
Lemma scan_fuel_enough r :
  forall fuel s prev (must_advance : bool),
    2 * length s + (if must_advance then 0 else 1) < fuel ->
    scan (S fuel) r prev s must_advance = scan fuel r prev s must_advance.
Proof.
  induction fuel as [|fuel IH]; intros s prev must_advance Hfuel; [lia|].
  change (scan (S (S fuel)) r prev s must_advance)
    with (match search r prev s must_advance with
          | None => ([], s)
          | Some (skipped, matched, st) =>
              let '(found, rest) :=
                scan (S fuel) r (m_prev st) (m_rest st)
                  (match matched with [] => true | _ => false end) in
              ((skipped, matched) :: found, rest)
          end).
  change (scan (S fuel) r prev s must_advance)
    with (match search r prev s must_advance with
          | None => ([], s)
          | Some (skipped, matched, st) =>
              let '(found, rest) :=
                scan fuel r (m_prev st) (m_rest st)
                  (match matched with [] => true | _ => false end) in
              ((skipped, matched) :: found, rest)
          end).
  destruct (search r prev s must_advance) as [[[skipped matched] st]|] eqn:Es;
    [|done].
  apply search_lengths in Es as [Hlen Hadv]. unfold remaining in Hlen.
  rewrite IH; [done|].
  destruct matched as [|m matched]; simpl in *.
  - destruct must_advance.
    + destruct skipped as [|c skipped]; [by destruct Hadv|]. simpl in *. lia.
    + lia.
  - lia.
Qed.

Lemma length_chars s : length (chars s) = String.length s.
Proof. induction s as [|c s IH]; simpl; [done|]. by rewrite IH. Qed.

(** The fuel of [findall] and [sub] is enough. *)
Lemma scan_all_fuel r s extra :
  scan (2 * String.length s + 2 + extra) r None (chars s) false = scan_all r s.
Proof.
  unfold scan_all. induction extra as [|extra IH].
  - by rewrite Nat.add_0_r.
  - rewrite Nat.add_succ_r, scan_fuel_enough; [exact IH|].
    rewrite length_chars. lia.
Qed.

(** A search splits the text into what it skips, what it matches and what
    is left. *)
Lemma search_split r :
  forall s prev must_advance skipped matched st,
    search r prev s must_advance = Some (skipped, matched, st) ->
    s = skipped ++ matched ++ m_rest st.
Proof.
  assert (Hhere : forall s prev must_advance st,
    rmatch r (MState prev s None)
      (fun st => if must_advance && (length (m_rest st) =? length s)
                 then None else Some st) = Some st ->
    s = firstn (length s - length (m_rest st)) s ++ m_rest st).
  { intros s prev must_advance st E.
    apply rmatch_suffix in E as (st1 & [pre Hpre] & Hk). simpl in Hpre.
    assert (st1 = st) as ->.
    { destruct (_ && _); [done|]. by injection Hk. }
    rewrite Hpre at 2 3. rewrite length_app.
    replace (length pre + length (m_rest st) - length (m_rest st))
      with (length pre) by lia.
    by rewrite take_app_length. }
  induction s as [|c s IH]; intros prev must_advance skipped matched st.
  - cbn [search]. destruct (rmatch r _ _) eqn:E; [|done].
    intros [= <- <- <-]. by apply Hhere in E.
  - cbn [search]. destruct (rmatch r _ _) eqn:E.
    + intros [= <- <- <-]. by apply Hhere in E.
    + destruct (search r (Some c) s false) as [[[sk m] st']|] eqn:Es; [|done].
      intros [= <- <- <-]. apply IH in Es. simpl. by f_equal.
Qed.

Lemma scan_split r :
  forall fuel s prev must_advance found rest,
    scan fuel r prev s must_advance = (found, rest) ->
    s = concat (map (fun m => fst m ++ snd m) found) ++ rest.
Proof.
  induction fuel as [|fuel IH]; intros s prev must_advance found rest; simpl.
  - by intros [= <- <-].
  - destruct (search r prev s must_advance) as [[[skipped matched] st]|] eqn:Es.
    + destruct (scan fuel r _ _ _) as [found' rest'] eqn:Escan.
      intros [= <- <-]. apply IH in Escan. apply search_split in Es.
      simpl. rewrite <- !app_assoc. by rewrite <- Escan.
    + by intros [= <- <-].
Qed.

(** [sub] replaces exactly the matches that [findall] reports, each by the
    replacement text, and keeps the text between them. *)
Lemma sub_replaces_matches r replacement s :
  exists found rest,
    chars s = concat (map (fun m => fst m ++ snd m) found) ++ rest
    /\ findall r s = map (fun m => text (snd m)) found
    /\ chars (sub r replacement s)
       = concat (map (fun m => fst m ++ chars replacement) found) ++ rest.
Proof.
  unfold findall, sub. destruct (scan_all r s) as [found rest] eqn:Es.
  exists found, rest. split; [by apply scan_split in Es|]. split; [done|].
  unfold chars, text. by rewrite String.list_ascii_of_string_of_list_ascii.
Qed.

(** ** Dicts *)

Lemma dict_get_set_eq k v d : dict_get k (dict_set k v d) = Some v.
Proof.
  induction d as [|[k' v'] d IH]; simpl.
  - by rewrite String.eqb_refl.
  - destruct (String.eqb k k') eqn:E; simpl; rewrite E; auto.
Qed.

Lemma dict_get_set_ne k k' v d :
  String.eqb k k' = false -> dict_get k (dict_set k' v d) = dict_get k d.
Proof.
  intros Hne. induction d as [|[k0 v0] d IH]; simpl.
  - by rewrite Hne.
  - destruct (String.eqb k' k0) eqn:E; simpl.
    + apply String.eqb_eq in E. subst k0. by rewrite Hne.
    + by rewrite IH.
Qed.

Lemma dict_set_set k v v' d :
  dict_set k v (dict_set k v' d) = dict_set k v d.
Proof.
  induction d as [|[k0 v0] d IH]; simpl.
  - by rewrite String.eqb_refl.
  - destruct (String.eqb k k0) eqn:E; simpl; rewrite E; [done|].
    by rewrite IH.
Qed.

Lemma dict_has_set k v d : dict_has k (dict_set k v d) = true.
Proof. unfold dict_has. by rewrite dict_get_set_eq. Qed.

Lemma string_get_lt s : forall i c, String.get i s = Some c -> i < String.length s.
Proof.
  induction s as [|a s IH]; intros i c Hget; simpl in *.
  - discriminate.
  - destruct i as [|i]; [lia|]. apply IH in Hget. lia.
Qed.

(** ** json_handler.py *)

Section JsonHandlerProperties.
Context `{PyRuntime}.

Lemma world_eta w : World (w_files w) (w_out w) (w_faults w) (w_ticks w) = w.
Proof. by destruct w. Qed.

(** [safe_load] returns the loaded value, prints the warnings of the load
    and changes nothing else. *)
Lemma safe_load_spec filepath default w :
  safe_load filepath default w =
    (Ret (loaded_value (w_files w !! filepath) default),
     World (w_files w) (w_out w ++ load_warnings filepath (w_files w !! filepath))
       (w_faults w) (w_ticks w)).
Proof.
  unfold safe_load, catch, json_load, bind, open_read, loaded_value,
    load_warnings, _attempt_repair, lift, print, ret.
  destruct (w_files w !! filepath) as [[content|]|] eqn:Hf; simpl.
  - destruct (json_loads content) as [v|e]; simpl.
    + by rewrite app_nil_r, world_eta.
    + destruct e; simpl; try reflexivity.
      * by rewrite app_nil_r, world_eta.
      * unfold bind, open_read. simpl. rewrite Hf.
        by destruct (repair_scan content (String.length content)).
  - reflexivity.
  - by rewrite app_nil_r, world_eta.
Qed.

Lemma repair_scan_found content v i :
  closer_at content i ->
  json_loads (prefix_to content i) = Ret v ->
  forall n, i < n ->
    (forall j, i < j -> j < n -> closer_at content j ->
       json_loads (prefix_to content j) = Raise JSONDecodeError) ->
    repair_scan content n = Ret v.
Proof.
  intros [c [Hc Hclose]] Hv n. induction n as [|n IH]; intros Hlt Hlater.
  - lia.
  - simpl. destruct (decide (n = i)) as [->|Hne].
    + rewrite Hc, Hclose. unfold prefix_to in Hv. by rewrite Hv.
    + assert (Hrec : repair_scan content n = Ret v).
      { apply IH; [lia|]. intros j ? ?. apply Hlater; lia. }
      destruct (String.get n content) as [c'|] eqn:Hn; [|done].
      destruct (is_closer c') eqn:Hc'; [|done].
      unfold prefix_to in Hlater.
      rewrite (Hlater n); [done|lia|lia|]. by exists c'.
Qed.

Lemma repair_scan_exhausted content n :
  (forall j, j < n -> closer_at content j ->
     json_loads (prefix_to content j) = Raise JSONDecodeError) ->
  repair_scan content n = Raise (PyException "Unable to repair JSON").
Proof.
  induction n as [|n IH]; intros Hall; [done|].
  simpl. assert (Hrec := IH (fun j Hj => Hall j (Nat.lt_lt_succ_r _ _ Hj))).
  destruct (String.get n content) as [c'|] eqn:Hn; [|done].
  destruct (is_closer c') eqn:Hc'; [|done].
  unfold prefix_to in Hall. rewrite (Hall n); [done|lia|]. by exists c'.
Qed.

(** C3 (as amended). [safe_load] never raises and leaves the files as they
    are; when the file is absent, cannot be read, or fails to parse beyond
    repair, it returns the given default, except that the default [None]
    is answered by an empty dict. *)
Theorem safe_load_degrades_to_default filepath default w :
  (exists v w', safe_load filepath default w = (Ret v, w')
                /\ w_files w' = w_files w)
  /\ (w_files w !! filepath = None ->
      fst (safe_load filepath default w) = Ret (default_or_empty default))
  /\ (w_files w !! filepath = Some Unreadable ->
      fst (safe_load filepath default w) = Ret (default_or_empty default))
  /\ (forall content e,
        w_files w !! filepath = Some (Text content) ->
        json_loads content = Raise e -> e <> JSONDecodeError ->
        fst (safe_load filepath default w) = Ret (default_or_empty default))
  /\ (forall content e,
        w_files w !! filepath = Some (Text content) ->
        json_loads content = Raise JSONDecodeError ->
        repair_scan content (String.length content) = Raise e ->
        fst (safe_load filepath default w) = Ret (default_or_empty default))
  /\ (default <> VNone -> default_or_empty default = default)
  /\ default_or_empty VNone = VDict [].
Proof.
  rewrite safe_load_spec. simpl. repeat split.
  - eauto.
  - by intros ->.
  - by intros ->.
  - intros content e -> He Hne. simpl. rewrite He. by destruct e.
  - intros content e -> He Hrep. simpl. by rewrite He, Hrep.
  - by destruct default.
Qed.

(** C4 (as amended). On malformed text the repair walks back from the end
    over every closing brace or bracket, parsing the prefix that ends
    there: the value of the longest such prefix that parses is returned,
    and the default only when none parses. *)
Theorem safe_load_repair_tries_every_closer filepath default w content :
  w_files w !! filepath = Some (Text content) ->
  json_loads content = Raise JSONDecodeError ->
  (forall i v,
     closer_at content i ->
     json_loads (prefix_to content i) = Ret v ->
     (forall j, i < j -> closer_at content j ->
        json_loads (prefix_to content j) = Raise JSONDecodeError) ->
     fst (safe_load filepath default w) = Ret v)
  /\ ((forall j, closer_at content j ->
         json_loads (prefix_to content j) = Raise JSONDecodeError) ->
      fst (safe_load filepath default w) = Ret (default_or_empty default)).
Proof.
  intros Hf Hbad. rewrite safe_load_spec, Hf. simpl. rewrite Hbad. split.
  - intros i v Hi Hv Hlater.
    rewrite (repair_scan_found content v i Hi Hv); [done| |].
    + destruct Hi as [c [Hc _]]. by apply string_get_lt in Hc.
    + intros j ? _. by apply Hlater.
  - intros Hall. rewrite repair_scan_exhausted; [done|].
    intros j _. apply Hall.
Qed.

End JsonHandlerProperties.

Lemma safe_load_degrades_to_default_witness :
  fst (safe_load "/p.json" Examples.fallback Examples.empty_world)
  = Ret Examples.fallback.
Proof.
  destruct (safe_load_degrades_to_default "/p.json" Examples.fallback
              Examples.empty_world) as (_ & Habsent & _).
  apply Habsent. reflexivity.
Defined.

Lemma safe_load_none_default_counterexample :
  w_files Examples.empty_world !! "/p.json" = None
  /\ fst (safe_load "/p.json" VNone Examples.empty_world) = Ret (VDict [])
  /\ fst (safe_load "/p.json" VNone Examples.empty_world) <> Ret VNone.
Proof. repeat split. discriminate. Qed.

Lemma safe_load_repair_tries_every_closer_witness :
  fst (safe_load "/f.json" Examples.fallback Examples.repair_world)
  = Ret (VList [VInt 1]).
Proof.
  destruct (safe_load_repair_tries_every_closer "/f.json" Examples.fallback
              Examples.repair_world Examples.repair_content) as [Hfound _].
  - reflexivity.
  - reflexivity.
  - apply (Hfound 2).
    + exists "]"%char. split; reflexivity.
    + reflexivity.
    + intros j Hj [c [Hc Hclose]].
      do 3 (destruct j as [|j]; [lia|]).
      destruct j as [|j]; [reflexivity|]. discriminate.
Defined.

Lemma repair_last_closer_counterexample :
  json_loads Examples.repair_content = Raise JSONDecodeError
  /\ closer_at Examples.repair_content 3
  /\ (forall j, 3 < j -> ~ closer_at Examples.repair_content j)
  /\ json_loads (prefix_to Examples.repair_content 3) = Raise JSONDecodeError
  /\ fst (safe_load "/f.json" Examples.fallback Examples.repair_world)
     = Ret (VList [VInt 1])
  /\ fst (safe_load "/f.json" Examples.fallback Examples.repair_world)
     <> Ret Examples.fallback.
Proof.
  repeat split.
  - exists "}"%char. split; reflexivity.
  - intros j Hj [c [Hc _]]. do 4 (destruct j as [|j]; [lia|]). discriminate.
  - discriminate.
Qed.

Section SaveProperties.
Context `{PyRuntime}.

Lemma save_attempt_done filepath data w w' :
  save_attempt filepath data w = (Ret tt, w') ->
  w_files w' !! filepath = Some (Text (json_dumps data))
  /\ w_out w' = w_out w.
Proof.
  unfold save_attempt, json_load, io_step, write_file, move_file, open_read,
    catch, bind, lift, ret, raise, set_files.
  destruct (w_faults w) as [|[] rest]; simpl; try discriminate;
    rewrite lookup_insert_eq; simpl;
    (destruct (json_loads (json_dumps data)) as [v|e]; simpl;
     [ rewrite lookup_insert_eq; intros [= <-]; simpl;
       by rewrite lookup_insert_eq
     | by destruct e ]).
Qed.

Lemma save_attempt_clean filepath data w v :
  hd false (w_faults w) = false ->
  json_loads (json_dumps data) = Ret v ->
  save_attempt filepath data w =
    (Ret tt,
     World (<[filepath := Text (json_dumps data)]>
              (delete (filepath +:+ ".tmp")
                 (<[filepath +:+ ".tmp" := Text (json_dumps data)]> (w_files w))))
       (w_out w) (tl (w_faults w)) (w_ticks w)).
Proof.
  intros Hfault Hv.
  unfold save_attempt, json_load, io_step, write_file, move_file, open_read,
    catch, bind, lift, ret, raise, set_files.
  destruct w as [files out faults ticks]. simpl in *.
  destruct faults as [|[] rest]; simpl in *; try discriminate;
    rewrite lookup_insert_eq; simpl; rewrite Hv; simpl;
    by rewrite lookup_insert_eq.
Qed.

Lemma save_loop_true filepath data max_retries remaining :
  forall attempt w w',
    save_loop filepath data max_retries attempt remaining w = (Ret true, w') ->
    w_files w' !! filepath = Some (Text (json_dumps data)).
Proof.
  induction remaining as [|remaining IH]; intros attempt w w'; simpl.
  - unfold ret. discriminate.
  - unfold catch at 1. unfold bind at 1.
    destruct (save_attempt filepath data w) as [[[]|e] w1] eqn:Hatt.
    + unfold ret. intros [= <-]. by apply save_attempt_done in Hatt as [? _].
    + destruct (attempt <? max_retries - 1).
      * unfold bind, print, remove_file. simpl. apply IH.
      * unfold bind, print, remove_file, ret. simpl. discriminate.
Qed.

Lemma save_loop_returns filepath data max_retries remaining :
  forall attempt w,
    exists b w', save_loop filepath data max_retries attempt remaining w
                 = (Ret b, w').
Proof.
  induction remaining as [|remaining IH]; intros attempt w; simpl.
  - unfold ret. eauto.
  - unfold catch at 1. unfold bind at 1.
    destruct (save_attempt filepath data w) as [[[]|e] w1] eqn:Hatt.
    + unfold ret. eauto.
    + destruct (attempt <? max_retries - 1).
      * unfold bind, print, remove_file. simpl. apply IH.
      * unfold bind, print, remove_file, ret. simpl. eauto.
Qed.

Lemma safe_save_clean filepath data w v :
  hd false (w_faults w) = false ->
  json_loads (json_dumps data) = Ret v ->
  exists w', safe_save filepath data 3 w = (Ret true, w')
             /\ w_files w' !! filepath = Some (Text (json_dumps data))
             /\ w_out w' = w_out w.
Proof.
  intros Hfault Hv. unfold safe_save. simpl.
  unfold catch at 1. unfold bind at 1.
  rewrite (save_attempt_clean _ _ _ v Hfault Hv). unfold ret.
  eexists. split; [reflexivity|]. simpl. by rewrite lookup_insert_eq.
Qed.

(** The document [merge_monthly] hands to [safe_save]. *)
Lemma merge_monthly_body_spec session_record monthly_filepath w :
  merge_monthly_body session_record monthly_filepath w =
    let loaded := loaded_value (w_files w !! monthly_filepath) empty_partition in
    let w1 := World (w_files w)
                (w_out w ++ load_warnings monthly_filepath
                              (w_files w !! monthly_filepath))
                (w_faults w) (w_ticks w) in
    let d0 := match loaded with VDict d => d | _ => [("sessions", VList [])] end in
    let d1 := if dict_has "sessions" d0 then d0
              else dict_set "sessions" (VList []) d0 in
    match dict_get "sessions" d1 with
    | Some (VList l) =>
        match session_record with
        | VDict r =>
            safe_save monthly_filepath
              (VDict (dict_set "last_updated"
                        (match dict_get "timestamp" r with
                         | Some t => t | None => VNone end)
                        (dict_set "count" (VInt (Z.of_nat (length (l ++ [session_record]))))
                           (dict_set "sessions" (VList (l ++ [session_record])) d1))))
              3 w1
        | _ => (Raise AttributeError, w1)
        end
    | _ => (Raise AttributeError, w1)
    end.
Proof.
  unfold merge_monthly_body. unfold bind at 1. rewrite safe_load_spec.
  cbv zeta.
  set (d0 := match loaded_value _ _ with VDict d => d | _ => _ end).
  set (d1 := if dict_has "sessions" d0 then d0 else _).
  assert (Hd1 : exists s, dict_get "sessions" d1 = Some s).
  { subst d1. unfold dict_has. destruct (dict_get "sessions" d0) eqn:E; eauto.
    rewrite dict_get_set_eq. eauto. }
  destruct Hd1 as [s Hs]. rewrite Hs.
  unfold bind, lift, py_append, py_len, py_get.
  destruct s; try reflexivity.
  destruct session_record; reflexivity.
Qed.

(** C9. When an append is saved, the saved document holds the prior
    sessions followed by the new episode, its [count] is the length of that
    list and its [last_updated] is the timestamp of the episode, whatever
    [count] and [last_updated] the file held before. *)
Theorem merge_monthly_recomputes_metadata session_record monthly_filepath w w' :
  merge_monthly session_record monthly_filepath w = (Ret true, w') ->
  exists doc sessions,
    w_files w' !! monthly_filepath = Some (Text (json_dumps (VDict doc)))
    /\ sessions =
         prior_sessions
           (loaded_value (w_files w !! monthly_filepath) empty_partition)
         ++ [session_record]
    /\ dict_get "sessions" doc = Some (VList sessions)
    /\ dict_get "count" doc = Some (VInt (Z.of_nat (length sessions)))
    /\ dict_get "last_updated" doc = Some (timestamp_of session_record).
Proof.
  unfold merge_monthly, catch. rewrite merge_monthly_body_spec. cbv zeta.
  set (loaded := loaded_value _ _).
  set (d0 := match loaded with VDict d => d | _ => _ end).
  set (d1 := if dict_has "sessions" d0 then d0 else _).
  assert (Hprior : forall l, dict_get "sessions" d1 = Some (VList l) ->
                             l = prior_sessions loaded).
  { intros l. subst d1 d0. unfold prior_sessions, partition_sessions, dict_has.
    destruct loaded as [| | | | |d]; simpl; try (by intros [= <-]).
    destruct (dict_get "sessions" d) as [s|] eqn:E.
    - rewrite E. by intros [= ->].
    - rewrite dict_get_set_eq. by intros [= <-]. }
  destruct (dict_get "sessions" d1) as [[| | | |l|]|] eqn:Hs;
    try (unfold bind, print, ret; simpl; discriminate).
  destruct session_record as [| | | | |r];
    try (unfold bind, print, ret; simpl; discriminate).
  match goal with
  | |- context [safe_save ?p ?doc ?n ?w1] =>
      destruct (safe_save p doc n w1) as [[b|e] w2] eqn:Hsave
  end; [|unfold bind, print, ret; simpl; discriminate].
  intros [= -> ->].
  apply save_loop_true in Hsave.
  eexists _, _. split; [exact Hsave|].
  rewrite <- (Hprior l eq_refl).
  split; [reflexivity|].
  rewrite !dict_get_set_ne by reflexivity.
  rewrite dict_get_set_eq.
  split; [reflexivity|]. split.
  - rewrite dict_get_set_ne by reflexivity. by rewrite dict_get_set_eq.
  - by rewrite dict_get_set_eq.
Qed.

(** An append goes through when the sessions of the loaded document, if it
    has any, are a list, the episode is a mapping, the I/O of the first
    attempt does not fail and what is dumped parses again. *)
Lemma merge_monthly_succeeds session_record record monthly_filepath w :
  session_record = VDict record ->
  (forall d x,
     loaded_value (w_files w !! monthly_filepath) empty_partition = VDict d ->
     dict_get "sessions" d = Some x -> is_list x = true) ->
  hd false (w_faults w) = false ->
  (forall doc, exists v, json_loads (json_dumps doc) = Ret v) ->
  exists w', merge_monthly session_record monthly_filepath w = (Ret true, w').
Proof.
  intros -> Hlist Hfault Hdump.
  unfold merge_monthly, catch. rewrite merge_monthly_body_spec. cbv zeta.
  set (loaded := loaded_value _ _) in *.
  set (d0 := match loaded with VDict d => d | _ => _ end).
  set (d1 := if dict_has "sessions" d0 then d0 else _).
  assert (Hd1 : exists l, dict_get "sessions" d1 = Some (VList l)).
  { subst d1 d0. unfold dict_has.
    destruct loaded as [| | | | |d] eqn:El; simpl; eauto.
    destruct (dict_get "sessions" d) as [x|] eqn:E.
    - rewrite E. specialize (Hlist d x eq_refl E). destruct x; try done. eauto.
    - rewrite dict_get_set_eq. eauto. }
  destruct Hd1 as [l ->].
  match goal with
  | |- context [safe_save ?p ?doc ?n ?w1] =>
      destruct (Hdump doc) as [v Hv];
      destruct (safe_save_clean p doc w1 v Hfault Hv) as (w' & -> & _)
  end.
  eauto.
Qed.

(** C10. A partition that loads as something other than a mapping is
    replaced by a fresh document holding only the new episode, and one that
    loads as a mapping without [sessions] keeps its other fields and gets
    the new episode as its only session. The append is the save of that
    document: it prints nothing of its own and succeeds when the save
    does. *)
Theorem merge_monthly_discards_silently session_record record
  monthly_filepath w loaded :
  session_record = VDict record ->
  loaded_value (w_files w !! monthly_filepath) empty_partition = loaded ->
  (forall d, loaded = VDict d -> dict_get "sessions" d = None) ->
  let kept := match loaded with VDict d => d | _ => [] end in
  let doc := restarted_partition kept session_record in
  merge_monthly session_record monthly_filepath w
  = safe_save monthly_filepath doc 3 (after_load monthly_filepath w)
  /\ (is_dict loaded = false ->
      doc = VDict [("sessions", VList [session_record]); ("count", VInt 1);
                   ("last_updated", timestamp_of session_record)])
  /\ (hd false (w_faults w) = false ->
      (exists v, json_loads (json_dumps doc) = Ret v) ->
      exists w',
        merge_monthly session_record monthly_filepath w = (Ret true, w')
        /\ w_files w' !! monthly_filepath = Some (Text (json_dumps doc))
        /\ w_out w' = w_out (after_load monthly_filepath w)).
Proof.
  intros -> Hload Hnokey kept doc.
  assert (Hmerge : merge_monthly (VDict record) monthly_filepath w
                   = safe_save monthly_filepath doc 3
                       (after_load monthly_filepath w)).
  { unfold merge_monthly, catch. rewrite merge_monthly_body_spec. cbv zeta.
    rewrite Hload. fold (after_load monthly_filepath w).
    assert (Hdoc :
      (let d0 := match loaded with VDict d => d | _ => [("sessions", VList [])] end in
       let d1 := if dict_has "sessions" d0 then d0
                 else dict_set "sessions" (VList []) d0 in
       dict_get "sessions" d1 = Some (VList [])
       /\ dict_set "sessions" (VList [VDict record]) d1
          = dict_set "sessions" (VList [VDict record]) kept)).
    { subst kept. destruct loaded as [| | | | |d]; simpl; auto.
      unfold dict_has. rewrite (Hnokey d eq_refl).
      split; [apply dict_get_set_eq|]. apply dict_set_set. }
    cbv zeta in Hdoc. destruct Hdoc as [Hget Hset]. rewrite Hget.
    change ([] ++ [VDict record]) with [VDict record]. rewrite Hset.
    change (Z.of_nat (length [VDict record])) with 1%Z.
    change (VDict (dict_set "last_updated" _ _)) with doc.
    destruct (save_loop_returns monthly_filepath doc 3 3 0
                (after_load monthly_filepath w)) as (b & w2 & Hs).
    unfold safe_save. by rewrite Hs. }
  split; [exact Hmerge|]. split.
  - subst doc kept. by destruct loaded.
  - intros Hfault [v Hv]. rewrite Hmerge. by apply (safe_save_clean _ _ _ v).
Qed.

End SaveProperties.

Lemma merge_monthly_recomputes_metadata_witness :
  exists doc,
    w_files (snd (merge_monthly Examples.rec2 "/e/sessions-2025-12.json"
                    Examples.stale_world)) !! "/e/sessions-2025-12.json"
    = Some (Text (json_dumps (VDict doc)))
    /\ dict_get "sessions" doc = Some (VList [Examples.rec1; Examples.rec2])
    /\ dict_get "count" doc = Some (VInt 2)
    /\ dict_get "last_updated" doc = Some (VStr "2025-12-31T10:00:00Z").
Proof.
  destruct (merge_monthly_recomputes_metadata Examples.rec2
              "/e/sessions-2025-12.json" Examples.stale_world
              (snd (merge_monthly Examples.rec2 "/e/sessions-2025-12.json"
                      Examples.stale_world)))
    as (doc & sessions & Hfile & Hsessions & H1 & H2 & H3).
  - vm_compute. reflexivity.
  - exists doc. split; [exact Hfile|].
    assert (sessions = [Examples.rec1; Examples.rec2]) as -> by (subst; reflexivity).
    auto.
Defined.

Lemma merge_monthly_discards_silently_witness :
  exists w',
    merge_monthly Examples.rec2 "/e/sessions-2025-12.json" Examples.list_world
    = (Ret true, w')
    /\ w_files w' !! "/e/sessions-2025-12.json"
       = Some (Text (json_dumps
            (VDict [("sessions", VList [Examples.rec2]); ("count", VInt 1);
                    ("last_updated", VStr "2025-12-31T10:00:00Z")])))
    /\ w_out w' = [].
Proof.
  destruct (merge_monthly_discards_silently Examples.rec2
              [("session_id", VStr "s2");
               ("timestamp", VStr "2025-12-31T10:00:00Z")]
              "/e/sessions-2025-12.json" Examples.list_world
              (VList [VInt 1; VInt 2]))
    as (_ & _ & Hok); try reflexivity.
  - intros d [=].
  - apply Hok; [reflexivity|]. eexists. vm_compute. reflexivity.
Defined.

(** A mapping without [sessions] keeps its other fields. *)
Example merge_monthly_keeps_other_fields :
  exists w',
    merge_monthly Examples.rec2 "/e/sessions-2025-12.json"
      Examples.no_sessions_world = (Ret true, w')
    /\ w_files w' !! "/e/sessions-2025-12.json"
       = Some (Text (json_dumps
            (VDict [("owner", VStr "me"); ("sessions", VList [Examples.rec2]);
                    ("count", VInt 1);
                    ("last_updated", VStr "2025-12-31T10:00:00Z")])))
    /\ w_out w' = [].
Proof. eexists. vm_compute. repeat split. Qed.

(** ** extract.py: loading the partitions *)

Lemma is_valid_partition_iff doc :
  is_valid_partition doc = true
  <-> exists d l, doc = VDict d /\ dict_get "sessions" d = Some (VList l).
Proof.
  unfold is_valid_partition, partition_sessions. split.
  - destruct doc as [| | | | |d]; try done.
    destruct (dict_get "sessions" d) as [[]|] eqn:E; try done.
    intros _. eauto.
  - intros (d & l & -> & Hget). by rewrite Hget.
Qed.

Section LoadProperties.
Context `{PyRuntime}.

Lemma load_partition_spec monthly_file all_sessions corrupted_files w :
  exists w',
    load_partition monthly_file all_sessions corrupted_files w =
      (Ret (match partition_sessions (partition_doc (w_files w) monthly_file) with
            | Some l => (all_sessions ++ l, corrupted_files)
            | None => (all_sessions, corrupted_files ++ [monthly_file])
            end), w')
    /\ w_files w' = w_files w.
Proof.
  unfold load_partition, catch. unfold bind at 1. rewrite safe_load_spec.
  unfold partition_doc.
  destruct (loaded_value (w_files w !! monthly_file) VNone) as [|b|z|s|l|d];
    unfold bind, lift, print, ret, py_contains, py_getitem, partition_sessions;
    simpl; eauto.
  - destruct (is_infix _ _); simpl; eauto.
  - destruct (existsb _ l); simpl; eauto.
  - unfold dict_has. destruct (dict_get "sessions" d) as [[]|]; simpl; eauto.
Qed.

Lemma load_all_loop_spec monthly_files :
  forall all_sessions corrupted_files w,
  exists w',
    load_all_loop monthly_files all_sessions corrupted_files w =
      (Ret (all_sessions
              ++ concat (map (fun p => prior_sessions (partition_doc (w_files w) p))
                           monthly_files),
            corrupted_files
              ++ List.filter
                   (fun p => negb (is_valid_partition (partition_doc (w_files w) p)))
                   monthly_files), w')
    /\ w_files w' = w_files w.
Proof.
  induction monthly_files as [|f rest IH]; intros all_sessions corrupted_files w.
  - exists w. simpl. unfold ret. by rewrite !app_nil_r.
  - simpl. unfold bind at 1.
    destruct (load_partition_spec f all_sessions corrupted_files w)
      as (w1 & -> & Hfiles).
    destruct (IH
      (fst match partition_sessions (partition_doc (w_files w) f) with
           | Some l => (all_sessions ++ l, corrupted_files)
           | None => (all_sessions, corrupted_files ++ [f])
           end)
      (snd match partition_sessions (partition_doc (w_files w) f) with
           | Some l => (all_sessions ++ l, corrupted_files)
           | None => (all_sessions, corrupted_files ++ [f])
           end) w1) as (w2 & -> & Hfiles2).
    exists w2. rewrite Hfiles. split; [|congruence].
    unfold prior_sessions, is_valid_partition.
    destruct (partition_sessions (partition_doc (w_files w) f)); simpl;
      by rewrite <- !app_assoc.
Qed.

(** C1 (as amended). [load_all_sessions] never raises. It returns the
    sessions of the partitions that load, after repair by truncation when
    the text does not parse, as a mapping whose [sessions] is a list, in
    the order of the sorted paths, and reports every other partition path
    as corrupt. *)
Theorem load_all_sessions_skips_invalid episodic_dir w :
  exists monthly_files w',
    glob_sessions episodic_dir w = (Ret monthly_files, w)
    /\ load_all_sessions episodic_dir w =
         (Ret (concat (map (fun p => prior_sessions (partition_doc (w_files w) p))
                         monthly_files),
               List.filter
                 (fun p => negb (is_valid_partition (partition_doc (w_files w) p)))
                 monthly_files), w')
    /\ w_files w' = w_files w.
Proof.
  unfold load_all_sessions, glob_sessions. unfold bind at 1.
  eexists. destruct (load_all_loop_spec
    (sorted_paths (filter (fun p => is_partition_path episodic_dir p = true)
                     (map fst (map_to_list (w_files w))))) [] [] w)
    as (w' & Hloop & Hfiles).
  exists w'. split; [reflexivity|]. split; [exact Hloop|exact Hfiles].
Qed.

End LoadProperties.

Lemma load_all_sessions_repaired_partition_counterexample :
  json_loads Examples.trailing_garbage = Raise JSONDecodeError
  /\ fst (load_all_sessions "/e" Examples.two_partitions)
     = Ret ([Examples.rec1; Examples.rec2], [])
  /\ fst (load_all_sessions "/e" Examples.two_partitions)
     <> Ret ([Examples.rec2], ["/e/sessions-2025-11.json"]).
Proof. repeat split. vm_compute. discriminate. Qed.

(** The scenario of the partition [{sessions: not-a-list}]: it and the
    truncated partition are reported, the valid one is read, the index is
    not a partition. *)
Example load_all_sessions_not_a_list :
  fst (load_all_sessions "/e" Examples.three_partitions)
  = Ret ([Examples.rec2],
         ["/e/sessions-2025-10.json"; "/e/sessions-2025-11.json"]).
Proof. reflexivity. Qed.

(** ** extract.py: evidence and strength *)

Lemma key_eqb_refl k : hashable k = true -> key_eqb k k = true.
Proof.
  destruct k as [|b|z|s|l|d]; simpl; try done; intros _.
  - by destruct b.
  - apply Z.eqb_refl.
  - apply String.eqb_refl.
Qed.

Lemma evidence_add_keys key session_id m k :
  In k (map fst (evidence_add key session_id m)) ->
  k = key \/ In k (map fst m).
Proof.
  induction m as [|[k0 ev] m IH]; simpl.
  - intros [<-|[]]. by left.
  - destruct (key_eqb key k0); simpl.
    + intros [<-|Hin]; auto.
    + intros [<-|Hin]; auto. destruct (IH Hin); auto.
Qed.

Lemma evidence_add_nodup key session_id m :
  hashable key = true ->
  NoDup (map fst m) -> NoDup (map fst (evidence_add key session_id m)).
Proof.
  intros Hhash. induction m as [|[k0 ev] m IH]; simpl; intros Hnd.
  - constructor; [|constructor]. by intros ?%elem_of_nil.
  - inversion Hnd as [|? ? Hnotin Hnd']; subst.
    destruct (key_eqb key k0) eqn:E; simpl; [by constructor|].
    constructor; [|by apply IH].
    intros Hin%list_elem_of_In%evidence_add_keys.
    destruct Hin as [->|Hin].
    + rewrite key_eqb_refl in E; [discriminate|done].
    + by apply Hnotin, list_elem_of_In.
Qed.

Lemma note_annotations_nodup session_id annotations :
  forall m m',
    note_annotations session_id m annotations = Ret m' ->
    NoDup (map fst m) -> NoDup (map fst m').
Proof.
  induction annotations as [|a rest IH]; intros m m'; simpl.
  - by intros [= <-].
  - unfold obind at 1.
    destruct (note_annotation session_id m a) as [m1|e] eqn:Ha; [|done].
    intros Hrest Hnd. apply (IH m1 m' Hrest).
    unfold note_annotation in Ha.
    destruct a as [| | |s| |d]; try (by injection Ha as <-).
    + injection Ha as <-. by apply evidence_add_nodup.
    + destruct (dict_get "description" d) as [desc|]; [|by injection Ha as <-].
      destruct (hashable desc) eqn:Hh; [|done].
      injection Ha as <-. by apply evidence_add_nodup.
Qed.

Lemma extract_field_nodup field sessions :
  forall m m',
    extract_field field sessions m = Ret m' ->
    NoDup (map fst m) -> NoDup (map fst m').
Proof.
  induction sessions as [|session rest IH]; intros m m'; simpl.
  - by intros [= <-].
  - unfold obind.
    destruct (py_get session "session_id" (VStr "unknown")) as [sid|]; [|done].
    destruct (py_contains field session) as [[]|]; [| |done].
    + destruct (py_getitem session field) as [annotations|]; [|done].
      destruct (py_iter annotations) as [items|]; [|done].
      destruct (note_annotations sid m items) as [m1|] eqn:Hn; [|done].
      intros Hrest Hnd. apply (IH m1 m' Hrest).
      by apply (note_annotations_nodup sid items m).
    + apply IH.
Qed.

(** When every session states the one preference, the evidence of the
    preference grows by the session ids, in order. *)
Lemma extract_field_one_preference pref sessions :
  Forall (states_preference pref) sessions ->
  forall ev,
    extract_field "user_preferences" sessions [(VStr pref, ev)]
    = Ret [(VStr pref, ev ++ map session_id_of sessions)].
Proof.
  induction 1 as [|session rest (d & -> & Hd) _ IH]; intros ev.
  - simpl. by rewrite app_nil_r.
  - cbn [extract_field py_get py_contains py_getitem py_iter obind dict_has].
    rewrite Hd.
    unfold dict_has. rewrite Hd.
    cbn [py_iter note_annotations note_annotation obind evidence_add key_eqb].
    rewrite String.eqb_refl. rewrite IH. by rewrite <- app_assoc.
Qed.

Lemma categorize_strength_monotone emerging strong critical c1 c2 :
  (c1 <= c2)%Z ->
  strength_rank (categorize_strength c1 emerging strong critical)
  <= strength_rank (categorize_strength c2 emerging strong critical).
Proof.
  intros Hle. unfold categorize_strength.
  destruct (Z.leb_spec critical c1), (Z.leb_spec critical c2),
    (Z.leb_spec strong c1), (Z.leb_spec strong c2),
    (Z.leb_spec emerging c1), (Z.leb_spec emerging c2);
    try lia; vm_compute; lia.
Qed.

Lemma categorize_strength_not_weak emerging strong critical c :
  (emerging <= c)%Z ->
  categorize_strength c emerging strong critical <> "weak".
Proof.
  intros Hle. unfold categorize_strength.
  destruct (Z.leb_spec critical c), (Z.leb_spec strong c),
    (Z.leb_spec emerging c); try lia; discriminate.
Qed.

Section ExtractProperties.
Context `{PyRuntime}.

Lemma emit_patterns_spec prefix cat items e s c :
  forall patterns w,
    emit_patterns prefix cat items e s c patterns w =
      (Ret (patterns ++ emitted prefix cat items e s c (w_ticks w)),
       World (w_files w) (w_out w) (w_faults w)
         (w_ticks w + length (emitted prefix cat items e s c (w_ticks w)))).
Proof.
  induction items as [|[d ev] rest IH]; intros patterns w; simpl.
  - unfold ret. rewrite app_nil_r, Nat.add_0_r. by rewrite world_eta.
  - destruct (e <=? Z.of_nat (length ev))%Z.
    + unfold bind, get_timestamp. rewrite IH. simpl.
      rewrite <- app_assoc. simpl. do 2 f_equal. lia.
    + apply IH.
Qed.

Lemma emitted_sound prefix cat items e s c :
  forall tick p,
    In p (emitted prefix cat items e s c tick) ->
    category p = cat
    /\ exists ev,
         In (description p, ev) items
         /\ (e <= Z.of_nat (length ev))%Z
         /\ occurrences p = Z.of_nat (length ev)
         /\ strength p = categorize_strength (Z.of_nat (length ev)) e s c
         /\ evidence p = firstn 10 ev.
Proof.
  induction items as [|[d ev] rest IH]; intros tick p; simpl; [done|].
  destruct (Z.leb_spec e (Z.of_nat (length ev))).
  - intros [<-|Hin]; simpl.
    + split; [done|]. exists ev. auto 10.
    + destruct (IH _ _ Hin) as (? & ev' & ? & ?). split; [done|].
      exists ev'. auto.
  - intros Hin. destruct (IH _ _ Hin) as (? & ev' & ? & ?). split; [done|].
    exists ev'. auto.
Qed.

Lemma emitted_complete prefix cat items e s c d ev :
  In (d, ev) items -> (e <= Z.of_nat (length ev))%Z ->
  forall tick,
    exists p,
      In p (emitted prefix cat items e s c tick)
      /\ category p = cat /\ description p = d
      /\ occurrences p = Z.of_nat (length ev)
      /\ strength p = categorize_strength (Z.of_nat (length ev)) e s c
      /\ evidence p = firstn 10 ev.
Proof.
  intros Hin Hle. induction items as [|[d0 ev0] rest IH]; intros tick;
    simpl in *; [done|].
  destruct Hin as [[= -> ->]|Hin].
  - destruct (Z.leb_spec e (Z.of_nat (length ev))); [|lia].
    eexists. split; [by left|]. simpl. auto 10.
  - destruct (e <=? Z.of_nat (length ev0))%Z.
    + destruct (IH Hin (S tick)) as (p & ? & ?). exists p. split; [by right|done].
    + apply (IH Hin).
Qed.

Lemma detect_frequency_patterns_spec sessions e s c preferences codes antis w :
  extract_user_preferences sessions = Ret preferences ->
  extract_code_patterns sessions = Ret codes ->
  extract_anti_patterns sessions = Ret antis ->
  exists t1 t2 w',
    detect_frequency_patterns sessions e s c w =
      (Ret (emitted "pref" "preference" preferences e s c (w_ticks w)
            ++ emitted "code" "code_pattern" codes e s c t1
            ++ emitted "anti" "anti_pattern" antis e s c t2), w').
Proof.
  intros Hp Hc Ha. unfold detect_frequency_patterns.
  rewrite Hp, Hc, Ha. unfold bind, lift.
  rewrite !emit_patterns_spec. simpl. rewrite <- app_assoc. eauto.
Qed.

(** C7. Twelve episodes that each state the one preference, under the
    thresholds 2, 3 and 5, give exactly one preference pattern: it has 12
    occurrences and strength critical, and its evidence is the session ids
    of the first ten episodes in order. *)
Theorem twelve_episodes_one_critical_preference pref sessions codes antis w :
  length sessions = 12 ->
  Forall (states_preference pref) sessions ->
  extract_code_patterns sessions = Ret codes ->
  extract_anti_patterns sessions = Ret antis ->
  exists p others w',
    detect_frequency_patterns sessions 2 3 5 w = (Ret (p :: others), w')
    /\ category p = "preference"
    /\ description p = VStr pref
    /\ occurrences p = 12%Z
    /\ strength p = "critical"
    /\ evidence p = firstn 10 (map session_id_of sessions)
    /\ length (evidence p) = 10
    /\ Forall (fun q => category q <> "preference") others.
Proof.
  intros Hlen Hall Hc Ha.
  assert (Hp : extract_user_preferences sessions
               = Ret [(VStr pref, map session_id_of sessions)]).
  { unfold extract_user_preferences.
    destruct Hall as [|session rest (d & -> & Hd) Hrest]; [discriminate|].
    cbn [extract_field py_get py_contains py_getitem py_iter obind dict_has].
    rewrite Hd.
    unfold dict_has. rewrite Hd.
    cbn [py_iter note_annotations note_annotation obind evidence_add].
    by rewrite extract_field_one_preference. }
  destruct (detect_frequency_patterns_spec sessions 2 3 5 _ _ _ w Hp Hc Ha)
    as (t1 & t2 & w' & ->).
  cbn [emitted]. rewrite length_map, Hlen.
  change (2 <=? Z.of_nat 12)%Z with true. cbn iota.
  eexists _, _, w'. split; [reflexivity|]. cbn [category description
    occurrences strength evidence].
  repeat split.
  - rewrite length_firstn, length_map, Hlen. reflexivity.
  - apply Forall_app. split; apply Forall_forall; intros q Hq.
    + apply list_elem_of_In, emitted_sound in Hq as [-> _]. discriminate.
    + apply list_elem_of_In, emitted_sound in Hq as [-> _]. discriminate.
Qed.

(** C8. The strength is monotone in the occurrence count, and in every
    category a description whose evidence has one entry less than the
    emerging threshold gives no pattern, while one whose evidence has as
    many entries as the threshold gives a pattern, which is not weak. *)
Theorem strength_monotone_and_filtered_at_emerging emerging strong critical :
  (emerging <= strong)%Z -> (strong <= critical)%Z ->
  (forall c1 c2,
     (c1 <= c2)%Z ->
     strength_rank (categorize_strength c1 emerging strong critical)
     <= strength_rank (categorize_strength c2 emerging strong critical))
  /\ (forall sessions preferences codes antis w,
        extract_user_preferences sessions = Ret preferences ->
        extract_code_patterns sessions = Ret codes ->
        extract_anti_patterns sessions = Ret antis ->
        exists patterns w',
          detect_frequency_patterns sessions emerging strong critical w
          = (Ret patterns, w')
          /\ forall cat items d ev,
               In (cat, items) [("preference", preferences);
                                ("code_pattern", codes);
                                ("anti_pattern", antis)] ->
               In (d, ev) items ->
               (Z.of_nat (length ev) = (emerging - 1)%Z ->
                forall p, In p patterns -> category p = cat ->
                          description p <> d)
               /\ (Z.of_nat (length ev) = emerging ->
                   exists p, In p patterns /\ category p = cat
                             /\ description p = d
                             /\ occurrences p = emerging
                             /\ strength p <> "weak")).
Proof.
  intros Hes Hsc. split; [intros; by apply categorize_strength_monotone|].
  intros sessions preferences codes antis w Hp Hc Ha.
  destruct (detect_frequency_patterns_spec sessions emerging strong critical
              _ _ _ w Hp Hc Ha) as (t1 & t2 & w' & ->).
  eexists _, w'. split; [reflexivity|].
  assert (Hnd : forall field m, extract_field field sessions [] = Ret m ->
                                NoDup (map fst m)).
  { intros field m Hm. apply (extract_field_nodup _ _ _ _ Hm). constructor. }
  assert (Hkey : forall (m : evidence_map) d ev ev',
            NoDup (map fst m) -> In (d, ev) m -> In (d, ev') m -> ev = ev').
  { clear. induction m as [|[k0 e0] m IH]; simpl; intros d ev ev' Hnd; [done|].
    inversion Hnd as [|? ? Hnotin Hnd']; subst.
    intros [E1|H1] [E2|H2].
    - congruence.
    - injection E1 as -> ->. destruct Hnotin.
      apply list_elem_of_In, in_map_iff. by exists (d, ev').
    - injection E2 as -> ->. destruct Hnotin.
      apply list_elem_of_In, in_map_iff. by exists (d, ev).
    - by apply (IH d). }
  intros cat items d ev Hcat Hin.
  assert (Hitems : NoDup (map fst items)).
  { destruct Hcat as [[= <- <-]|[[= <- <-]|[[= <- <-]|[]]]]; eapply Hnd; eauto. }
  split.
  - intros Hlen p Hp' Hcatp Hdesc.
    assert (Hin' : In p (emitted (if String.eqb cat "preference" then "pref"
                                  else if String.eqb cat "code_pattern" then "code"
                                  else "anti") cat items emerging strong critical
                           (if String.eqb cat "preference" then w_ticks w
                            else if String.eqb cat "code_pattern" then t1
                            else t2))).
    { rewrite !in_app_iff in Hp'.
      destruct Hcat as [[= <- <-]|[[= <- <-]|[[= <- <-]|[]]]];
        destruct Hp' as [Hq|[Hq|Hq]]; try exact Hq;
        apply emitted_sound in Hq as [Hq _]; rewrite Hcatp in Hq;
        discriminate. }
    apply emitted_sound in Hin' as (_ & ev' & Hev' & Hge & _).
    rewrite Hdesc in Hev'. rewrite (Hkey items d ev ev' Hitems Hin Hev') in Hlen.
    lia.
  - intros Hlen.
    assert (Hge : (emerging <= Z.of_nat (length ev))%Z) by lia.
    assert (Hex : forall prefix tick, exists p,
              In p (emitted prefix cat items emerging strong critical tick)
              /\ category p = cat /\ description p = d
              /\ occurrences p = emerging /\ strength p <> "weak").
    { intros prefix tick.
      destruct (emitted_complete prefix cat items emerging strong critical
                  d ev Hin Hge tick) as (p & ? & ? & ? & Hocc & Hstr & _).
      exists p. repeat split; try done; [congruence|].
      rewrite Hstr. by apply categorize_strength_not_weak. }
    destruct Hcat as [[= <- <-]|[[= <- <-]|[[= <- <-]|[]]]].
    + destruct (Hex "pref" (w_ticks w)) as (p & ? & ?). exists p.
      rewrite !in_app_iff. auto.
    + destruct (Hex "code" t1) as (p & ? & ?). exists p.
      rewrite !in_app_iff. auto.
    + destruct (Hex "anti" t2) as (p & ? & ?). exists p.
      rewrite !in_app_iff. auto.
Qed.

End ExtractProperties.

Lemma twelve_episodes_one_critical_preference_witness :
  exists p w',
    detect_frequency_patterns Examples.twelve_episodes 2 3 5 Examples.empty_world
    = (Ret [p; {| pattern_id := make_pattern_id "code" (VStr "Use TDD workflow");
                  description := VStr "Use TDD workflow";
                  category := "code_pattern";
                  strength := "critical";
                  occurrences := 12;
                  evidence := firstn 10 (map session_id_of Examples.twelve_episodes);
                  detected_at := clock_reading 1 |}], w')
    /\ description p = VStr Examples.preference
    /\ occurrences p = 12%Z
    /\ strength p = "critical"
    /\ length (evidence p) = 10.
Proof.
  destruct (twelve_episodes_one_critical_preference Examples.preference
              Examples.twelve_episodes
              [(VStr "Use TDD workflow", map session_id_of Examples.twelve_episodes)]
              [] Examples.empty_world)
    as (p & others & w' & Hrun & _ & Hd & Ho & Hs & _ & Hl & _).
  - reflexivity.
  - repeat constructor; eexists; (split; [reflexivity|reflexivity]).
  - reflexivity.
  - reflexivity.
  - exists p, w'. repeat split; try assumption.
    rewrite Hrun. f_equal.
    assert (Heq : fst (detect_frequency_patterns Examples.twelve_episodes 2 3 5
                         Examples.empty_world) = Ret (p :: others))
      by (by rewrite Hrun).
    vm_compute in Heq. injection Heq as <- <-. reflexivity.
Defined.

Lemma strength_monotone_and_filtered_at_emerging_witness :
  strength_rank (categorize_strength 1 2 3 5)
  <= strength_rank (categorize_strength 2 2 3 5)
  /\ exists patterns w',
       detect_frequency_patterns Examples.three_sessions 2 3 5
         Examples.empty_world = (Ret patterns, w')
       /\ (forall p, In p patterns -> category p = "preference" ->
                     description p <> VStr "once")
       /\ (exists p, In p patterns /\ category p = "preference"
                     /\ description p = VStr "twice"
                     /\ strength p <> "weak").
Proof.
  destruct (strength_monotone_and_filtered_at_emerging 2 3 5) as [Hmono Hfilter];
    [lia|lia|].
  split; [apply Hmono; lia|].
  destruct (Hfilter Examples.three_sessions
              [(VStr "twice", [VStr "a"; VStr "b"]); (VStr "once", [VStr "a"])]
              [] [] Examples.empty_world)
    as (patterns & w' & Hrun & Hall); try reflexivity.
  exists patterns, w'. split; [exact Hrun|]. split.
  - intros p Hp Hcat.
    destruct (Hall "preference"
                [(VStr "twice", [VStr "a"; VStr "b"]); (VStr "once", [VStr "a"])]
                (VStr "once") [VStr "a"]) as [Hout _];
      [by left|right; by left|].
    by apply Hout.
  - destruct (Hall "preference"
                [(VStr "twice", [VStr "a"; VStr "b"]); (VStr "once", [VStr "a"])]
                (VStr "twice") [VStr "a"; VStr "b"]) as [_ Hin];
      [by left|by left|].
    destruct Hin as (p & ? & ? & ? & _ & ?); [reflexivity|]. by exists p.
Defined.

(** ** config.py *)

Lemma _parse_int_in_range yaml_content key default min_val max_val :
  (min_val <= default <= max_val)%Z ->
  (min_val <= _parse_int yaml_content key default min_val max_val <= max_val)%Z.
Proof.
  intros Hd. unfold _parse_int.
  destruct (search_group _ _); [|lia].
  destruct (_ <? _); lia.
Qed.

(** What [load_config] does ensure: each threshold lies between 1 and 100. *)
Lemma load_config_thresholds_clamped project_path w :
  exists config w',
    load_config project_path w = (Ret config, w')
    /\ (1 <= emerging_pattern config <= 100)%Z
    /\ (1 <= strong_pattern config <= 100)%Z
    /\ (1 <= critical_pattern config <= 100)%Z.
Proof.
  unfold load_config, path_exists, catch, open_read. unfold bind at 1.
  destruct (w_files w !! config_path project_path) as [[content|]|] eqn:Hf;
    cbn [negb]; unfold bind, ret, print; rewrite ?Hf.
  - destruct (search_group frontmatter content) as [yaml|].
    + eexists _, _. split; [reflexivity|]. cbn [emerging_pattern
        strong_pattern critical_pattern parse_config].
      repeat split; apply _parse_int_in_range; lia.
    + eexists _, _. split; [reflexivity|]. simpl. lia.
  - eexists _, _. split; [reflexivity|]. simpl. lia.
  - eexists _, _. split; [reflexivity|]. simpl. lia.
Qed.

(** C2. A configuration whose thresholds are out of order is loaded as it
    is: [load_config] clamps each threshold on its own and never calls
    [validate_config], which rejects the result. *)
Theorem load_config_keeps_unordered_thresholds :
  exists config w',
    load_config "/p" Examples.config_world = (Ret config, w')
    /\ emerging_pattern config = 50%Z
    /\ strong_pattern config = 3%Z
    /\ critical_pattern config = 5%Z
    /\ ~ (emerging_pattern config <= strong_pattern config)%Z
    /\ validate_config config = false.
Proof.
  eexists _, _. split; [vm_compute; reflexivity|].
  repeat split. simpl. lia.
Qed.

(** ** redaction.py *)

Lemma dict_set_fresh k v d :
  ~ In k (map fst d) -> dict_set k v d = d ++ [(k, v)].
Proof.
  induction d as [|[k0 v0] d IH]; simpl; intros Hnotin; [done|].
  destruct (String.eqb_spec k k0) as [->|Hne].
  - destruct Hnotin. by left.
  - rewrite IH; [done|]. intros Hin. apply Hnotin. by right.
Qed.

Lemma dict_get_map (g : value -> value) k d :
  dict_get k (map (fun kv => (fst kv, g (snd kv))) d)
  = option_map g (dict_get k d).
Proof.
  induction d as [|[k0 v0] d IH]; simpl; [done|].
  by destruct (String.eqb k k0).
Qed.

Lemma dict_get_in k d v : dict_get k d = Some v -> In (k, v) d.
Proof.
  induction d as [|[k0 v0] d IH]; simpl; [done|].
  destruct (String.eqb_spec k k0) as [->|Hne].
  - intros [= ->]. by left.
  - intros Hget. right. by apply IH.
Qed.

Lemma wf_value_list l : wf_value (VList l) <-> Forall wf_value l.
Proof.
  induction l as [|x l IH]; simpl in *.
  - split; [constructor|done].
  - rewrite Forall_cons. by rewrite <- IH.
Qed.

Lemma wf_value_dict d :
  wf_value (VDict d)
  <-> NoDup (map fst d) /\ Forall (fun kv => wf_value (snd kv)) d.
Proof.
  simpl. apply and_iff_compat_l.
  induction d as [|kv d IH]; simpl in *.
  - split; [constructor|done].
  - rewrite Forall_cons. by rewrite <- IH.
Qed.

Section FoldSteps.
Variable f : value -> value * nat.

Lemma fold_dict_step items :
  forall acc n,
    NoDup (map fst acc ++ map fst items) ->
    fold_left
      (fun acc kv =>
         let '(redacted_value, count) := f (snd kv) in
         (dict_set (fst kv) redacted_value (fst acc), snd acc + count))
      items (acc, n)
    = (acc ++ map (fun kv => (fst kv, fst (f (snd kv)))) items,
       n + sum_list (map (fun kv => snd (f (snd kv))) items)).
Proof.
  induction items as [|[k v] items IH]; intros acc n Hnd; simpl.
  - by rewrite app_nil_r, Nat.add_0_r.
  - destruct (f v) as [rv count] eqn:Hf. simpl.
    rewrite dict_set_fresh.
    + rewrite IH.
      * rewrite <- app_assoc. simpl. f_equal. lia.
      * rewrite map_app. simpl. by rewrite <- app_assoc.
    + intros Hin. apply NoDup_app in Hnd as (_ & Hdisj & _).
      apply (Hdisj k); [by apply list_elem_of_In|]. simpl. left.
Qed.

Lemma fold_list_step items :
  forall acc n,
    fold_left
      (fun acc item =>
         let '(redacted_item, count) := f item in
         (fst acc ++ [redacted_item], snd acc + count))
      items (acc, n)
    = (acc ++ map (fun item => fst (f item)) items,
       n + sum_list (map (fun item => snd (f item)) items)).
Proof.
  induction items as [|x items IH]; intros acc n; simpl.
  - by rewrite app_nil_r, Nat.add_0_r.
  - destruct (f x) as [rx count]. simpl. rewrite IH.
    rewrite <- app_assoc. simpl. f_equal. lia.
Qed.

End FoldSteps.

Lemma detect_and_redact_dict items patterns :
  NoDup (map fst items) ->
  detect_and_redact (VDict items) patterns
  = (VDict (map (fun kv => (fst kv, fst (detect_and_redact (snd kv) patterns)))
              items),
     sum_list (map (fun kv => snd (detect_and_redact (snd kv) patterns)) items)).
Proof.
  intros Hnd. cbn [detect_and_redact].
  rewrite (fold_dict_step (fun v => detect_and_redact v patterns)); [done|].
  exact Hnd.
Qed.

Lemma detect_and_redact_list items patterns :
  detect_and_redact (VList items) patterns
  = (VList (map (fun item => fst (detect_and_redact item patterns)) items),
     sum_list (map (fun item => snd (detect_and_redact item patterns)) items)).
Proof.
  cbn [detect_and_redact].
  by rewrite (fold_list_step (fun v => detect_and_redact v patterns)).
Qed.

Lemma detect_and_redact_shape patterns data :
  wf_value data ->
  shape_of (fst (detect_and_redact data patterns)) = shape_of data.
Proof.
  induction data as [| | |s|l IH|d IH] using value_ind; intros Hwf;
    try reflexivity.
  - cbn [detect_and_redact]. by destruct (redact_sensitive s patterns).
  - rewrite detect_and_redact_list. cbn [fst shape_of]. f_equal.
    apply wf_value_list in Hwf. rewrite map_map.
    induction IH as [|x l Hx _ IHl]; [done|].
    inversion Hwf; subst. simpl. f_equal; auto.
  - apply wf_value_dict in Hwf as [Hnd Hwf].
    rewrite detect_and_redact_dict by done. cbn [fst shape_of]. f_equal.
    rewrite map_map. clear Hnd.
    induction IH as [|kv d Hkv _ IHd]; [done|].
    inversion Hwf; subst. simpl. f_equal; auto. f_equal. auto.
Qed.

(** C6. On a mapping [detect_and_redact] redacts every value under its
    key and adds up the counts; on a sequence it redacts every element in
    place and adds up the counts; any other value that is not a string is
    returned as it is with count zero; so the shape is kept. *)
Theorem detect_and_redact_structural patterns :
  (forall items,
     NoDup (map fst items) ->
     detect_and_redact (VDict items) patterns
     = (VDict (map (fun kv => (fst kv, fst (detect_and_redact (snd kv) patterns)))
                 items),
        sum_list (map (fun kv => snd (detect_and_redact (snd kv) patterns))
                    items)))
  /\ (forall items,
        detect_and_redact (VList items) patterns
        = (VList (map (fun item => fst (detect_and_redact item patterns)) items),
           sum_list (map (fun item => snd (detect_and_redact item patterns))
                       items)))
  /\ detect_and_redact VNone patterns = (VNone, 0)
  /\ (forall b, detect_and_redact (VBool b) patterns = (VBool b, 0))
  /\ (forall z, detect_and_redact (VInt z) patterns = (VInt z, 0))
  /\ (forall data,
        wf_value data ->
        shape_of (fst (detect_and_redact data patterns)) = shape_of data).
Proof.
  split; [intros; by apply detect_and_redact_dict|].
  split; [intros; by apply detect_and_redact_list|].
  repeat split. intros. by apply detect_and_redact_shape.
Qed.

Lemma sub_no_match r replacement s :
  findall r s = [] -> sub r replacement s = s.
Proof.
  intros Hnone.
  destruct (sub_replaces_matches r replacement s)
    as (found & rest & Hs & Hfind & Hsub).
  rewrite Hnone in Hfind. destruct found; [|done]. simpl in *.
  rewrite <- Hs in Hsub. apply (f_equal text) in Hsub.
  unfold text, chars in Hsub.
  by rewrite !String.string_of_list_ascii_of_string in Hsub.
Qed.

(** One pattern of [redact_sensitive]: its matches are counted and
    replaced. *)
Lemma redact_step_spec acc p :
  redact_step acc p
  = (sub (fst p) (snd p) (fst acc),
     snd acc + length (findall (fst p) (fst acc))).
Proof.
  destruct acc as [t n]. unfold redact_step. cbn [fst snd].
  destruct (findall (fst p) t) eqn:Hfind.
  - by rewrite sub_no_match, Nat.add_0_r.
  - done.
Qed.

(** C5 (as amended). At any depth, a string leaf of the value is replaced
    by what [redact_sensitive] makes of it; [redact_sensitive] takes the
    patterns in order and, for each, counts its matches and substitutes its
    replacement text for every one of them, keeping the text in between;
    the shape of the value is unchanged. *)
Theorem detect_and_redact_rewrites_every_leaf patterns data :
  wf_value data ->
  shape_of (fst (detect_and_redact data patterns)) = shape_of data
  /\ (forall path s,
        value_at path data = Some (VStr s) ->
        value_at path (fst (detect_and_redact data patterns))
        = Some (VStr (fst (redact_sensitive s patterns))))
  /\ (forall s,
        redact_sensitive s patterns
        = fold_left
            (fun acc p =>
               (sub (fst p) (snd p) (fst acc),
                snd acc + length (findall (fst p) (fst acc))))
            (active_patterns patterns) (s, 0))
  /\ (forall r replacement s,
        exists found rest,
          chars s = concat (map (fun m => fst m ++ snd m) found) ++ rest
          /\ findall r s = map (fun m => text (snd m)) found
          /\ chars (sub r replacement s)
             = concat (map (fun m => fst m ++ chars replacement) found) ++ rest).
Proof.
  intros Hwf. split; [by apply detect_and_redact_shape|].
  split; [|split].
  - intros path. revert data Hwf.
    induction path as [|[k|i] path IH]; intros data Hwf s; simpl.
    + intros [= ->]. cbn [detect_and_redact].
      by destruct (redact_sensitive s patterns).
    + destruct data as [| | | | |d]; try done.
      apply wf_value_dict in Hwf as [Hnd Hwf].
      rewrite detect_and_redact_dict by done. cbn [fst].
      rewrite (dict_get_map (fun v => fst (detect_and_redact v patterns))).
      destruct (dict_get k d) as [x|] eqn:Hget; [|done]. simpl.
      apply IH. apply dict_get_in in Hget.
      rewrite Forall_forall in Hwf. by apply (Hwf (k, x)), list_elem_of_In.
    + destruct data as [| | | |l|]; try done.
      apply wf_value_list in Hwf.
      rewrite detect_and_redact_list. cbn [fst].
      rewrite nth_error_map.
      destruct (nth_error l i) as [x|] eqn:Hget; [|done]. simpl.
      apply IH. apply nth_error_In in Hget.
      rewrite Forall_forall in Hwf. by apply Hwf, list_elem_of_In.
  - intros s. unfold redact_sensitive. fold (active_patterns patterns).
    generalize (s, 0). induction (active_patterns patterns) as [|p ps IH];
      intros acc; simpl; [done|].
    by rewrite redact_step_spec, IH.
  - apply sub_replaces_matches.
Qed.

Lemma detect_and_redact_structural_witness :
  detect_and_redact Examples.nested_record None
  = (VDict [("user", VStr "alice");
            ("level1", VDict [("level2",
               VList [VStr "api_key=[REDACTED]"; VInt 42; VNone])])], 1).
Proof.
  destruct (detect_and_redact_structural None) as (Hdict & _).
  unfold Examples.nested_record. rewrite Hdict.
  - reflexivity.
  - repeat constructor; vm_compute; intros Hin; inversion Hin; subst;
      repeat match goal with H : _ ∈ _ |- _ => inversion H; clear H; subst end.
Defined.

Lemma detect_and_redact_rewrites_every_leaf_witness :
  value_at [Key "level1"; Key "level2"; Index 0]
    (fst (detect_and_redact Examples.nested_record None))
  = Some (VStr "api_key=[REDACTED]").
Proof.
  destruct (detect_and_redact_rewrites_every_leaf None Examples.nested_record)
    as (_ & Hleaf & _).
  - vm_compute. repeat split; repeat constructor; intros Hin; inversion Hin;
      subst; repeat match goal with H : _ ∈ _ |- _ => inversion H; clear H; subst end.
  - rewrite (Hleaf _ "api_key=secret123"); reflexivity.
Defined.

Lemma redaction_fixed_point_counterexample :
  value_at [Key "a"; Key "b"; Index 0] Examples.nested_secret
  = Some (VStr "password=[REDACTED]")
  /\ (exists p, nth_error DEFAULT_PATTERNS 5 = Some p
                /\ findall (fst p) "password=[REDACTED]" = ["password=[REDACTED]"])
  /\ detect_and_redact Examples.nested_secret None = (Examples.nested_secret, 1)
  /\ (exists leaf,
        value_at [Key "a"; Key "b"; Index 0]
          (fst (detect_and_redact Examples.nested_secret None)) = Some (VStr leaf)
        /\ is_infix (chars "password=[REDACTED]") (chars leaf) = true).
Proof.
  split; [reflexivity|]. split; [eexists; split; reflexivity|].
  split; [reflexivity|]. eexists. split; reflexivity.
Qed.

(** A token is not matched after a letter outside ASCII, where [\b] sees
    no word boundary: redacted in one leaf, it stays in the other. *)
Example token_after_letter_stays :
  detect_and_redact Examples.token_twice None
  = (VDict [("a", VDict [("b", VList [VStr "[REDACTED_TOKEN]";
                                      VStr (String (ascii_of_N 233)
                                              Examples.token)])])], 1).
Proof. reflexivity. Qed.

(** * Properties of more of the code *)

(** ** json_handler.py: saving, the index and appends *)

Lemma string_length_app s t :
  String.length (s +:+ t) = String.length s + String.length t.
Proof. induction s as [|c s IH]; simpl; [reflexivity|by rewrite IH]. Qed.

Lemma tmp_ne filepath : filepath +:+ ".tmp" <> filepath.
Proof.
  intros E. apply (f_equal String.length) in E.
  rewrite string_length_app in E. simpl in E. lia.
Qed.

Lemma leading_faults_le faults : leading_faults faults <= length faults.
Proof. induction faults as [|[] rest IH]; simpl; lia. Qed.

Section SaveMore.
Context `{PyRuntime}.

(** What one attempt does to the files: nothing outside the target and its
    temporary file, and nothing to the target unless it goes through. *)
Lemma save_attempt_frame filepath data w r w' :
  save_attempt filepath data w = (r, w') ->
  (forall q, q <> filepath -> q <> filepath +:+ ".tmp" ->
             w_files w' !! q = w_files w !! q)
  /\ (forall e, r = Raise e -> w_files w' !! filepath = w_files w !! filepath).
Proof.
  pose proof (tmp_ne filepath) as Hne.
  unfold save_attempt, json_load, io_step, write_file, move_file, open_read,
    catch, bind, lift, ret, raise, set_files.
  destruct w as [files out faults ticks]. simpl.
  destruct faults as [|[] rest]; simpl;
    try (intros [= <- <-]; simpl; split; [done|done]);
    rewrite lookup_insert_eq; simpl;
    (destruct (json_loads (json_dumps data)) as [v|e]; simpl;
     [ rewrite lookup_insert_eq; intros [= <- <-]; simpl; split;
       [ intros q Hq Hq'; rewrite lookup_insert_ne by done;
         rewrite lookup_delete_ne by done; by rewrite lookup_insert_ne by done
       | discriminate ]
     | destruct e; intros [= <- <-]; simpl; split;
       try (intros q Hq Hq'; by rewrite lookup_insert_ne by done);
       intros e' _; by rewrite lookup_insert_ne by done ]).
Qed.

(** An attempt goes through only if what was dumped parses again. *)
Lemma save_attempt_verified filepath data w w' :
  save_attempt filepath data w = (Ret tt, w') ->
  exists v, json_loads (json_dumps data) = Ret v.
Proof.
  unfold save_attempt, json_load, io_step, write_file, move_file, open_read,
    catch, bind, lift, ret, raise, set_files.
  destruct (w_faults w) as [|[] rest]; simpl; try discriminate;
    rewrite lookup_insert_eq; simpl;
    (destruct (json_loads (json_dumps data)) as [v|e]; simpl;
     [ eauto | by destruct e ]).
Qed.

Lemma save_attempt_fault filepath data w rest :
  w_faults w = true :: rest ->
  save_attempt filepath data w
  = (Raise OSError, World (w_files w) (w_out w) rest (w_ticks w)).
Proof.
  intros Hw. unfold save_attempt, io_step, bind. by rewrite Hw.
Qed.

Lemma save_attempt_invalid filepath data w e :
  json_loads (json_dumps data) = Raise e ->
  exists e' w', save_attempt filepath data w = (Raise e', w')
                /\ w_out w' = w_out w.
Proof.
  intros He.
  unfold save_attempt, json_load, io_step, write_file, move_file, open_read,
    catch, bind, lift, ret, raise, set_files.
  destruct (w_faults w) as [|[] rest]; simpl; eauto;
    rewrite lookup_insert_eq; simpl; rewrite He; simpl;
    destruct e; simpl; eauto.
Qed.

Lemma save_loop_frame filepath data max_retries remaining :
  forall attempt w b w',
    save_loop filepath data max_retries attempt remaining w = (Ret b, w') ->
    (forall q, q <> filepath -> q <> filepath +:+ ".tmp" ->
               w_files w' !! q = w_files w !! q)
    /\ (b = false -> w_files w' !! filepath = w_files w !! filepath)
    /\ (0 < remaining -> w_files w' !! (filepath +:+ ".tmp") = None).
Proof.
  pose proof (tmp_ne filepath) as Hne.
  induction remaining as [|remaining IH]; intros attempt w b w'; simpl.
  - unfold ret. intros [= <- <-]. repeat split; auto. lia.
  - unfold catch at 1. unfold bind at 1.
    destruct (save_attempt filepath data w) as [[[]|e] w1] eqn:Hatt.
    + unfold ret. intros [= <- <-].
      pose proof (save_attempt_frame _ _ _ _ _ Hatt) as [Hother _].
      split; [exact Hother|]. split; [discriminate|]. intros _.
      revert Hatt.
      unfold save_attempt, json_load, io_step, write_file, move_file,
        open_read, catch, bind, lift, ret, raise, set_files.
      destruct (w_faults w) as [|[] rest]; simpl; try discriminate;
        rewrite lookup_insert_eq; simpl;
        (destruct (json_loads (json_dumps data)) as [v|e]; simpl;
         [ rewrite lookup_insert_eq; intros [= <-]; simpl;
           rewrite lookup_insert_ne by done; by rewrite lookup_delete_eq
         | by destruct e ]).
    + pose proof (save_attempt_frame _ _ _ _ _ Hatt) as [Hother Hsame].
      specialize (Hsame e eq_refl).
      destruct (attempt <? max_retries - 1).
      * unfold bind at 1. unfold print at 1. unfold bind at 1.
        unfold remove_file at 1. unfold set_files. simpl.
        intros Hloop. pose proof (IH _ _ _ _ Hloop) as (Ho & Hf & Ht).
        simpl in Ho, Hf, Ht.
        split; [|split].
        -- intros q Hq Hq'. rewrite (Ho q Hq Hq').
           rewrite lookup_delete_ne by done. by apply Hother.
        -- intros Hb. rewrite (Hf Hb). by rewrite lookup_delete_ne by done.
        -- intros _. destruct remaining as [|remaining'].
           ++ simpl in Hloop. unfold ret in Hloop.
              injection Hloop as _ <-. simpl. by rewrite lookup_delete_eq.
           ++ apply Ht. lia.
      * unfold bind, print, remove_file, ret, set_files. simpl.
        intros [= <- <-]. simpl. split; [|split].
        -- intros q Hq Hq'. rewrite lookup_delete_ne by done. by apply Hother.
        -- intros _. by rewrite lookup_delete_ne by done.
        -- intros _. by rewrite lookup_delete_eq.
Qed.

(** The loop against the faults: it goes through at the first attempt whose
    I/O does not fail, if one is left. *)
Lemma save_loop_faults filepath data max_retries v :
  json_loads (json_dumps data) = Ret v ->
  forall remaining attempt w,
    attempt + remaining = max_retries ->
    exists w',
      save_loop filepath data max_retries attempt remaining w
      = (Ret (leading_faults (w_faults w) <? remaining), w')
      /\ w_out w' =
           w_out w ++
           (if leading_faults (w_faults w) <? remaining
            then retry_warnings (attempt + 1) (leading_faults (w_faults w))
            else match remaining with
                 | 0 => []
                 | S n => retry_warnings (attempt + 1) n
                          ++ [ErrorSaving filepath max_retries]
                 end).
Proof.
  intros Hv remaining. induction remaining as [|remaining IH];
    intros attempt w Hsum.
  - simpl. unfold ret. eexists. split; [reflexivity|].
    by rewrite app_nil_r.
  - simpl save_loop. unfold catch at 1. unfold bind at 1.
    destruct (w_faults w) as [|[] rest] eqn:Hw.
    + rewrite (save_attempt_clean _ _ _ v) by (try rewrite Hw; done).
      unfold ret. eexists. split; [reflexivity|]. simpl.
      by rewrite app_nil_r.
    + rewrite (save_attempt_fault _ _ _ rest Hw).
      assert (Hlt : (attempt <? max_retries - 1) = (0 <? remaining)).
      { destruct remaining; simpl.
        - apply Nat.ltb_ge. lia.
        - apply Nat.ltb_lt. lia. }
      rewrite Hlt. destruct remaining as [|remaining'].
      * simpl. unfold bind, print, remove_file, ret, set_files. simpl.
        eexists. split; [reflexivity|]. reflexivity.
      * change (0 <? S remaining') with true. cbv iota.
        unfold bind at 1. unfold print at 1. unfold bind at 1.
        unfold remove_file at 1. unfold set_files. cbn [w_files w_out w_faults w_ticks].
        match goal with
        | |- context [save_loop _ _ _ _ _ ?w1] =>
            destruct (IH (S attempt) w1 ltac:(lia)) as (w' & Hloop & Hout)
        end.
        cbn [w_files w_out w_faults w_ticks] in Hloop, Hout.
        exists w'. split.
        -- rewrite Hloop. reflexivity.
        -- rewrite Hout. cbn [leading_faults].
           change (S (leading_faults rest) <? S (S remaining'))
             with (leading_faults rest <? S remaining').
           rewrite <- app_assoc. f_equal.
           replace (S attempt + 1) with (S (attempt + 1)) by lia.
           destruct (leading_faults rest <? S remaining'); reflexivity.
    + rewrite (save_attempt_clean _ _ _ v) by (try rewrite Hw; done).
      unfold ret. eexists. split; [reflexivity|]. simpl.
      by rewrite app_nil_r.
Qed.

Lemma save_loop_invalid filepath data max_retries e :
  json_loads (json_dumps data) = Raise e ->
  forall remaining attempt w,
    exists w', save_loop filepath data max_retries attempt remaining w
               = (Ret false, w').
Proof.
  intros He remaining. induction remaining as [|remaining IH];
    intros attempt w; simpl.
  - unfold ret. eauto.
  - unfold catch at 1. unfold bind at 1.
    destruct (save_attempt_invalid filepath data w e He) as (e' & w1 & -> & _).
    destruct (attempt <? max_retries - 1).
    + unfold bind, print, remove_file. simpl. apply IH.
    + unfold bind, print, remove_file, ret. simpl. eauto.
Qed.

(** X1. A save that reports failure has left the target file as it was:
    absent if it was absent, with its old content otherwise. *)
Theorem safe_save_failure_keeps_target filepath data max_retries w w' :
  safe_save filepath data max_retries w = (Ret false, w') ->
  w_files w' !! filepath = w_files w !! filepath.
Proof.
  unfold safe_save. intros Hsave.
  apply save_loop_frame in Hsave as (_ & Hsame & _). by apply Hsame.
Qed.


(** X3. When what is dumped parses again, a save succeeds exactly when fewer
    than [max_retries] attempts fail in their I/O before one goes through.
    On success it has printed one retry warning for each failed attempt;
    when it gives up it has printed one for each attempt but the last, and
    then the final error. When what is dumped does not parse, it fails
    whatever the I/O does. *)
Theorem safe_save_succeeds_iff_attempt_left filepath data max_retries w :
  let failed := leading_faults (w_faults w) in
  (forall v, json_loads (json_dumps data) = Ret v ->
     exists w',
       safe_save filepath data max_retries w
       = (Ret (failed <? max_retries), w')
       /\ (failed < max_retries ->
           w_out w' = w_out w ++ retry_warnings 1 failed)
       /\ (0 < max_retries <= failed ->
           w_out w' = w_out w ++ retry_warnings 1 (max_retries - 1)
                        ++ [ErrorSaving filepath max_retries]))
  /\ (forall e, json_loads (json_dumps data) = Raise e ->
        exists w', safe_save filepath data max_retries w = (Ret false, w')).
Proof.
  cbv zeta. split.
  - intros v Hv. unfold safe_save.
    destruct (save_loop_faults filepath data max_retries v Hv max_retries 0 w
                eq_refl) as (w' & Hloop & Hout).
    exists w'. split; [exact Hloop|]. simpl in Hout. split.
    + intros Hlt. apply Nat.ltb_lt in Hlt. by rewrite Hlt in Hout.
    + intros [Hpos Hge]. apply Nat.ltb_ge in Hge. rewrite Hge in Hout.
      destruct max_retries as [|n]; [lia|].
      by replace (S n - 1) with n by lia.
  - intros e He. apply (save_loop_invalid _ _ _ e He).
Qed.


Lemma repair_scan_sound content v :
  forall n, repair_scan content n = Ret v ->
    exists i, i < n /\ closer_at content i
              /\ json_loads (prefix_to content i) = Ret v.
Proof.
  induction n as [|n IH]; simpl; [discriminate|].
  assert (Hrec : repair_scan content n = Ret v ->
                 exists i, i < S n /\ closer_at content i
                           /\ json_loads (prefix_to content i) = Ret v).
  { intros Hn. destruct (IH Hn) as (i & ? & ? & ?). exists i. auto with lia. }
  destruct (String.get n content) as [c|] eqn:Hc; [|exact Hrec].
  destruct (is_closer c) eqn:Hclose; [|exact Hrec].
  destruct (json_loads (String.substring 0 (n + 1) content)) as [v'|e] eqn:Hp.
  - intros [= ->]. exists n. split; [lia|]. split; [by exists c|exact Hp].
  - destruct e; try discriminate. exact Hrec.
Qed.

(** X5. Whatever a load returns is the parse of the whole text, the parse
    of a prefix of an unparsable text that ends in a closing brace or
    bracket, or the default: a load makes up no other value. *)
Theorem safe_load_result_is_parsed_or_default filepath default w :
  exists v w',
    safe_load filepath default w = (Ret v, w')
    /\ (v = default_or_empty default
        \/ exists content,
             w_files w !! filepath = Some (Text content)
             /\ (json_loads content = Ret v
                 \/ (json_loads content = Raise JSONDecodeError
                     /\ exists i, closer_at content i
                                  /\ json_loads (prefix_to content i) = Ret v))).
Proof.
  rewrite safe_load_spec. eexists _, _. split; [reflexivity|].
  unfold loaded_value.
  destruct (w_files w !! filepath) as [[content|]|]; auto.
  destruct (json_loads content) as [v|e] eqn:Hload; [eauto 6|].
  destruct e; auto.
  destruct (repair_scan content (String.length content)) as [v|e] eqn:Hrep;
    auto.
  apply repair_scan_sound in Hrep as (i & _ & Hi & Hv). eauto 10.
Qed.

(** X6. When [update_index] reports success the index held a mapping, or
    loaded as one, and the saved index is that mapping with the session
    bound to the partition name: every other entry is kept and at most one
    entry is added. Nothing is printed beyond the warnings of the load
    and the save. *)
Theorem update_index_binds_session index_filepath session_id monthly_filename
  w w' printed :
  update_index index_filepath session_id monthly_filename w
  = (Ret (true, printed), w') ->
  exists index saved,
    loaded_value (w_files w !! index_filepath) (VDict []) = VDict index
    /\ w_files w' !! index_filepath = Some (Text (json_dumps (VDict saved)))
    /\ dict_get session_id saved = Some (VStr monthly_filename)
    /\ (forall k, k <> session_id -> dict_get k saved = dict_get k index)
    /\ length saved <= S (length index)
    /\ printed = [].
Proof.
  unfold update_index, catch. unfold bind at 1. rewrite safe_load_spec.
  destruct (loaded_value (w_files w !! index_filepath) (VDict []))
    as [| | | | |index]; simpl; try (unfold ret; discriminate).
  unfold bind at 1. simpl. unfold bind at 1.
  match goal with
  | |- context [safe_save ?p ?doc ?n ?w1] =>
      destruct (safe_save p doc n w1) as [[b|e] w2] eqn:Hsave
  end; unfold ret; [|discriminate].
  intros [= -> <- <-]. apply save_loop_true in Hsave.
  exists index, (dict_set session_id (VStr monthly_filename) index).
  split; [reflexivity|]. split; [exact Hsave|].
  split; [apply dict_get_set_eq|].
  split; [intros k Hk; apply dict_get_set_ne; by apply String.eqb_neq|].
  split; [|reflexivity].
  clear. induction index as [|[k v] index IH]; simpl; [lia|].
  destruct (String.eqb session_id k); simpl; lia.
Qed.

(** X7. An index that loads as anything but a mapping (a JSON list, a
    string, a number, [null]) makes [update_index] fail: it reports
    the error, returns [False], and leaves every file as it was. *)
Theorem update_index_rejects_non_mapping index_filepath session_id
  monthly_filename w :
  is_dict (loaded_value (w_files w !! index_filepath) (VDict [])) = false ->
  update_index index_filepath session_id monthly_filename w
  = (Ret (false, [ErrorUpdatingIndex]), after_load index_filepath w).
Proof.
  intros Hd. unfold update_index, catch. unfold bind at 1.
  rewrite safe_load_spec. fold (after_load index_filepath w).
  by destruct (loaded_value (w_files w !! index_filepath) (VDict [])).
Qed.

(** What [merge_monthly] does, step by step: it fails on an episode that is
    not a mapping and on a partition whose [sessions] is not a list, and is
    otherwise the save of the merged document. *)
Lemma merge_monthly_spec session_record monthly_filepath w :
  let loaded := loaded_value (w_files w !! monthly_filepath) empty_partition in
  let failure :=
    (Ret false,
     World (w_files w)
       ((w_out w ++ load_warnings monthly_filepath
                      (w_files w !! monthly_filepath)) ++ [ErrorMerging])
       (w_faults w) (w_ticks w)) in
  merge_monthly session_record monthly_filepath w =
    if is_dict session_record
       && match loaded with
          | VDict d => match dict_get "sessions" d with
                       | Some x => is_list x
                       | None => true
                       end
          | _ => true
          end
    then safe_save monthly_filepath (merged_partition loaded session_record) 3
           (after_load monthly_filepath w)
    else failure.
Proof.
  cbv zeta. unfold merge_monthly, catch. rewrite merge_monthly_body_spec.
  cbv zeta. fold (after_load monthly_filepath w).
  set (loaded := loaded_value _ _).
  assert (Hsave : forall doc,
    match safe_save monthly_filepath doc 3 (after_load monthly_filepath w) with
    | (Ret a, w') => (Ret a, w')
    | (Raise e, w') => (print ErrorMerging;; ret false) w'
    end = safe_save monthly_filepath doc 3 (after_load monthly_filepath w)).
  { intros doc. unfold safe_save.
    destruct (save_loop_returns monthly_filepath doc 3 3 0
                (after_load monthly_filepath w)) as (b & w2 & ->). reflexivity. }
  unfold merged_partition, prior_sessions, partition_sessions, timestamp_of.
  destruct loaded as [| | | | |d]; simpl;
    try (destruct session_record; simpl; try reflexivity; apply Hsave).
  unfold dict_has.
  destruct (dict_get "sessions" d) as [x|] eqn:Hx.
  - rewrite Hx. destruct x; simpl; rewrite ?andb_false_r; try reflexivity.
    destruct session_record; simpl; try reflexivity. apply Hsave.
  - rewrite dict_get_set_eq. rewrite dict_set_set.
    destruct session_record; simpl; try reflexivity. apply Hsave.
Qed.

(** X8. [merge_monthly] never raises, and when it reports failure the
    partition file is as it was before: no episode is half-written and
    none of the stored ones is lost. *)
Theorem merge_monthly_failure_keeps_partition session_record
  monthly_filepath w :
  exists ok w',
    merge_monthly session_record monthly_filepath w = (Ret ok, w')
    /\ (ok = false ->
        w_files w' !! monthly_filepath = w_files w !! monthly_filepath).
Proof.
  rewrite merge_monthly_spec. cbv zeta.
  destruct (_ && _).
  - unfold safe_save.
    destruct (save_loop_returns monthly_filepath
                (merged_partition
                   (loaded_value (w_files w !! monthly_filepath) empty_partition)
                   session_record) 3 3 0 (after_load monthly_filepath w))
      as (b & w2 & Hs).
    rewrite Hs. exists b, w2. split; [reflexivity|]. intros ->.
    by apply save_loop_frame in Hs as (_ & -> & _).
  - eexists _, _. split; [reflexivity|]. reflexivity.
Qed.

(** X9. An episode that is not a mapping, or a partition that loads as a
    mapping whose [sessions] is not a list, makes [merge_monthly] report
    the error and return [False] without a save attempt: no file is
    touched and no fault of the I/O is consumed. *)
Theorem merge_monthly_rejects_unmergeable session_record monthly_filepath w :
  is_dict session_record = false
  \/ (exists d x,
        loaded_value (w_files w !! monthly_filepath) empty_partition = VDict d
        /\ dict_get "sessions" d = Some x /\ is_list x = false) ->
  exists w',
    merge_monthly session_record monthly_filepath w = (Ret false, w')
    /\ w_files w' = w_files w
    /\ w_faults w' = w_faults w
    /\ w_out w' = w_out (after_load monthly_filepath w) ++ [ErrorMerging].
Proof.
  intros Hbad. rewrite merge_monthly_spec. cbv zeta.
  assert (Hcond : is_dict session_record
    && match loaded_value (w_files w !! monthly_filepath) empty_partition with
       | VDict d => match dict_get "sessions" d with
                    | Some x => is_list x
                    | None => true
                    end
       | _ => true
       end = false).
  { destruct Hbad as [->|(d & x & -> & -> & ->)]; [reflexivity|].
    apply andb_false_r. }
  rewrite Hcond. eexists. split; [reflexivity|]. auto.
Qed.

End SaveMore.

Lemma insert_sorted_elem p q l : q ∈ insert_sorted p l <-> q = p \/ q ∈ l.
Proof.
  induction l as [|x l IH]; simpl.
  - rewrite list_elem_of_singleton, elem_of_nil. tauto.
  - destruct (String.leb p x).
    + rewrite elem_of_cons. tauto.
    + rewrite !elem_of_cons, IH. tauto.
Qed.

Lemma sorted_paths_elem q l : q ∈ sorted_paths l <-> q ∈ l.
Proof.
  unfold sorted_paths. induction l as [|x l IH]; simpl; [done|].
  rewrite insert_sorted_elem, IH, elem_of_cons. tauto.
Qed.


Section StoreThenLoad.
Context `{PyRuntime}.


End StoreThenLoad.

Lemma safe_save_failure_keeps_target_witness :
  w_files (snd (safe_save "/e/index.json" (VDict []) 3 (Cases.index_world 3)))
    !! "/e/index.json"
  = Some (Text Cases.old_index).
Proof.
  rewrite (safe_save_failure_keeps_target "/e/index.json" (VDict []) 3
             (Cases.index_world 3)).
  - vm_compute. reflexivity.
  - vm_compute. reflexivity.
Defined.


Lemma safe_save_succeeds_iff_attempt_left_witness :
  (exists w', safe_save "/e/index.json" (VDict []) 3 (Cases.index_world 2)
              = (Ret true, w')
              /\ w_out w' = [WarnSaveRetry 1; WarnSaveRetry 2])
  /\ (exists w', safe_save "/e/index.json" (VDict []) 3 (Cases.index_world 3)
                 = (Ret false, w')
                 /\ w_out w' = [WarnSaveRetry 1; WarnSaveRetry 2;
                                ErrorSaving "/e/index.json" 3]).
Proof.
  split.
  - destruct (safe_save_succeeds_iff_attempt_left "/e/index.json" (VDict []) 3
                (Cases.index_world 2)) as [Hparse _].
    destruct (Hparse (VDict []) eq_refl) as (w' & Hsave & Hout & _).
    exists w'. split; [exact Hsave|]. apply Hout. vm_compute. lia.
  - destruct (safe_save_succeeds_iff_attempt_left "/e/index.json" (VDict []) 3
                (Cases.index_world 3)) as [Hparse _].
    destruct (Hparse (VDict []) eq_refl) as (w' & Hsave & _ & Hout).
    exists w'. split; [exact Hsave|]. apply Hout. vm_compute. lia.
Defined.


Lemma update_index_binds_session_witness :
  exists saved,
    w_files (snd (update_index "/e/index.json" "s1" "sessions-2025-12.json"
                    (Cases.index_world 0))) !! "/e/index.json"
    = Some (Text (json_dumps (VDict saved)))
    /\ dict_get "s1" saved = Some (VStr "sessions-2025-12.json")
    /\ dict_get "s0" saved = Some (VStr "sessions-2025-11.json").
Proof.
  destruct (update_index_binds_session "/e/index.json" "s1"
              "sessions-2025-12.json" (Cases.index_world 0)
              (snd (update_index "/e/index.json" "s1" "sessions-2025-12.json"
                      (Cases.index_world 0))) [])
    as (index & saved & Hindex & Hfile & Hnew & Hold & _).
  - vm_compute. reflexivity.
  - exists saved. split; [exact Hfile|]. split; [exact Hnew|].
    rewrite Hold by discriminate.
    assert (index = [("s0", VStr "sessions-2025-11.json")]) as ->.
    { vm_compute in Hindex. by injection Hindex as <-. }
    reflexivity.
Defined.

Lemma update_index_rejects_non_mapping_witness :
  update_index "/e/index.json" "s1" "sessions-2025-12.json"
    Cases.list_index_world
  = (Ret (false, [ErrorUpdatingIndex]), Cases.list_index_world).
Proof.
  rewrite (update_index_rejects_non_mapping "/e/index.json" "s1"
             "sessions-2025-12.json" Cases.list_index_world).
  - vm_compute. reflexivity.
  - vm_compute. reflexivity.
Defined.

Lemma merge_monthly_failure_keeps_partition_witness :
  exists w',
    merge_monthly Examples.rec1 "/e/sessions-2025-12.json"
      Cases.failing_partition_world = (Ret false, w')
    /\ w_files w' !! "/e/sessions-2025-12.json"
       = Some (Text Examples.valid_partition).
Proof.
  destruct (merge_monthly_failure_keeps_partition Examples.rec1
              "/e/sessions-2025-12.json" Cases.failing_partition_world)
    as (ok & w' & Hmerge & Hsame).
  assert (ok = false) as ->.
  { vm_compute in Hmerge. by injection Hmerge as <- _. }
  exists w'. split; [exact Hmerge|]. rewrite (Hsame eq_refl).
  vm_compute. reflexivity.
Defined.

Lemma merge_monthly_rejects_unmergeable_witness :
  exists w',
    merge_monthly Examples.rec1 "/e/sessions-2025-10.json"
      Cases.bad_sessions_world = (Ret false, w')
    /\ w_files w' = w_files Cases.bad_sessions_world
    /\ w_out w' = [ErrorMerging].
Proof.
  destruct (merge_monthly_rejects_unmergeable Examples.rec1
              "/e/sessions-2025-10.json" Cases.bad_sessions_world)
    as (w' & Hmerge & Hfiles & _ & Hout).
  - right. exists [("sessions", VStr "not-a-list")], (VStr "not-a-list").
    vm_compute. auto.
  - exists w'. split; [exact Hmerge|]. split; [exact Hfiles|].
    rewrite Hout. vm_compute. reflexivity.
Defined.


(** ** config.py: what a loaded configuration satisfies *)


(** ** redaction.py: counts and custom patterns *)

Lemma redact_fold_count patterns :
  forall acc,
    snd acc <= snd (fold_left redact_step patterns acc)
    /\ (snd (fold_left redact_step patterns acc) = snd acc ->
        fst (fold_left redact_step patterns acc) = fst acc).
Proof.
  induction patterns as [|p ps IH]; intros acc; simpl; [auto|].
  destruct (IH (redact_step acc p)) as [Hle Hsame].
  pose proof (redact_step_spec acc p) as Hstep.
  assert (Hle1 : snd acc <= snd (redact_step acc p)).
  { rewrite Hstep. simpl. lia. }
  split; [lia|]. intros Heq.
  assert (Heq1 : snd (redact_step acc p) = snd acc) by lia.
  rewrite Hsame by lia.
  rewrite Hstep in Heq1 |- *. cbn [fst snd] in *.
  apply sub_no_match. destruct (findall (fst p) (fst acc)); [done|].
  simpl in Heq1. lia.
Qed.

(** X12. A redaction count of zero means nothing was rewritten: the text
    [redact_sensitive] returns is the text it was given, and the value
    [detect_and_redact] returns is the value it was given. *)
Theorem zero_redactions_leave_data_unchanged patterns :
  (forall text,
     snd (redact_sensitive text patterns) = 0 ->
     fst (redact_sensitive text patterns) = text)
  /\ (forall data,
        wf_value data ->
        snd (detect_and_redact data patterns) = 0 ->
        fst (detect_and_redact data patterns) = data).
Proof.
  assert (Htext : forall text,
            snd (redact_sensitive text patterns) = 0 ->
            fst (redact_sensitive text patterns) = text).
  { intros text. unfold redact_sensitive.
    apply (redact_fold_count _ (text, 0)). }
  split; [exact Htext|].
  induction data as [| | |s|l IH|d IH] using value_ind; intros Hwf;
    try reflexivity.
  - cbn [detect_and_redact]. specialize (Htext s).
    destruct (redact_sensitive s patterns) as [t n]. simpl in *.
    intros ->. by rewrite Htext.
  - rewrite detect_and_redact_list. cbn [fst snd]. intros Hsum. f_equal.
    apply wf_value_list in Hwf.
    induction IH as [|x l Hx _ IHl]; [done|].
    inversion Hwf; subst. simpl in Hsum |- *. f_equal.
    + apply Hx; [done|lia].
    + apply IHl; [done|lia].
  - apply wf_value_dict in Hwf as [Hnd Hwf].
    rewrite detect_and_redact_dict by done. cbn [fst snd]. intros Hsum.
    f_equal. clear Hnd.
    induction IH as [|[k v] d Hkv _ IHd]; [done|].
    inversion Hwf; subst. simpl in Hsum |- *. f_equal.
    + f_equal. apply Hkv; [done|simpl; lia].
    + apply IHd; [done|lia].
Qed.

Section CustomPatternProperties.
Variable re_compile : string -> option regex.

Lemma compile_custom_patterns_length pattern_strings :
  length (compile_custom_patterns re_compile pattern_strings)
  <= length pattern_strings.
Proof.
  induction pattern_strings as [|s rest IH]; simpl; [lia|].
  destruct (re_compile s); simpl; lia.
Qed.

(** X13. With custom patterns the built-in ones run first and the custom
    ones, each compiled with the replacement [REDACTED] and those that do
    not compile left out, run on the text the built-in ones have already
    redacted; so the count is never below that of the built-in patterns
    alone, and custom patterns that all fail to compile change nothing. *)
Theorem custom_patterns_run_after_defaults custom text :
  let compiled := compile_custom_patterns re_compile custom in
  redact_sensitive text (Some (get_all_patterns re_compile (Some custom)))
  = fold_left redact_step compiled (redact_sensitive text None)
  /\ snd (redact_sensitive text None)
     <= snd (redact_sensitive text
               (Some (get_all_patterns re_compile (Some custom))))
  /\ Forall (fun p => snd p = "[REDACTED]") compiled
  /\ length compiled <= length custom
  /\ (Forall (fun s => re_compile s = None) custom ->
      redact_sensitive text (Some (get_all_patterns re_compile (Some custom)))
      = redact_sensitive text None).
Proof.
  cbv zeta.
  assert (Heq :
    redact_sensitive text (Some (get_all_patterns re_compile (Some custom)))
    = fold_left redact_step (compile_custom_patterns re_compile custom)
        (redact_sensitive text None)).
  { unfold redact_sensitive, get_all_patterns.
    destruct custom as [|s rest]; [reflexivity|].
    by rewrite fold_left_app. }
  split; [exact Heq|]. split; [|split; [|split]].
  - rewrite Heq. apply redact_fold_count.
  - clear. induction custom as [|s rest IH]; simpl; [constructor|].
    destruct (re_compile s); [constructor|]; done.
  - apply compile_custom_patterns_length.
  - intros Hnone. rewrite Heq.
    assert (compile_custom_patterns re_compile custom = []) as ->; [|done].
    clear Heq. induction Hnone as [|s rest Hs _ IH]; simpl; [done|].
    by rewrite Hs.
Qed.

End CustomPatternProperties.

Lemma zero_redactions_leave_data_unchanged_witness :
  fst (redact_sensitive "ran the tests" None) = "ran the tests"
  /\ fst (detect_and_redact Cases.clean_record None) = Cases.clean_record.
Proof.
  destruct (zero_redactions_leave_data_unchanged None) as [Htext Hdata].
  split.
  - apply Htext. vm_compute. reflexivity.
  - apply Hdata; [wf_concrete|vm_compute; reflexivity].
Defined.

Lemma custom_patterns_run_after_defaults_witness :
  redact_sensitive "alice has api_key=secret123"
    (Some (get_all_patterns Cases.compile_words (Some ["alice"; "("])))
  = ("[REDACTED] has api_key=[REDACTED]", 2)
  /\ redact_sensitive "alice has api_key=secret123"
       (Some (get_all_patterns Cases.compile_words (Some ["("; "a b"])))
     = ("alice has api_key=[REDACTED]", 1).
Proof.
  destruct (custom_patterns_run_after_defaults Cases.compile_words
              ["alice"; "("] "alice has api_key=secret123")
    as (Heq & _).
  destruct (custom_patterns_run_after_defaults Cases.compile_words
              ["("; "a b"] "alice has api_key=secret123")
    as (_ & _ & _ & _ & Hnone).
  split.
  - rewrite Heq. vm_compute. reflexivity.
  - rewrite Hnone; [vm_compute; reflexivity|].
    repeat constructor.
Defined.

(** ** extract.py: what the patterns count *)

Lemma key_eqb_sym a b : key_eqb a b = key_eqb b a.
Proof.
  destruct a as [|x|x|x|x|x], b as [|y|y|y|y|y]; simpl; try reflexivity.
  - by destruct x, y.
  - apply Z.eqb_sym.
  - apply Z.eqb_sym.
  - apply Z.eqb_sym.
  - apply String.eqb_sym.
Qed.

Lemma key_eqb_trans a b c :
  key_eqb a b = true -> key_eqb b c = true -> key_eqb a c = true.
Proof.
  destruct a as [|x|x|x|x|x], b as [|y|y|y|y|y], c as [|z|z|z|z|z]; simpl;
    try discriminate; try reflexivity; intros H1 H2;
    repeat match goal with
           | H : (_ =? _)%Z = true |- _ => apply Z.eqb_eq in H
           | H : String.eqb _ _ = true |- _ => apply String.eqb_eq in H
           | H : Bool.eqb _ _ = true |- _ => apply Bool.eqb_prop in H
           end;
    subst; rewrite ?Z.eqb_refl, ?String.eqb_refl, ?Bool.eqb_reflx;
    try reflexivity.
  destruct x, z; simpl in *; try reflexivity; discriminate.
Qed.

Lemma key_eqb_false_l a b c :
  key_eqb a b = true -> key_eqb c b = false -> key_eqb a c = false.
Proof.
  intros Hab Hcb. destruct (key_eqb a c) eqn:Hac; [|reflexivity].
  rewrite key_eqb_sym in Hac.
  by rewrite (key_eqb_trans c a b Hac Hab) in Hcb.
Qed.

Lemma evidence_get_add key session_id k m :
  evidence_get k (evidence_add key session_id m)
  = if key_eqb key k
    then Some (match evidence_get k m with Some ev => ev | None => [] end
               ++ [session_id])
    else evidence_get k m.
Proof.
  induction m as [|[k0 ev] m IH]; simpl.
  - by rewrite (key_eqb_sym k key).
  - destruct (key_eqb key k0) eqn:E0; simpl.
    + destruct (key_eqb k k0) eqn:Ek.
      * rewrite key_eqb_sym in Ek.
        by rewrite (key_eqb_trans key k0 k E0 Ek).
      * rewrite (key_eqb_false_l key k0 k E0 Ek). reflexivity.
    + destruct (key_eqb k k0) eqn:Ek; [|exact IH].
      assert (key_eqb key k = false) as ->; [|reflexivity].
      rewrite key_eqb_sym. apply (key_eqb_false_l k k0 key Ek E0).
Qed.

Lemma evidence_after_app before l1 l2 :
  evidence_after (evidence_after before l1) l2 = evidence_after before (l1 ++ l2).
Proof.
  destruct l1 as [|x l1]; [reflexivity|].
  destruct l2 as [|y l2]; simpl.
  - by rewrite app_nil_r.
  - by rewrite <- app_assoc.
Qed.

Lemma note_annotation_get session_id m annotation m' k :
  note_annotation session_id m annotation = Ret m' ->
  evidence_get k m'
  = evidence_after (evidence_get k m)
      (if mentions_key k annotation then [session_id] else []).
Proof.
  unfold note_annotation, mentions_key, described.
  destruct annotation as [| | |s| |d]; try (by intros [= <-]).
  - intros [= <-]. rewrite evidence_get_add.
    by destruct (key_eqb (VStr s) k).
  - destruct (dict_get "description" d) as [desc|]; [|by intros [= <-]].
    destruct (hashable desc); [|discriminate].
    intros [= <-]. rewrite evidence_get_add.
    by destruct (key_eqb desc k).
Qed.

Lemma note_annotations_get session_id annotations k :
  forall m m',
    note_annotations session_id m annotations = Ret m' ->
    evidence_get k m'
    = evidence_after (evidence_get k m)
        (map (fun _ => session_id) (List.filter (mentions_key k) annotations)).
Proof.
  induction annotations as [|a rest IH]; intros m m'; simpl.
  - by intros [= <-].
  - unfold obind at 1.
    destruct (note_annotation session_id m a) as [m1|e] eqn:Ha; [|done].
    intros Hrest. rewrite (IH _ _ Hrest).
    rewrite (note_annotation_get _ _ _ _ k Ha).
    rewrite evidence_after_app.
    by destruct (mentions_key k a).
Qed.

Lemma extract_field_get field sessions k :
  forall m m',
    extract_field field sessions m = Ret m' ->
    evidence_get k m'
    = evidence_after (evidence_get k m) (mentions field k sessions).
Proof.
  induction sessions as [|session rest IH]; intros m m'; simpl.
  - by intros [= <-].
  - unfold obind. destruct session as [| | | | |d]; try done. simpl.
    unfold dict_has.
    destruct (dict_get field d) as [annotations|]; simpl.
    + destruct (py_iter annotations) as [items|]; [|done].
      destruct (note_annotations _ m items) as [m1|] eqn:Hn; [|done].
      intros Hrest. rewrite (IH _ _ Hrest).
      rewrite (note_annotations_get _ _ k _ _ Hn).
      by rewrite evidence_after_app.
    + apply IH.
Qed.

Lemma evidence_add_distinct key session_id m :
  hashable key = true ->
  distinct_keys m -> distinct_keys (evidence_add key session_id m).
Proof.
  intros Hhash. induction m as [|[k0 ev] m IH]; simpl.
  - intros _. split; [done|]. split; [constructor|done].
  - intros (Hk0 & Hothers & Hm).
    destruct (key_eqb key k0) eqn:E; simpl; [done|].
    split; [done|]. split; [|by apply IH].
    clear IH Hm. induction m as [|[k1 ev1] m IHm]; simpl.
    + constructor; [exact E|constructor].
    + inversion Hothers; subst.
      destruct (key_eqb key k1); constructor; auto.
Qed.

Lemma evidence_add_nonempty key session_id m :
  Forall (fun kv => snd kv <> []) m ->
  Forall (fun kv => snd kv <> []) (evidence_add key session_id m).
Proof.
  induction m as [|[k0 ev] m IH]; simpl; intros Hm.
  - constructor; [discriminate|constructor].
  - inversion Hm; subst. destruct (key_eqb key k0); constructor; auto.
    simpl. by destruct ev.
Qed.

Lemma evidence_add_ok key session_id m :
  hashable key = true -> evidence_ok m ->
  evidence_ok (evidence_add key session_id m).
Proof.
  intros Hhash [Hd Hn]. split.
  - by apply evidence_add_distinct.
  - by apply evidence_add_nonempty.
Qed.

Lemma note_annotations_ok session_id annotations :
  forall m m',
    note_annotations session_id m annotations = Ret m' ->
    evidence_ok m -> evidence_ok m'.
Proof.
  induction annotations as [|a rest IH]; intros m m'; simpl.
  - by intros [= <-].
  - unfold obind at 1.
    destruct (note_annotation session_id m a) as [m1|e] eqn:Ha; [|done].
    intros Hrest Hok. apply (IH m1 m' Hrest).
    unfold note_annotation in Ha.
    destruct a as [| | |s| |d]; try (by injection Ha as <-).
    + injection Ha as <-. by apply evidence_add_ok.
    + destruct (dict_get "description" d) as [desc|]; [|by injection Ha as <-].
      destruct (hashable desc) eqn:Hh; [|done].
      injection Ha as <-. by apply evidence_add_ok.
Qed.

Lemma extract_field_ok field sessions :
  forall m m',
    extract_field field sessions m = Ret m' ->
    evidence_ok m -> evidence_ok m'.
Proof.
  induction sessions as [|session rest IH]; intros m m'; simpl.
  - by intros [= <-].
  - unfold obind.
    destruct (py_get session "session_id" (VStr "unknown")) as [sid|]; [|done].
    destruct (py_contains field session) as [[]|]; [| |done].
    + destruct (py_getitem session field) as [annotations|]; [|done].
      destruct (py_iter annotations) as [items|]; [|done].
      destruct (note_annotations sid m items) as [m1|] eqn:Hn; [|done].
      intros Hrest Hok. apply (IH m1 m' Hrest).
      by apply (note_annotations_ok sid items m).
    + apply IH.
Qed.

Lemma evidence_get_in d ev m :
  distinct_keys m -> In (d, ev) m -> evidence_get d m = Some ev.
Proof.
  induction m as [|[k0 ev0] m IH]; simpl; [done|].
  intros (Hk0 & Hothers & Hm) [[= -> ->]|Hin].
  - by rewrite key_eqb_refl.
  - rewrite Forall_forall in Hothers.
    assert (Hne := Hothers (d, ev) (proj2 (list_elem_of_In _ _) Hin)).
    simpl in Hne. rewrite Hne. by apply IH.
Qed.

Lemma evidence_get_some k ev m :
  evidence_get k m = Some ev ->
  exists d, In (d, ev) m /\ key_eqb k d = true.
Proof.
  induction m as [|[k0 ev0] m IH]; simpl; [done|].
  destruct (key_eqb k k0) eqn:E.
  - intros [= ->]. exists k0. auto.
  - intros Hget. destruct (IH Hget) as (d & ? & ?). exists d. auto.
Qed.

(** The mentions of two descriptions that are equal as keys are the same. *)
Lemma mentions_key_eqb field k d sessions :
  key_eqb k d = true -> mentions field k sessions = mentions field d sessions.
Proof.
  intros Hkd.
  assert (Hfilter : forall a, mentions_key k a = mentions_key d a).
  { intros a. unfold mentions_key. destruct (described a) as [x|]; [|done].
    destruct (key_eqb x k) eqn:Ex.
    - symmetry. apply (key_eqb_trans x k d Ex Hkd).
    - symmetry. rewrite key_eqb_sym in Hkd.
      destruct (key_eqb x d) eqn:Exd; [|done].
      by rewrite (key_eqb_trans x d k Exd Hkd) in Ex. }
  clear Hkd. unfold mentions.
  induction sessions as [|s rest IH]; simpl; [done|].
  rewrite IH. f_equal. f_equal. by apply List.filter_ext.
Qed.

Section CountProperties.
Context `{PyRuntime}.

Lemma emitted_id prefix cat items e s c :
  forall tick p,
    In p (emitted prefix cat items e s c tick) ->
    pattern_id p = make_pattern_id prefix (description p).
Proof.
  induction items as [|[d ev] rest IH]; intros tick p; simpl; [done|].
  destruct (e <=? Z.of_nat (length ev))%Z.
  - intros [<-|Hin]; [reflexivity|]. by apply (IH (S tick)).
  - apply IH.
Qed.

Lemma emitted_clock prefix cat items e s c :
  forall tick,
    map detected_at (emitted prefix cat items e s c tick)
    = map clock_reading (seq tick (length (emitted prefix cat items e s c tick))).
Proof.
  induction items as [|[d ev] rest IH]; intros tick; simpl; [done|].
  destruct (e <=? Z.of_nat (length ev))%Z; simpl.
  - by rewrite IH.
  - apply IH.
Qed.

Lemma emitted_descriptions prefix cat items e s c :
  forall tick,
    sublist (map description (emitted prefix cat items e s c tick))
      (map fst items).
Proof.
  induction items as [|[d ev] rest IH]; intros tick; simpl; [constructor|].
  destruct (e <=? Z.of_nat (length ev))%Z; simpl.
  - apply sublist_skip, IH.
  - apply sublist_cons, IH.
Qed.

(** A detection that returns has had its three extractions return. *)
Lemma detect_frequency_patterns_inv sessions e s c w patterns w' :
  detect_frequency_patterns sessions e s c w = (Ret patterns, w') ->
  exists preferences codes antis,
    extract_user_preferences sessions = Ret preferences
    /\ extract_code_patterns sessions = Ret codes
    /\ extract_anti_patterns sessions = Ret antis
    /\ let prefs := emitted "pref" "preference" preferences e s c (w_ticks w) in
       let t1 := w_ticks w + length prefs in
       let cods := emitted "code" "code_pattern" codes e s c t1 in
       let t2 := t1 + length cods in
       let ants := emitted "anti" "anti_pattern" antis e s c t2 in
       patterns = prefs ++ cods ++ ants
       /\ w' = World (w_files w) (w_out w) (w_faults w) (t2 + length ants).
Proof.
  unfold detect_frequency_patterns.
  destruct (extract_user_preferences sessions) as [preferences|];
    [|unfold bind, lift; discriminate].
  unfold bind at 1. unfold lift at 1. unfold bind at 1.
  rewrite emit_patterns_spec. cbn [app w_files w_out w_faults w_ticks].
  destruct (extract_code_patterns sessions) as [codes|];
    [|unfold bind, lift; discriminate].
  unfold bind at 1. unfold lift at 1. unfold bind at 1.
  rewrite emit_patterns_spec. cbn [w_files w_out w_faults w_ticks].
  destruct (extract_anti_patterns sessions) as [antis|];
    [|unfold bind, lift; discriminate].
  unfold bind at 1. unfold lift at 1.
  rewrite emit_patterns_spec. cbn [w_files w_out w_faults w_ticks].
  intros [= <- <-]. exists preferences, codes, antis.
  repeat (split; [reflexivity|]). cbv zeta. split; [|reflexivity].
  by rewrite <- app_assoc.
Qed.

(** The three groups of a detection, each with its field. *)
Lemma detect_frequency_patterns_groups sessions e s c w patterns w' :
  detect_frequency_patterns sessions e s c w = (Ret patterns, w') ->
  forall p, In p patterns ->
    exists cat items tick,
      In cat ["preference"; "code_pattern"; "anti_pattern"]
      /\ extract_field (field_of cat) sessions [] = Ret items
      /\ In p (emitted (id_prefix cat) cat items e s c tick).
Proof.
  intros Hrun p Hp.
  apply detect_frequency_patterns_inv in Hrun
    as (preferences & codes & antis & Hpref & Hcode & Hanti & Hpat & _).
  cbv zeta in Hpat. subst patterns. rewrite !in_app_iff in Hp.
  destruct Hp as [Hp|[Hp|Hp]].
  - exists "preference", preferences. eexists. split; [by left|].
    split; [exact Hpref|exact Hp].
  - exists "code_pattern", codes. eexists. split; [right; by left|].
    split; [exact Hcode|exact Hp].
  - exists "anti_pattern", antis. eexists. split; [right; right; by left|].
    split; [exact Hanti|exact Hp].
Qed.

Lemma evidence_ok_nil : evidence_ok [].
Proof. split; [exact I|constructor]. Qed.

(** X14. Every pattern [detect_frequency_patterns] returns counts the
    mentions of its description in the sessions, under the field of its
    category: its occurrences are their number, its evidence the session
    ids of the first ten of them, its strength the category of that
    number, never weak, and its id is made of the prefix of the category
    and the hash of the description. *)
Theorem detected_pattern_counts_mentions sessions e s c w patterns w' p :
  detect_frequency_patterns sessions e s c w = (Ret patterns, w') ->
  In p patterns ->
  let found :=
    mentions (field_of (category p)) (description p) sessions in
  In (category p) ["preference"; "code_pattern"; "anti_pattern"]
  /\ pattern_id p = make_pattern_id (id_prefix (category p)) (description p)
  /\ hashable (description p) = true
  /\ found <> []
  /\ occurrences p = Z.of_nat (length found)
  /\ evidence p = firstn 10 found
  /\ (e <= occurrences p)%Z
  /\ strength p = categorize_strength (occurrences p) e s c
  /\ strength p <> "weak".
Proof.
  intros Hrun Hp found.
  destruct (detect_frequency_patterns_groups _ _ _ _ _ _ _ Hrun p Hp)
    as (cat & items & tick & Hcat & Hitems & Hin).
  pose proof (emitted_id _ _ _ _ _ _ _ _ Hin) as Hid.
  apply emitted_sound in Hin as (Hc & ev & Hev & Hge & Hocc & Hstr & Hevid).
  pose proof (extract_field_ok _ _ _ _ Hitems evidence_ok_nil) as [Hdist Hne].
  pose proof (evidence_get_in _ _ _ Hdist Hev) as Hget.
  rewrite (extract_field_get _ _ (description p) _ _ Hitems) in Hget.
  assert (Hfound : ev = found).
  { subst found. rewrite Hc. simpl in Hget.
    destruct (mentions (field_of cat) (description p) sessions) eqn:Hm.
    - discriminate.
    - simpl in Hget. by injection Hget as <-. }
  assert (Hnonempty : ev <> []).
  { rewrite Forall_forall in Hne.
    apply (Hne (description p, ev)). by apply list_elem_of_In. }
  assert (Hhash : hashable (description p) = true).
  { clear -Hdist Hev. induction items as [|[k0 ev0] m IH]; [done|].
    destruct Hdist as (Hk0 & _ & Hm). destruct Hev as [[= -> _]|Hev]; auto. }
  rewrite Hc. split; [exact Hcat|]. split; [exact Hid|].
  split; [exact Hhash|]. rewrite <- Hfound.
  split; [exact Hnonempty|]. split; [exact Hocc|]. split; [exact Hevid|].
  rewrite Hocc. split; [exact Hge|]. split; [exact Hstr|].
  rewrite Hstr. by apply categorize_strength_not_weak.
Qed.

(** X15. Conversely, a description mentioned at least once and at least
    [emerging_threshold] times under the field of a category gets a
    pattern of that category, whose description is equal to it as a key
    and whose occurrences are the number of the mentions. *)
Theorem frequent_description_is_detected sessions e s c w patterns w' cat k :
  detect_frequency_patterns sessions e s c w = (Ret patterns, w') ->
  In cat ["preference"; "code_pattern"; "anti_pattern"] ->
  mentions (field_of cat) k sessions <> [] ->
  (e <= Z.of_nat (length (mentions (field_of cat) k sessions)))%Z ->
  exists p,
    In p patterns
    /\ category p = cat
    /\ key_eqb k (description p) = true
    /\ occurrences p = Z.of_nat (length (mentions (field_of cat) k sessions)).
Proof.
  intros Hrun Hcat Hne Hge.
  apply detect_frequency_patterns_inv in Hrun
    as (preferences & codes & antis & Hpref & Hcode & Hanti & Hpat & _).
  cbv zeta in Hpat.
  assert (Hone : forall prefix items tick,
            extract_field (field_of cat) sessions [] = Ret items ->
            exists p,
              In p (emitted prefix cat items e s c tick)
              /\ category p = cat
              /\ key_eqb k (description p) = true
              /\ occurrences p
                 = Z.of_nat (length (mentions (field_of cat) k sessions))).
  { intros prefix items tick Hitems.
    pose proof (extract_field_get _ _ k _ _ Hitems) as Hget. simpl in Hget.
    destruct (mentions (field_of cat) k sessions) as [|x found] eqn:Hm;
      [done|].
    simpl in Hget.
    apply evidence_get_some in Hget as (d & Hin & Hkd).
    destruct (emitted_complete prefix cat items e s c d _ Hin Hge tick)
      as (p & Hp & Hc & Hd & Hocc & _).
    exists p. rewrite Hd. auto. }
  subst patterns.
  destruct Hcat as [<-|[<-|[<-|[]]]].
  - destruct (Hone "pref" preferences (w_ticks w) Hpref) as (p & Hp & Hrest).
    exists p. rewrite !in_app_iff. auto.
  - destruct (Hone "code" codes
                (w_ticks w + length (emitted "pref" "preference" preferences
                                       e s c (w_ticks w))) Hcode)
      as (p & Hp & Hrest).
    exists p. rewrite !in_app_iff. auto.
  - match goal with
    | |- context [emitted "anti" "anti_pattern" antis e s c ?t] =>
        destruct (Hone "anti" antis t Hanti) as (p & Hp & Hrest)
    end.
    exists p. rewrite !in_app_iff. auto.
Qed.

End CountProperties.

Lemma extract_field_raises field sessions session :
  In session sessions -> is_dict session = false ->
  forall m, exists e, extract_field field sessions m = Raise e.
Proof.
  intros Hin Hnd. induction sessions as [|s0 rest IH]; [done|].
  intros m. simpl. destruct Hin as [->|Hin].
  - destruct session; try done; simpl; eauto.
  - unfold obind.
    destruct (py_get s0 "session_id" (VStr "unknown")) as [sid|]; [|eauto].
    destruct (py_contains field s0) as [[]|]; [| |eauto].
    + destruct (py_getitem s0 field) as [annotations|]; [|eauto].
      destruct (py_iter annotations) as [items|]; [|eauto].
      destruct (note_annotations sid m items) as [m1|]; [|eauto].
      by apply IH.
    + by apply IH.
Qed.

Section OutputProperties.
Context `{PyRuntime}.

(** X16. The patterns come grouped: the preferences, then the code
    patterns, then the anti-patterns, with no description twice in a
    group. The clock is read once for each pattern, in the order of the
    list, and nothing else of the world changes. *)
Theorem detected_patterns_grouped_and_timed sessions e s c w patterns w' :
  detect_frequency_patterns sessions e s c w = (Ret patterns, w') ->
  (exists prefs codes antis,
     patterns = prefs ++ codes ++ antis
     /\ Forall (fun p => category p = "preference") prefs
     /\ Forall (fun p => category p = "code_pattern") codes
     /\ Forall (fun p => category p = "anti_pattern") antis
     /\ NoDup (map description prefs)
     /\ NoDup (map description codes)
     /\ NoDup (map description antis))
  /\ map detected_at patterns
     = map clock_reading (seq (w_ticks w) (length patterns))
  /\ w' = World (w_files w) (w_out w) (w_faults w)
            (w_ticks w + length patterns).
Proof.
  intros Hrun.
  apply detect_frequency_patterns_inv in Hrun
    as (preferences & codes & antis & Hpref & Hcode & Hanti & Hpat & Hw).
  cbv zeta in Hpat, Hw.
  set (prefs := emitted "pref" "preference" preferences e s c (w_ticks w)) in *.
  set (t1 := w_ticks w + length prefs) in *.
  set (cods := emitted "code" "code_pattern" codes e s c t1) in *.
  set (t2 := t1 + length cods) in *.
  set (ants := emitted "anti" "anti_pattern" antis e s c t2) in *.
  assert (Hcat : forall prefix cat items tick,
            Forall (fun p => category p = cat)
              (emitted prefix cat items e s c tick)).
  { intros prefix cat items tick. apply Forall_forall. intros p Hp.
    by apply list_elem_of_In, emitted_sound in Hp as [Hp _]. }
  assert (Hnd : forall prefix cat field items tick,
            extract_field field sessions [] = Ret items ->
            NoDup (map description (emitted prefix cat items e s c tick))).
  { intros prefix cat field items tick Hitems.
    apply (sublist_NoDup _ (map fst items)).
    - apply (extract_field_nodup _ _ _ _ Hitems). constructor.
    - apply emitted_descriptions. }
  split; [|split].
  - exists prefs, cods, ants. split; [exact Hpat|].
    repeat split; try apply Hcat.
    + by apply (Hnd _ _ "user_preferences").
    + by apply (Hnd _ _ "code_patterns").
    + by apply (Hnd _ _ "anti_patterns").
  - subst patterns. rewrite !map_app, !length_app, !seq_app, !map_app.
    fold t1. replace (t1 + length cods) with t2 by reflexivity.
    subst prefs cods ants. by rewrite <- !emitted_clock.
  - subst patterns w'. rewrite !length_app. f_equal. subst t2 t1. lia.
Qed.

(** X17. A session that is not a mapping, such as a string or a number
    left in the [sessions] list of a partition, makes the whole detection
    raise, before the clock is read: no pattern is returned for the other
    sessions either. *)
Theorem detect_frequency_patterns_needs_mappings sessions session e s c w :
  In session sessions -> is_dict session = false ->
  exists err, detect_frequency_patterns sessions e s c w = (Raise err, w).
Proof.
  intros Hin Hnd. unfold detect_frequency_patterns.
  destruct (extract_field_raises "user_preferences" sessions session Hin Hnd [])
    as (err & Herr).
  unfold extract_user_preferences. rewrite Herr.
  exists err. reflexivity.
Qed.

End OutputProperties.

(** ** extract.py: saving the semantic knowledge *)

Lemma string_app_assoc a b c : (a +:+ b) +:+ c = a +:+ (b +:+ c).
Proof.
  induction a as [|x a IH]; [reflexivity|].
  change (String x ((a +:+ b) +:+ c) = String x (a +:+ (b +:+ c))).
  by rewrite IH.
Qed.

Lemma leading_faults_drop n : forall faults,
  n <= leading_faults faults ->
  leading_faults (drop n faults) = leading_faults faults - n.
Proof.
  induction n as [|n IH]; intros faults Hle; simpl.
  - by rewrite drop_0, Nat.sub_0_r.
  - destruct faults as [|[] rest]; simpl in *; try lia. apply IH. lia.
Qed.

Section SaveKnowledgeProperties.
Context `{PyRuntime}.

(** A save whose every attempt fails in its I/O: it uses up one fault for
    each attempt and changes no file but its temporary one. *)
Lemma save_loop_all_faults filepath data max_retries :
  forall remaining attempt w,
    attempt + remaining = max_retries ->
    remaining <= leading_faults (w_faults w) ->
    exists w',
      save_loop filepath data max_retries attempt remaining w = (Ret false, w')
      /\ w_faults w' = drop remaining (w_faults w)
      /\ w_ticks w' = w_ticks w
      /\ forall q, q <> filepath +:+ ".tmp" -> w_files w' !! q = w_files w !! q.
Proof.
  intros remaining. induction remaining as [|remaining IH];
    intros attempt w Hsum Hle.
  - simpl. unfold ret. exists w. by rewrite drop_0.
  - simpl save_loop. unfold catch at 1. unfold bind at 1.
    destruct (w_faults w) as [|[] rest] eqn:Hw; simpl in Hle; try lia.
    rewrite (save_attempt_fault _ _ _ rest Hw).
    assert (Hlt : (attempt <? max_retries - 1) = (0 <? remaining)).
    { destruct remaining; simpl.
      - apply Nat.ltb_ge. lia.
      - apply Nat.ltb_lt. lia. }
    rewrite Hlt. destruct remaining as [|remaining'].
    + simpl. unfold bind, print, remove_file, ret, set_files. simpl.
      eexists. split; [reflexivity|]. simpl.
      repeat split. intros q Hq. by rewrite lookup_delete_ne.
    + change (0 <? S remaining') with true. cbv iota.
      unfold bind at 1. unfold print at 1. unfold bind at 1.
      unfold remove_file at 1. unfold set_files.
      cbn [w_files w_out w_faults w_ticks].
      match goal with
      | |- context [save_loop _ _ _ _ _ ?w1] =>
          destruct (IH (S attempt) w1 ltac:(lia) ltac:(simpl; lia))
            as (w' & Hloop & Hfaults & Hticks & Hfiles)
      end.
      cbn [w_files w_out w_faults w_ticks] in Hfaults, Hticks, Hfiles.
      exists w'. split; [exact Hloop|]. split; [exact Hfaults|].
      split; [exact Hticks|]. intros q Hq. rewrite (Hfiles q Hq).
      by rewrite lookup_delete_ne.
Qed.

Lemma get_timestamp_spec w :
  get_timestamp w
  = (Ret (clock_reading (w_ticks w)),
     World (w_files w) (w_out w) (w_faults w) (S (w_ticks w))).
Proof. reflexivity. Qed.

(** X18. [save_semantic_knowledge] returns [True] and prints no error of
    its own whatever happens to the four saves, whose results it does not
    look at: when the I/O of all twelve attempts fails, none of the four
    files is changed and the answer is still [True]. *)
Theorem save_semantic_knowledge_always_reports_success semantic_dir
  all_patterns preferences code_patterns anti_patterns w :
  exists w',
    save_semantic_knowledge semantic_dir all_patterns preferences
      code_patterns anti_patterns w = (Ret (true, []), w')
    /\ (12 <= leading_faults (w_faults w) ->
        forall name,
          In name ["/patterns.json"; "/preferences.json";
                   "/code-patterns.json"; "/anti-patterns.json"] ->
          w_files w' !! (semantic_dir +:+ name)
          = w_files w !! (semantic_dir +:+ name)).
Proof.
  unfold save_semantic_knowledge, catch. cbv zeta.
  assert (Hany : forall filepath key (patterns : list value) w0
                   (k : M (bool * list notice)),
    (forall w1, exists w2, k w1 = (Ret (true, []), w2)) ->
    exists w2,
      (last_updated <- get_timestamp ;;
       _ <- safe_save filepath (knowledge_doc key patterns last_updated) 3 ;;
       k) w0 = (Ret (true, []), w2)).
  { intros filepath key patterns w0 k Hk.
    unfold bind at 1. rewrite get_timestamp_spec. unfold bind at 1.
    unfold safe_save.
    destruct (save_loop_returns filepath
                (knowledge_doc key patterns (clock_reading (w_ticks w0))) 3 3 0
                (World (w_files w0) (w_out w0) (w_faults w0) (S (w_ticks w0))))
      as (b & w1 & ->).
    apply Hk. }
  assert (Hall : forall filepath key (patterns : list value) w0
                   (k : M (bool * list notice)) n w2,
    (last_updated <- get_timestamp ;;
     _ <- safe_save filepath (knowledge_doc key patterns last_updated) 3 ;;
     k) w0 = (Ret (true, []), w2) ->
    3 + n <= leading_faults (w_faults w0) ->
    exists w1,
      k w1 = (Ret (true, []), w2)
      /\ n <= leading_faults (w_faults w1)
      /\ forall q, q <> filepath +:+ ".tmp" ->
                   w_files w1 !! q = w_files w0 !! q).
  { intros filepath key patterns w0 k n w2. unfold bind at 1.
    rewrite get_timestamp_spec. unfold bind at 1. unfold safe_save.
    intros Hrun Hle.
    destruct (save_loop_all_faults filepath
                (knowledge_doc key patterns (clock_reading (w_ticks w0))) 3 3 0
                (World (w_files w0) (w_out w0) (w_faults w0) (S (w_ticks w0)))
                eq_refl ltac:(simpl; lia))
      as (w1 & Hloop & Hfaults & _ & Hfiles).
    rewrite Hloop in Hrun. exists w1. split; [exact Hrun|].
    split; [|exact Hfiles].
    rewrite Hfaults. simpl w_faults. rewrite leading_faults_drop; lia. }
  destruct (Hany (semantic_dir +:+ "/patterns.json") "patterns" all_patterns w
    (last_updated <- get_timestamp ;;
     _ <- safe_save (semantic_dir +:+ "/preferences.json")
            (knowledge_doc "preferences" preferences last_updated) 3 ;;
     last_updated <- get_timestamp ;;
     _ <- safe_save (semantic_dir +:+ "/code-patterns.json")
            (knowledge_doc "code_patterns" code_patterns last_updated) 3 ;;
     last_updated <- get_timestamp ;;
     _ <- safe_save (semantic_dir +:+ "/anti-patterns.json")
            (knowledge_doc "anti_patterns" anti_patterns last_updated) 3 ;;
     ret (true, []))) as (w' & Hrun).
  { intros w1. apply Hany. intros w2. apply Hany. intros w3. apply Hany.
    intros w4. unfold ret. eauto. }
  exists w'. rewrite Hrun. split; [reflexivity|].
  intros Hfaults name Hname.
  apply (Hall _ _ _ _ _ 9) in Hrun as (w1 & Hrun & Hf1 & Hfiles1); [|lia].
  apply (Hall _ _ _ _ _ 6) in Hrun as (w2 & Hrun & Hf2 & Hfiles2); [|lia].
  apply (Hall _ _ _ _ _ 3) in Hrun as (w3 & Hrun & Hf3 & Hfiles3); [|lia].
  apply (Hall _ _ _ _ _ 0) in Hrun as (w4 & Hrun & _ & Hfiles4); [|lia].
  unfold ret in Hrun. injection Hrun as <-.
  assert (Hne : forall other,
            In other ["/patterns.json"; "/preferences.json";
                      "/code-patterns.json"; "/anti-patterns.json"] ->
            semantic_dir +:+ name <> (semantic_dir +:+ other) +:+ ".tmp").
  { intros other Hother E. rewrite string_app_assoc in E.
    apply String.app_inj in E.
    simpl in Hname, Hother.
    destruct Hname as [<-|[<-|[<-|[<-|[]]]]];
      destruct Hother as [<-|[<-|[<-|[<-|[]]]]]; discriminate. }
  rewrite Hfiles4, Hfiles3, Hfiles2, Hfiles1; try reflexivity;
    apply Hne; simpl; auto.
Qed.

End SaveKnowledgeProperties.

Lemma detected_pattern_counts_mentions_witness :
  detect_frequency_patterns Examples.three_sessions 2 3 5 Examples.empty_world
  = (Ret [Cases.twice_pattern], World ∅ [] [] 1)
  /\ mentions "user_preferences" (VStr "twice") Examples.three_sessions
     = [VStr "a"; VStr "b"]
  /\ occurrences Cases.twice_pattern
     = Z.of_nat (length (mentions "user_preferences" (VStr "twice")
                           Examples.three_sessions))
  /\ evidence Cases.twice_pattern
     = firstn 10 (mentions "user_preferences" (VStr "twice")
                    Examples.three_sessions).
Proof.
  assert (Hrun :
    detect_frequency_patterns Examples.three_sessions 2 3 5 Examples.empty_world
    = (Ret [Cases.twice_pattern], World ∅ [] [] 1))
    by (vm_compute; reflexivity).
  destruct (detected_pattern_counts_mentions Examples.three_sessions 2 3 5
              Examples.empty_world [Cases.twice_pattern] (World ∅ [] [] 1)
              Cases.twice_pattern Hrun (or_introl eq_refl))
    as (_ & _ & _ & _ & Hocc & Hev & _).
  split; [exact Hrun|]. split; [reflexivity|]. split; [exact Hocc|exact Hev].
Defined.

Lemma frequent_description_is_detected_witness :
  exists p,
    In p [Cases.twice_pattern]
    /\ category p = "preference"
    /\ key_eqb (VStr "twice") (description p) = true
    /\ occurrences p = 2%Z.
Proof.
  destruct (frequent_description_is_detected Examples.three_sessions 2 3 5
              Examples.empty_world [Cases.twice_pattern] (World ∅ [] [] 1)
              "preference" (VStr "twice"))
    as (p & Hin & Hcat & Hkey & Hocc).
  - vm_compute. reflexivity.
  - by left.
  - discriminate.
  - vm_compute. discriminate.
  - exists p. auto.
Defined.

Lemma detected_patterns_grouped_and_timed_witness :
  exists patterns w',
    detect_frequency_patterns Examples.twelve_episodes 2 3 5
      Examples.empty_world = (Ret patterns, w')
    /\ map category patterns = ["preference"; "code_pattern"]
    /\ map detected_at patterns = [clock_reading 0; clock_reading 1]
    /\ w_ticks w' = 2.
Proof.
  destruct (detect_frequency_patterns Examples.twelve_episodes 2 3 5
              Examples.empty_world) as [[patterns|err] w'] eqn:Hrun;
    [|vm_compute in Hrun; discriminate].
  destruct (detected_patterns_grouped_and_timed Examples.twelve_episodes 2 3 5
              Examples.empty_world patterns w' Hrun)
    as (_ & Hclock & Hworld).
  assert (Hcats : map category patterns = ["preference"; "code_pattern"]).
  { vm_compute in Hrun. by injection Hrun as <- _. }
  assert (Hlen : length patterns = 2).
  { by rewrite <- (length_map category), Hcats. }
  exists patterns, w'. split; [reflexivity|]. split; [exact Hcats|].
  rewrite Hclock, Hworld, Hlen. split; reflexivity.
Defined.

Lemma detect_frequency_patterns_needs_mappings_witness :
  exists err,
    detect_frequency_patterns Cases.stray_sessions 2 3 5 Examples.empty_world
    = (Raise err, Examples.empty_world).
Proof.
  apply (detect_frequency_patterns_needs_mappings Cases.stray_sessions
           (VStr "stray")).
  - right. by left.
  - reflexivity.
Defined.

Lemma save_semantic_knowledge_always_reports_success_witness :
  exists w',
    save_semantic_knowledge "/s" [VDict []] [] [] [] Cases.knowledge_world
    = (Ret (true, []), w')
    /\ w_files w' !! "/s/patterns.json" = Some (Text "old patterns")
    /\ w_files w' !! "/s/anti-patterns.json" = None.
Proof.
  destruct (save_semantic_knowledge_always_reports_success "/s" [VDict []]
              [] [] [] Cases.knowledge_world) as (w' & Hrun & Hsame).
  exists w'. split; [exact Hrun|].
  assert (Hfaults : 12 <= leading_faults (w_faults Cases.knowledge_world))
    by (vm_compute; lia).
  split.
  - refine (eq_trans (Hsame Hfaults "/patterns.json" _) _);
      [by left|vm_compute; reflexivity].
  - refine (eq_trans (Hsame Hfaults "/anti-patterns.json" _) _);
      [right; right; right; by left|vm_compute; reflexivity].
Defined.

Section ThresholdProperties.
Context `{PyRuntime}.

(** X24. Every pattern is emerging, strong or critical, and thresholds that
    are out of order, which [load_config] lets through, make a level
    disappear: with the critical threshold at or below the strong one no
    pattern is strong, and with the strong threshold at or below the
    emerging one no pattern is emerging. *)
Theorem unordered_thresholds_lose_a_level sessions e s c w patterns w' :
  detect_frequency_patterns sessions e s c w = (Ret patterns, w') ->
  Forall (fun p => In (strength p) ["emerging"; "strong"; "critical"]) patterns
  /\ ((c <= s)%Z -> Forall (fun p => strength p <> "strong") patterns)
  /\ ((s <= e)%Z -> Forall (fun p => strength p <> "emerging") patterns).
Proof.
  intros Hrun.
  assert (Hstr : forall p, In p patterns ->
            exists n, (e <= n)%Z /\ strength p = categorize_strength n e s c).
  { intros p Hp.
    destruct (detect_frequency_patterns_groups _ _ _ _ _ _ _ Hrun p Hp)
      as (cat & items & tick & _ & _ & Hin).
    apply emitted_sound in Hin as (_ & ev & _ & Hge & _ & Hs & _). eauto. }
  repeat split; [|intros Hcs|intros Hse]; apply Forall_forall; intros p Hp;
    apply list_elem_of_In, Hstr in Hp as (n & Hge & ->);
    unfold categorize_strength;
    destruct (Z.leb_spec c n), (Z.leb_spec s n), (Z.leb_spec e n);
    simpl; try lia; try discriminate; auto.
Qed.

End ThresholdProperties.

Lemma unordered_thresholds_lose_a_level_witness :
  exists patterns w',
    detect_frequency_patterns Examples.three_sessions 2 2 5 Examples.empty_world
    = (Ret patterns, w')
    /\ Forall (fun p => strength p <> "emerging") patterns
    /\ map strength patterns = ["strong"].
Proof.
  destruct (detect_frequency_patterns Examples.three_sessions 2 2 5
              Examples.empty_world) as [[patterns|err] w'] eqn:Hrun;
    [|vm_compute in Hrun; discriminate].
  destruct (unordered_thresholds_lose_a_level Examples.three_sessions 2 2 5
              Examples.empty_world patterns w' Hrun) as (_ & _ & Hlost).
  exists patterns, w'. split; [reflexivity|]. split; [apply Hlost; lia|].
  vm_compute in Hrun. by injection Hrun as <- _.
Defined.

(** ** utils.py *)

Lemma chars_app a b : chars (a +:+ b) = chars a ++ chars b.
Proof.
  unfold chars. induction a as [|x a IH]; [reflexivity|].
  change (x :: String.list_ascii_of_string (a +:+ b)
          = x :: (String.list_ascii_of_string a ++ String.list_ascii_of_string b)).
  by rewrite IH.
Qed.

Lemma is_prefix_app l x : is_prefix l (l ++ x) = true.
Proof.
  induction l as [|c l IH]; simpl; [by destruct x|].
  by rewrite Ascii.eqb_refl, IH.
Qed.

Lemma is_partition_path_join episodic_dir name :
  is_partition_path episodic_dir (episodic_dir +:+ "/" +:+ name)
  = is_partition_name name.
Proof.
  unfold is_partition_path, is_partition_name.
  rewrite !chars_app, app_assoc.
  rewrite is_prefix_app.
  replace (length (chars episodic_dir ++ chars "/"))
    with (length (chars episodic_dir ++ chars "/") + 0) by lia.
  rewrite drop_app_add. rewrite drop_0. reflexivity.
Qed.

Lemma years_format :
  forallb (fun y => let d := chars (format_0d 4 (Z.of_nat y)) in
                    (length d =? 4) && forallb is_digit d)
    (seq 1 (Z.to_nat 9999)) = true.
Proof. vm_compute. reflexivity. Qed.

Lemma months_format :
  forallb (fun m => let d := chars (format_0d 2 (Z.of_nat m)) in
                    (length d =? 2) && forallb is_digit d)
    (seq 1 12) = true.
Proof. vm_compute. reflexivity. Qed.

Lemma digit_not_slash c : is_digit c = true -> Ascii.eqb "/" c = false.
Proof.
  destruct (Ascii.eqb_spec "/" c) as [<-|]; [|done]. vm_compute. discriminate.
Qed.

Lemma partition_name_ok year month :
  (1 <= year <= 9999)%Z -> (1 <= month <= 12)%Z ->
  is_partition_name (partition_name year month) = true
  /\ String.length (partition_name year month) = 21.
Proof.
  intros Hy Hm.
  pose proof years_format as Hys. rewrite forallb_forall in Hys.
  specialize (Hys (Z.to_nat year)). rewrite Z2Nat.id in Hys by lia.
  pose proof months_format as Hms. rewrite forallb_forall in Hms.
  specialize (Hms (Z.to_nat month)). rewrite Z2Nat.id in Hms by lia.
  assert (Hyd : let d := chars (format_0d 4 year) in
                (length d =? 4) && forallb is_digit d = true).
  { apply Hys, in_seq. lia. }
  assert (Hmd : let d := chars (format_0d 2 month) in
                (length d =? 2) && forallb is_digit d = true).
  { apply Hms, in_seq. lia. }
  clear Hys Hms. cbv zeta in Hyd, Hmd.
  apply andb_true_iff in Hyd as [Hylen Hydig].
  apply andb_true_iff in Hmd as [Hmlen Hmdig].
  apply Nat.eqb_eq in Hylen, Hmlen.
  assert (Hlen : forall s, String.length s = length (chars s)).
  { intros s. unfold chars. induction s; simpl; auto. }
  unfold is_partition_name, partition_name.
  rewrite Hlen, !chars_app.
  destruct (chars (format_0d 4 year)) as [|y1 [|y2 [|y3 [|y4 [|]]]]];
    try discriminate.
  destruct (chars (format_0d 2 month)) as [|m1 [|m2 [|]]]; try discriminate.
  simpl in Hydig, Hmdig.
  repeat match goal with
         | H : _ && _ = true |- _ => apply andb_true_iff in H as [? ?]
         end.
  split; [|reflexivity].
  cbn - [Ascii.eqb].
  rewrite (digit_not_slash y1), (digit_not_slash y2), (digit_not_slash y3),
    (digit_not_slash y4), (digit_not_slash m1), (digit_not_slash m2)
    by assumption.
  reflexivity.
Qed.

Section MonthlyFilenameProperties.
Variable fromisoformat : string -> outcome (Z * Z).
Variable utcnow : nat -> Z * Z.

(** X19. Whatever the timestamp, a name [get_monthly_filename] returns
    has the form sessions-YYYY-MM.json, and under any episodic directory it
    is one of the paths the glob of [load_all_sessions] takes for a
    partition; no file is touched. The dates are those of [datetime]: a
    year from 1 to 9999 and a month from 1 to 12. *)
Theorem get_monthly_filename_names_a_partition timestamp episodic_dir w name w' :
  (forall s year month,
     fromisoformat s = Ret (year, month) ->
     (1 <= year <= 9999)%Z /\ (1 <= month <= 12)%Z) ->
  (forall n, (1 <= fst (utcnow n) <= 9999)%Z /\ (1 <= snd (utcnow n) <= 12)%Z) ->
  get_monthly_filename fromisoformat utcnow timestamp w = (Ret name, w') ->
  (exists year month,
     name = partition_name year month
     /\ (1 <= year <= 9999)%Z /\ (1 <= month <= 12)%Z)
  /\ String.length name = 21
  /\ is_partition_path episodic_dir (episodic_dir +:+ "/" +:+ name) = true
  /\ w_files w' = w_files w.
Proof.
  intros Hiso Hnow Hrun.
  assert (Hdate : exists year month,
            name = partition_name year month
            /\ (1 <= year <= 9999)%Z /\ (1 <= month <= 12)%Z
            /\ w_files w' = w_files w).
  { unfold get_monthly_filename in Hrun.
    destruct timestamp as [[|c s]|]; unfold bind, lift, ret in Hrun;
      simpl in Hrun.
    - injection Hrun as <- <-. exists (fst (utcnow (w_ticks w))),
        (snd (utcnow (w_ticks w))). split; [reflexivity|].
      destruct (Hnow (w_ticks w)). auto.
    - match type of Hrun with
      | context [fromisoformat ?t] =>
          destruct (fromisoformat t) as [[year month]|err] eqn:Hdt
      end; [|discriminate].
      injection Hrun as <- <-. exists year, month. split; [reflexivity|].
      destruct (Hiso _ _ _ Hdt). auto.
    - injection Hrun as <- <-. exists (fst (utcnow (w_ticks w))),
        (snd (utcnow (w_ticks w))). split; [reflexivity|].
      destruct (Hnow (w_ticks w)). auto. }
  destruct Hdate as (year & month & -> & Hy & Hm & Hfiles).
  destruct (partition_name_ok year month Hy Hm) as [Hname Hlen].
  split; [by exists year, month|]. split; [exact Hlen|].
  split; [|exact Hfiles]. by rewrite is_partition_path_join.
Qed.

End MonthlyFilenameProperties.

Section ParseJsonlProperties.
Context `{PyRuntime}.



End ParseJsonlProperties.

(** ** recovery.py and synthesize.py: files that cannot be loaded *)

Section CheckProperties.
Context `{PyRuntime}.

Lemma unloadable_loads_empty f :
  unloadable f -> loaded_value (Some f) VNone = VDict [].
Proof.
  unfold unloadable, loaded_value. destruct f as [content|]; [|done].
  destruct (json_loads content) as [v|e]; [done|].
  destruct e; try done.
  by destruct (repair_scan content (String.length content)).
Qed.

(** X21. [validate_memory_structure] cannot see that a file is beyond
    loading: an index, a file of semantic knowledge or a rules metadata
    file that exists and cannot be read, or parsed even by the repair,
    adds no error, and a partition in that state is reported as lacking
    its [sessions] key, not as corrupted. A partition that holds a JSON
    number makes the check, and with it the validation, raise. *)
Theorem validation_misses_unloadable_files filepath errors w :
  (forall f,
     w_files w !! filepath = Some f -> unloadable f ->
     check_file filepath errors w = (Ret errors, after_load filepath w)
     /\ check_partition filepath errors w
        = (Ret (errors ++ [MissingSessionsKey filepath]),
           after_load filepath w))
  /\ (forall content z,
        w_files w !! filepath = Some (Text content) ->
        json_loads content = Ret (VInt z) ->
        check_partition filepath errors w = (Raise TypeError, w)).
Proof.
  split.
  - intros f Hf Hbad. pose proof (unloadable_loads_empty f Hbad) as Hload.
    split.
    + unfold check_file, path_exists. unfold bind at 1. rewrite Hf.
      unfold bind at 1. rewrite safe_load_spec.
      fold (after_load filepath w). by rewrite Hf, Hload.
    + unfold check_partition. unfold bind at 1. rewrite safe_load_spec.
      fold (after_load filepath w). by rewrite Hf, Hload.
  - intros content z Hf Hz. unfold check_partition. unfold bind at 1.
    rewrite safe_load_spec, Hf. simpl. rewrite Hz. simpl.
    by rewrite app_nil_r, world_eta.
Qed.


End CheckProperties.

(** ** extract.py: the order of the partitions *)

Lemma insert_sorted_ascending p l :
  ascending l = true -> ascending (insert_sorted p l) = true.
Proof.
  induction l as [|q l IH]; [reflexivity|].
  intros Hl. cbn [insert_sorted].
  destruct (String.leb p q) eqn:Hpq.
  - cbn [ascending]. by rewrite Hpq.
  - assert (Hqp : String.leb q p = true).
    { destruct (String.leb_total p q) as [Hle|Hle]; congruence. }
    assert (Htail : ascending l = true).
    { destruct l; [done|]. cbn [ascending] in Hl.
      by apply andb_true_iff in Hl as [_ ?]. }
    specialize (IH Htail).
    destruct l as [|r l]; cbn [insert_sorted ascending] in *.
    + by rewrite Hqp.
    + apply andb_true_iff in Hl as [Hqr _].
      destruct (String.leb p r); cbn [ascending] in *.
      * by rewrite Hqp, IH.
      * by rewrite Hqr, IH.
Qed.

Lemma insert_sorted_nodup p l :
  p ∉ l -> NoDup l -> NoDup (insert_sorted p l).
Proof.
  induction l as [|q l IH]; simpl; intros Hnotin Hnd.
  - by apply NoDup_singleton.
  - destruct (String.leb p q).
    + by apply NoDup_cons.
    + apply not_elem_of_cons in Hnotin as [Hne Hnotin].
      apply NoDup_cons in Hnd as [Hq Hnd].
      apply NoDup_cons. split; [|by apply IH].
      rewrite insert_sorted_elem. intros [->|Hin]; done.
Qed.

Lemma sorted_paths_nodup l : NoDup l -> NoDup (sorted_paths l).
Proof.
  unfold sorted_paths. induction l as [|p l IH]; simpl; [done|].
  intros [Hp Hl]%NoDup_cons. apply insert_sorted_nodup; [|by apply IH].
  by rewrite (sorted_paths_elem p l).
Qed.

Section GlobProperties.
Context `{PyRuntime}.

(** X23. The partitions [load_all_sessions] reads are the files of the
    episodic directory named sessions-*.json, each once, in ascending
    order of their paths. Listing them changes nothing. *)
Theorem glob_sessions_lists_partitions_in_order episodic_dir w :
  exists paths,
    glob_sessions episodic_dir w = (Ret paths, w)
    /\ (forall p, In p paths
                  <-> is_partition_path episodic_dir p = true
                      /\ w_files w !! p <> None)
    /\ NoDup paths
    /\ ascending paths = true.
Proof.
  unfold glob_sessions. eexists. split; [reflexivity|]. split; [|split].
  - intros p. rewrite <- list_elem_of_In, sorted_paths_elem,
      list_elem_of_filter, list_elem_of_fmap.
    split.
    + intros [Hp ([q f] & -> & Hin)]. split; [exact Hp|].
      apply elem_of_map_to_list in Hin. simpl. by rewrite Hin.
    + intros [Hp Hf]. split; [exact Hp|].
      destruct (w_files w !! p) as [f|] eqn:E; [|done].
      exists (p, f). split; [reflexivity|]. by apply elem_of_map_to_list.
  - apply sorted_paths_nodup, NoDup_filter, NoDup_fst_map_to_list.
  - unfold sorted_paths.
    induction (filter _ _) as [|p l IH]; [reflexivity|].
    simpl. by apply insert_sorted_ascending.
Qed.

End GlobProperties.

Lemma iso_year_month_in_range s year month :
  Cases.iso_year_month s = Ret (year, month) ->
  (1 <= year <= 9999)%Z /\ (1 <= month <= 12)%Z.
Proof.
  unfold Cases.iso_year_month.
  destruct (chars s) as [|y1 [|y2 [|y3 [|y4 [|dash [|m1 [|m2 rest]]]]]]];
    try discriminate.
  match goal with
  | |- (if ?c then _ else _) = _ -> _ => destruct c eqn:Hc
  end; [|discriminate].
  intros [= <- <-].
  apply andb_true_iff in Hc as [Hc Hm2].
  apply andb_true_iff in Hc as [Hc Hm1].
  apply andb_true_iff in Hc as [Hc Hy2].
  apply andb_true_iff in Hc as [_ Hy1].
  apply Z.leb_le in Hm2, Hm1, Hy2, Hy1. unfold text in *. simpl in *. lia.
Qed.

Lemma get_monthly_filename_names_a_partition_witness :
  get_monthly_filename Cases.iso_year_month Cases.december
    (Some "2025-11-30T10:00:00Z") Examples.empty_world
  = (Ret "sessions-2025-11.json", Examples.empty_world)
  /\ is_partition_path "/e" "/e/sessions-2025-11.json" = true.
Proof.
  assert (Hrun :
    get_monthly_filename Cases.iso_year_month Cases.december
      (Some "2025-11-30T10:00:00Z") Examples.empty_world
    = (Ret "sessions-2025-11.json", Examples.empty_world))
    by (vm_compute; reflexivity).
  split; [exact Hrun|].
  destruct (get_monthly_filename_names_a_partition Cases.iso_year_month
              Cases.december (Some "2025-11-30T10:00:00Z") "/e"
              Examples.empty_world "sessions-2025-11.json"
              Examples.empty_world)
    as (_ & _ & Hpath & _).
  - apply iso_year_month_in_range.
  - intros n. simpl. lia.
  - exact Hrun.
  - exact Hpath.
Defined.


Lemma validation_misses_unloadable_files_witness :
  check_partition "/e/sessions-2025-11.json" [] Cases.broken_world
  = (Ret [MissingSessionsKey "/e/sessions-2025-11.json"],
     after_load "/e/sessions-2025-11.json" Cases.broken_world)
  /\ check_file "/p/.claude/pms/procedural/rules-metadata.json" []
       Cases.broken_world
     = (Ret [], after_load "/p/.claude/pms/procedural/rules-metadata.json"
                  Cases.broken_world)
  /\ check_partition "/e/sessions-2025-12.json" [] Cases.broken_world
     = (Raise TypeError, Cases.broken_world).
Proof.
  destruct (validation_misses_unloadable_files "/e/sessions-2025-11.json" []
              Cases.broken_world) as (Hbroken & _).
  destruct (validation_misses_unloadable_files
              "/p/.claude/pms/procedural/rules-metadata.json" []
              Cases.broken_world) as (Hunreadable & _).
  destruct (validation_misses_unloadable_files "/e/sessions-2025-12.json" []
              Cases.broken_world) as (_ & Hnumber).
  split; [|split].
  - apply (Hbroken (Text "{")); vm_compute; [reflexivity|exact I].
  - apply (Hunreadable Unreadable); vm_compute; [reflexivity|exact I].
  - apply (Hnumber "7" 7%Z); vm_compute; reflexivity.
Defined.


Lemma glob_sessions_lists_partitions_in_order_witness :
  exists paths,
    glob_sessions "/e" Examples.three_partitions
    = (Ret paths, Examples.three_partitions)
    /\ (In "/e/sessions-2025-11.json" paths)
    /\ ~ In "/e/index.json" paths.
Proof.
  destruct (glob_sessions_lists_partitions_in_order "/e"
              Examples.three_partitions) as (paths & Hrun & Hin & _).
  exists paths. split; [exact Hrun|]. split.
  - apply Hin. split; vm_compute; [reflexivity|discriminate].
  - intros Hidx. apply Hin in Hidx as [Hpath _]. vm_compute in Hpath.
    discriminate.
Defined.

